(* ===== verification/_CoqProject ===== *)
-Q . S2P
Prelude.v
JsString.v
JsNumber.v
ColorCodec.v
Cache.v
Host.v
Key.v
ColorAction.v
CycleAction.v
Rounds.v
Typing.v
Outside.v
EventLoop.v
Variants.v
Orderly.v
Plugin.v
Harmony.v
