(* ===== verification/Prelude.v ===== *)
(** * Verification of the Philips Hue Stream Deck actions

    The program is the pair of key actions of the Philips Hue plugin:

    - [src/Sources/com.elgato.philips-hue.sdPlugin/plugin/js/colorAction.js]
      ([ColorAction]: one colour or one colour temperature per key), and
    - [src/Sources/com.elgato.philips-hue.sdPlugin/plugin/js/cycleAction.js]
      ([CycleAction]: a sequence of colours, one step per key press).

    Each action is a constructor function with three operations:
    [onKeyUp] (validate the stored settings against the bridge cache, convert
    the configured value and ask the bridge to set it, with a completion
    callback that updates the cache), [setDefaults] (repair missing or
    incompatible colour settings and save them) and [newCacheAvailable]
    (run the parent's hook, then [setDefaults], then the caller's callback).
    Everything else the code touches ([Action], [Bridge], [Light], [Group],
    [cache], [log], [showAlert], [saveSettings]) lives outside [src/] and
    is modelled here only as far as the two files use it.

    ** Files, in dependency order

    - [Prelude] (this file): the handler monad [act] (state, emitted
      effects in program order, and a thrown exception that ends the handler
      early), its laws up to pointwise equality, the projections used to state
      theorems about a handler's result, JavaScript array indexing by an
      integer, and the development's tactics and hint database [hue].
    - [JsString]: the two [String.prototype] methods the code calls,
      [indexOf] and [charAt], with the lemmas that relate them.
    - [JsNumber]: JavaScript numbers as IEEE 754 binary64 (Rocq's primitive
      [float]), [Math.round], and the string-to-number coercion that the
      arithmetic operators apply to the colour strings.
    - [ColorCodec]: the two temperature conversions, written operation by
      operation as in the source (colorAction.js 99-103 and cycleAction.js
      107-116), an exact integer specification of each, and the proof that the
      floating-point code computes the exact value on and around the nominal
      ranges; bounds and monotonicity.
    - [Cache]: the bridge cache as the code reads it: [cache.data] maps a
      bridge id to an object with [ip], [id], [username], [lights] and
      [groups]; the last two map ids to light objects. Light objects live in
      a store indexed by locations, because the completion callback keeps a
      reference to the object it resolved ([objCache]) and writes to it
      later, whatever has happened to the cache in between.
    - [Host]: the collaborators as the two files use them: the settings
      object, the [Action] instance ([getSettings], [getContext]), the
      effects a handler emits ([log], [showAlert], [saveSettings], [setXY],
      [setTemperature], the refresh callback), the closures handed to the
      transport, and the thrown [TypeError].
    - [Key]: the interface [KeyAction] between an action and the event
      loop (constructor, [onKeyUp], [newCacheAvailable], completion
      callbacks), and the laws [Lawful] the loop relies on.
    - [ColorAction]: [onKeyUp], its two completion callbacks, [setDefaults],
      [newCacheAvailable] and the constructor of colorAction.js; the action
      as an instance of [KeyAction], with its laws.
    - [CycleAction]: the same for cycleAction.js, with the closure variable
      [currentColor].
    - [Rounds]: sequences of key presses of the cycle action, each
      confirmed before the next ([presses]), from any cursor.
    - [Typing]: requests typed by the kind of the device (colour or
      temperature), and the colours on which the tests of [onKeyUp] and
      [setDefaults] agree.
    - [Outside]: what the two actions do outside their conventions, as
      theorems on every state.
    - [EventLoop]: the environment of a key: a step relation over key
      presses, answers of the transport to any request under way, new
      caches, notices of a new cache and changes of settings, with the
      invariants of every configuration it reaches, proved from the laws of
      [Key].
    - [Variants]: the two actions compared under the loop: a cycle key
      whose sequence is one hex colour against a colour key.
    - [Orderly]: the invariant of a key that is used in order (settings
      matched to the device, callbacks that write the field of the kind of
      their object), proved once against the interface [Matching], which
      both actions implement; new caches that are followed by their notice.
    - [Plugin]: any number of keys of the two actions on one shared cache,
      and the projection of the plugin on each key.
    - [Harmony]: the invariant of [Orderly] for all keys of a plugin at
      once, through refreshes of the cache.

    ** How state and operations correspond to the code

    A handler is a function of type [act (state V) effect exn A]: it
    receives the state (the cache with its object store, the action
    instance, the closure variables [V]: [unit] for the colour action, the
    integer [currentColor] for the cycle action), and either returns or
    throws, in both cases with the state it leaves behind and the list of
    effects it emitted, oldest first.  An early [return] of the source is the
    end of a branch; a property read on [undefined] and the [in] operator on
    [null] are [throw (TypeError _)] with the message of the runtime.  The
    definitions [onKeyUp], [setDefaults], [newCacheAvailable] and the
    constructors follow the source statement by statement, with its names.

    A function expression passed to the transport is a [closure], the record
    of the variables it captured ([objCache], the value sent, [inContext]);
    the action that built it owns the functions that run it ([setXY_done],
    [setTemperature_done], selected by [complete]).  The transport itself is
    not run: a request is an effect that carries its closure, and a theorem
    about a completion runs the closure with success or with failure, in the
    state it names.  Sequences of events on one key are compositions of
    handlers ([presses] is [j] key presses, each confirmed before the next)
    or runs of the event loop ([EventLoop.step]), where a request stays
    pending until an event answers it and other events may come first.
    In [Plugin] the keys of both actions are the entries of a table by
    context; a handler of a key runs on the shared cache and the entry of
    the key, and what it leaves is written back to both.

    Two interfaces stand for code outside [src/]: [ColorSpace] ([Bridge.hex2xy]
    and the type of its result) and [ActionBase] ([Action] and its
    [newCacheAvailable], with the law that it ends by calling the callback it
    was given, once).  The theorems of the actions hold for every instance;
    those of the event loop and of the plugin for every instance that is
    [Modest] ([Key]): it leaves the cache and the closure variables of the
    action alone, files the key under the context it is given and asks
    nothing of the bridge.
    [plain_base] is the least instance of [ActionBase]; [hex_space] is the
    colour space at which the theorems are evaluated, on the installation of
    [Host.Demo] (one bridge, a colour light, a light without colour, a
    colour group).

    ** What the theorems show

    - [JsNumber], [ColorCodec]: reading back the decimal text of an
      integer gives the float of that integer, for every integer
      ([toNumber_decimal_string]); the floating-point
      conversions return exactly the round-half-up value of the formula on
      every integer of -100..200 percent and 1000..10000 Kelvin; on the
      nominal ranges 0..100 and 2000..6500 the result lies in 153..500;
      percent is monotone and Kelvin antitone.
    - [ColorAction], [CycleAction], for every state and argument: [onKeyUp]
      and [setDefaults] are equal to specifications that are functions of the
      state ([onKeyUp_spec], [setDefaults_spec], over the order of checks
      [validate]); a failed check gives one log entry and one alert, no
      request and no change of state; a key press makes at most one request
      and changes nothing but the cursor; a confirmed request writes exactly
      the value sent to exactly one field of the resolved object; a failed
      one changes nothing; [setDefaults] keeps settings that suit the device,
      repairs the others, saves what it assigned and is idempotent; the
      handlers preserve the invariants of the cache ([cache_wf],
      [cache_named]) and the lower bound of the cursor; [newCacheAvailable]
      runs [setDefaults] before the caller's callback.
    - [CycleAction], [Rounds]: the cursor wraps to the first colour, a
      failed request is repeated by the next key press, [j] confirmed key
      presses from any cursor not below -1 request the colours in cyclic
      order from the index the first press computes ([cycle_round]), and
      every colour is reached within one round.
    - [Typing]: after [setDefaults] the request of a key press is of the
      kind the device supports, for colours whose [#], if any, is in front
      ([color_defaults_typed]); so are all requests of a round on colours of
      the kind of the device.
    - [Variants]: colorAction.js and cycleAction.js agree where they are
      meant to: on key presses with a hex colour that is also the only
      entry of the sequence, answers with either outcome, new caches and
      changes of settings, every run of the colour key is a run of the
      cycle key with the same effects, cache and pending callbacks
      ([cycle_single_simulates]); a number is a percentage to one and a
      Kelvin value to the other ([temperatures_differ]).
    - [EventLoop], for both actions and every order of events from the
      constructor on: the cache stays well formed, the key keeps its
      context and every pending callback holds an object of the store
      ([loop_sound]); when every request under way is answered the key
      comes to rest, with no request added ([loop_drains]); a request in
      flight is answered as it was made,
      whatever has happened to the cache and the settings since the key
      press ([loop_in_flight]); the requests and alerts of a colour key
      are as many as its key presses and the failures the bridge reported
      ([color_loop_outcomes]); a key press of the colour action always
      returns; for the cycle action the cursor stays at least -1, so that a
      key press with valid settings and at least one colour never indexes
      past the end, even after the colours were shortened or answers came
      late.
    - [Orderly]: a key that is pressed with its own settings, answered
      and told of the cache, in any order, on colours whose [#], if any, is
      in front (and, for the cycle action, that are all of one kind), sends
      only requests of the kind of its device, and no device changes its
      kind ([color_orderly_typed], [cycle_orderly_typed]).  The same holds
      when the discovery installs new caches, each keeping the kind of
      every object and followed at once by its notice: [setDefaults]
      matches the settings to the device the new cache lists, and every
      request made is of the kind its device still has
      ([color_renewed_typed], [cycle_renewed_typed]).  [Outside], [Typing]
      and the example [unnoticed_request] show that the conditions cannot
      be dropped; [turned_requests] shows that the notice replaces the
      colours of a cycle key and leaves its cursor.
    - [Plugin], for any number of keys of both actions on one cache: each
      key, seen by itself, runs under the loop of [EventLoop], the writes of
      the other keys being new caches ([plugin_refines_loop]); so every key
      has in the plugin what it has alone ([plugin_key_sound],
      [plugin_cycle_press]); an event leaves the keys it does not concern as
      they are ([plugin_frame]); a confirmed colour is in the cache every
      key reads ([plugin_answer_shared]); the requests of all keys are the
      requests answered and the requests under way, and the plugin comes to
      rest when all are answered ([plugin_accounted], [plugin_drains]).
    - [Harmony]: keys used in order do not disturb each other: every
      request of every key is of the kind of its device and the settings of
      every key stay matched, whatever the other keys write to the cache,
      and through every new cache that keeps the kind of every object and
      is followed by its notice to every key ([plugin_orderly_typed]).
    - [Outside], [Typing], [Rounds], on every state: a group id with the
      letter l makes the key press throw; a hex colour is sent to a light
      without colour and the confirmation gives it an [xy]; a [#] inside a
      colour is kept by [setDefaults] and sent as the wrong kind; an empty
      array of colours makes the key press and [setDefaults] throw; with
      [null] for the settings one action reads the settings of the instance
      and the other throws ([null_settings_diverge]); a key
      pressed [j + 1] times before the bridge answers skips [j] colours
      ([cycle_burst_skips]).
      Closed examples show a mixed array of colours, a cache replaced
      between a request and its answer, and a flip of capability that
      crosses from one key to another.

    ** Bounds and assumptions

    - No definition needs fuel: every handler is a finite composition,
      [presses] recurses on the number of key presses, [fires] and [happens]
      on the list of events.  The two files have no loop and no recursion,
      and neither prints what it parses: there is no theorem of termination
      and none of a round trip, because the code has nothing of the kind to
      state one about.
    - [EventLoop] runs one key and [Plugin] any number of them; a key, once
      created, stays.  A new cache must be well formed and keep the objects
      of the old store (an object lives as long as a callback holds it); its
      tables are arbitrary.  The host may give notice of a new cache to each
      key at any later time, or never; only the theorems of [Orderly] and
      [Harmony] on new caches ask that the notice follows at once, to
      every key.
    - [Orderly] and [Harmony] are proved for the plain base action: a
      base that is merely [Modest] may rewrite the settings in its hook.
    - The agreement of the conversions with exact arithmetic is established
      by evaluating the code on every integer of the two ranges; outside
      them [toNumber_decimal_string] gives only that the conversions compute
      with the float of the integer, and on strings that are not decimal
      integers there is nothing beyond the examples.
    - Strings are byte strings; the code only inspects ASCII characters
      (['#'], ['l'], ['-'], digits), for which byte and UTF-16 indices agree.
    - Settings fields hold strings (and [colors] an array of strings), as the
      property inspector writes them; other keys of the settings object are
      never read or written by the two files and are left out.
    - [in] is modelled on own properties: ids are assumed not to be names of
      [Object.prototype].
    - [currentColor] is an integer ([Z]); it stays far below 2^53, where
      JavaScript's [++] is exact.
    - [cache_wf] (every id of the cache refers to an object) is an invariant
      of every JavaScript heap; [cache_named] (light ids contain ["l-"],
      group ids contain no ["l"]) is the plugin's naming convention, assumed
      only where a theorem says so.

    ** Not modelled

    [Bridge.hex2xy] (the class [ColorSpace]), the network transport and the
    time at which it calls back, the discovery that fills the cache, the
    property inspector, the persistence of settings, the removal of a key,
    and the Stream Deck host beyond the events of [EventLoop] and [Plugin]:
    none of them is in the sources.  Both source files are modelled in
    full. *)

From Stdlib Require Import ZArith Lia.
From stdpp Require Import base tactics option list.

#[global] Open Scope Z_scope.

(** ** The handler monad *)

Inductive outcome (S E X A : Type) : Type :=
| Returned (a : A) (s : S) (out : list E)
| Threw (x : X) (s : S) (out : list E).

Arguments Returned {S E X A} a s out.
Arguments Threw {S E X A} x s out.

Definition act (S E X A : Type) : Type := S → outcome S E X A.

Section act.
Context {S E X : Type}.

Definition act_ret {A} (a : A) : act S E X A := λ s, Returned a s [].

Definition after {A} (out : list E) (o : outcome S E X A) : outcome S E X A :=
  match o with
  | Returned a s out' => Returned a s (out ++ out')
  | Threw x s out' => Threw x s (out ++ out')
  end.

Definition act_bind {A B} (k : A → act S E X B) (m : act S E X A) : act S E X B :=
  λ s, match m s with
       | Returned a s' out => after out (k a s')
       | Threw x s' out => Threw x s' out
       end.

Definition get : act S E X S := λ s, Returned s s [].
Definition put (s : S) : act S E X unit := λ _, Returned tt s [].
Definition modify (f : S → S) : act S E X unit := λ s, Returned tt (f s) [].
Definition emit (e : E) : act S E X unit := λ s, Returned tt s [e].
Definition throw {A} (x : X) : act S E X A := λ s, Threw x s [].

(** What a finished handler left behind. *)
Definition final {A} (o : outcome S E X A) : S :=
  match o with Returned _ s _ | Threw _ s _ => s end.
Definition emitted {A} (o : outcome S E X A) : list E :=
  match o with Returned _ _ out | Threw _ _ out => out end.
Definition thrown {A} (o : outcome S E X A) : option X :=
  match o with Returned _ _ _ => None | Threw x _ _ => Some x end.
Definition returned {A} (o : outcome S E X A) : option A :=
  match o with Returned a _ _ => Some a | Threw _ _ _ => None end.

End act.

#[global] Instance act_mret {S E X} : MRet (act S E X) := λ A, act_ret.
#[global] Instance act_mbind {S E X} : MBind (act S E X) := λ A B, act_bind.

(** Two handlers are equivalent when they agree on every state. *)
#[global] Instance act_equiv {S E X A} : Equiv (act S E X A) :=
  λ m1 m2, ∀ s, m1 s = m2 s.

(** JavaScript's [a[i]] for an array [a] and an integer [i]: [undefined]
    ([None]) when [i] is negative or past the end. *)
Definition lookupZ {A} (l : list A) (i : Z) : option A :=
  if bool_decide (0 ≤ i) then l !! Z.to_nat i else None.

(** The integers from [lo] to [hi], both included: the domain of a check by
    computation. *)
Definition Zrange (lo hi : Z) : list Z :=
  (λ i : nat, lo + Z.of_nat i) <$> seq 0 (Z.to_nat (hi - lo + 1)).

(** JavaScript's [k in o] for an object used as a map. *)
Definition has_key `{Lookup K V M} (k : K) (m : M) : bool :=
  match m !! k with Some _ => true | None => false end.

(** ** Tactics *)

(** Unfold the monad so that a handler applied to a state computes. *)
Ltac act_unfold :=
  unfold mbind, mret, act_mbind, act_mret, act_bind, act_ret,
    get, put, modify, emit, throw, after in *.

(** Split on the next test of the code: a [match], an [if] or a decision. *)
Ltac case_test :=
  first [ case_bool_decide | case_match ]; simplify_eq/=.

Ltac case_tests := repeat case_test.

Create HintDb hue discriminated.
Create Rewrite HintDb hue.

(** ** Laws *)

Section act_laws.
Context {S E X : Type}.
Implicit Types s : S.

Lemma after_nil {A} (o : outcome S E X A) : after [] o = o.
Proof. by destruct o. Qed.

Lemma after_app {A} (l1 l2 : list E) (o : outcome S E X A) :
  after (l1 ++ l2) o = after l1 (after l2 o).
Proof. destruct o; simpl; by rewrite (assoc_L (++)). Qed.

Lemma final_after {A} l (o : outcome S E X A) : final (after l o) = final o.
Proof. by destruct o. Qed.

Lemma emitted_after {A} l (o : outcome S E X A) :
  emitted (after l o) = l ++ emitted o.
Proof. by destruct o. Qed.

Lemma thrown_after {A} l (o : outcome S E X A) : thrown (after l o) = thrown o.
Proof. by destruct o. Qed.

#[global] Instance act_equivalence {A} : Equivalence (≡@{act S E X A}).
Proof.
  split; [by intros m s | by intros m1 m2 H s | ].
  intros m1 m2 m3 H1 H2 s. by rewrite H1.
Qed.

#[global] Instance act_bind_proper {A B} :
  Proper (pointwise_relation A (≡) ==> (≡) ==> (≡@{act S E X B})) mbind.
Proof.
  intros k1 k2 Hk m1 m2 Hm s. act_unfold. rewrite Hm.
  destruct (m2 s); [by rewrite (Hk a s0) | done].
Qed.

Lemma act_bind_ret_l {A B} (a : A) (k : A → act S E X B) : mret a ≫= k ≡ k a.
Proof. intros s. act_unfold. apply after_nil. Qed.

Lemma act_bind_ret_r {A} (m : act S E X A) : m ≫= mret ≡ m.
Proof.
  intros s. act_unfold. destruct (m s); simpl; [|done].
  by rewrite (right_id_L [] (++)).
Qed.

Lemma act_bind_assoc {A B C} (m : act S E X A)
    (k : A → act S E X B) (h : B → act S E X C) :
  (m ≫= k) ≫= h ≡ m ≫= (λ a, k a ≫= h).
Proof.
  intros s. unfold mbind, act_mbind, act_bind. destruct (m s) as [a s1 o1|]; [|done].
  destruct (k a s1) as [b s2 o2|]; simpl; [|done].
  by rewrite after_app.
Qed.

(** A handler that throws ends the sequence: what follows does not run. *)
Lemma act_bind_throw {A B} (x : X) (k : A → act S E X B) : throw x ≫= k ≡ throw x.
Proof. by intros s. Qed.

(** *** Running a handler on a state, one operation at a time *)

Lemma run_bind {A B} (m : act S E X A) (k : A → act S E X B) s :
  (m ≫= k) s = match m s with
               | Returned a s' out => after out (k a s')
               | Threw x s' out => Threw x s' out
               end.
Proof. done. Qed.

Lemma run_ret {A} (a : A) s : mret (M := act S E X) a s = Returned a s [].
Proof. done. Qed.

Lemma run_get s : get (E := E) (X := X) s = Returned s s [].
Proof. done. Qed.

Lemma run_put s' s : put (E := E) (X := X) s' s = Returned tt s' [].
Proof. done. Qed.

Lemma run_modify (f : S → S) s : modify (E := E) (X := X) f s = Returned tt (f s) [].
Proof. done. Qed.

Lemma run_emit (e : E) s : emit (X := X) e s = Returned tt s [e].
Proof. done. Qed.

Lemma run_throw {A} (x : X) s : throw (A := A) (E := E) x s = Threw x s [].
Proof. done. Qed.

End act_laws.

#[export] Hint Rewrite @after_nil @final_after @emitted_after @thrown_after : hue.

Create Rewrite HintDb run.
#[export] Hint Rewrite @run_bind @run_ret @run_get @run_put @run_modify
  @run_emit @run_throw @after_nil : run.

(** Run the handler of the goal on its state as far as the code is
    determined, leaving the tests that depend on the state. *)
Ltac run :=
  repeat (progress (autorewrite with run; simpl)).

(** ** Array indexing *)

Section lookupZ.
Context {A : Type}.
Implicit Types (l : list A) (i : Z).

Lemma lookupZ_neg l i : i < 0 → lookupZ l i = None.
Proof. intros. unfold lookupZ. case_bool_decide; [lia | done]. Qed.

Lemma lookupZ_nat l (n : nat) : lookupZ l (Z.of_nat n) = l !! n.
Proof. unfold lookupZ. case_bool_decide; [by rewrite Nat2Z.id | lia]. Qed.

Lemma lookupZ_is_Some l i : is_Some (lookupZ l i) ↔ 0 ≤ i < Z.of_nat (length l).
Proof.
  unfold lookupZ. case_bool_decide.
  - rewrite lookup_lt_is_Some. lia.
  - split; [by intros [? ?] | lia].
Qed.

Lemma lookupZ_None l i : lookupZ l i = None ↔ i < 0 ∨ Z.of_nat (length l) ≤ i.
Proof. rewrite eq_None_not_Some, lookupZ_is_Some. lia. Qed.

Lemma lookupZ_0 l : lookupZ l 0 = head l.
Proof. by destruct l. Qed.

End lookupZ.

(** ** Checks by computation over a range *)

Lemma elem_of_Zrange (lo hi i : Z) : i ∈ Zrange lo hi ↔ lo ≤ i ≤ hi.
Proof.
  unfold Zrange. rewrite list_elem_of_fmap. split.
  - intros (k & -> & Hk%elem_of_seq). lia.
  - intros Hi. exists (Z.to_nat (i - lo)). rewrite elem_of_seq. lia.
Qed.

Lemma forallb_Zrange (f : Z → bool) (lo hi : Z) :
  forallb f (Zrange lo hi) = true → ∀ i, lo ≤ i ≤ hi → f i = true.
Proof.
  rewrite forallb_forall. intros H i Hi.
  by apply H, list_elem_of_In, elem_of_Zrange.
Qed.

Lemma has_key_true `{FinMapLookup : Lookup K V M} (k : K) (m : M) :
  has_key k m = true ↔ is_Some (m !! k).
Proof. unfold has_key. destruct (m !! k); split; (done || eauto || by intros [? ?]). Qed.

Lemma has_key_false `{FinMapLookup : Lookup K V M} (k : K) (m : M) :
  has_key k m = false ↔ m !! k = None.
Proof. unfold has_key. by destruct (m !! k). Qed.
