(* ===== verification/JsString.v ===== *)
(** * JsString: the string methods the two actions call

    [indexOf] and [charAt] of [String.prototype], on byte strings.  The code
    uses [indexOf] as a containment test ([... !== -1]) and [charAt(0)] as a
    test of the first character; the lemmas below characterise both tests and
    relate them, which is what the agreement theorems of the actions need. *)

From Stdlib Require Import ZArith Lia String Ascii.
From stdpp Require Import base tactics strings.
From S2P Require Import Prelude.

(** [s.indexOf(sub)] searching from position [i]: the index of the first
    occurrence, or -1. *)
Fixpoint indexOf_from (i : Z) (s sub : string) : Z :=
  if String.prefix sub s then i
  else match s with
       | EmptyString => -1
       | String _ s' => indexOf_from (i + 1) s' sub
       end.

Definition indexOf (s sub : string) : Z := indexOf_from 0 s sub.

(** [s.charAt(i)]: the one-character string at [i], or the empty string. *)
Definition charAt (s : string) (i : Z) : string :=
  if bool_decide (0 ≤ i)
  then match String.get (Z.to_nat i) s with
       | Some c => String c EmptyString
       | None => EmptyString
       end
  else EmptyString.

(** The test [s.indexOf(sub) !== -1]. *)
Definition includes (s sub : string) : bool := negb (indexOf s sub =? -1).

(** ** Prefixes *)

Lemma string_app_nil_l (s : string) : "" +:+ s = s.
Proof. done. Qed.

Lemma string_app_cons (c : ascii) (s t : string) :
  String c s +:+ t = String c (s +:+ t).
Proof. done. Qed.

Lemma prefix_app (p t : string) : String.prefix p (p +:+ t) = true.
Proof.
  induction p as [|c p IH]; simpl; [by destruct t | ].
  by destruct (ascii_dec c c).
Qed.

Lemma prefix_inv (p s : string) :
  String.prefix p s = true → ∃ t, s = p +:+ t.
Proof.
  revert s. induction p as [|c p IH]; intros s H; [by exists s | ].
  destruct s as [|d s]; simpl in H; [done | ].
  destruct (ascii_dec c d) as [->|]; [|done].
  destruct (IH s H) as [t ->]. by exists t.
Qed.

Lemma prefix_iff (p s : string) :
  String.prefix p s = true ↔ ∃ t, s = p +:+ t.
Proof. split; [apply prefix_inv | intros [t ->]; apply prefix_app]. Qed.

(** ** [indexOf] *)

Lemma indexOf_from_offsets (i j : Z) (s sub : string) :
  indexOf_from i s sub = -1 ∧ indexOf_from j s sub = -1 ∨
  ∃ n : nat, indexOf_from i s sub = i + Z.of_nat n
           ∧ indexOf_from j s sub = j + Z.of_nat n.
Proof.
  revert i j. induction s as [|c s IH]; intros i j; cbn [indexOf_from].
  - destruct (String.prefix sub ""); [right; exists 0%nat; lia | by left].
  - destruct (String.prefix sub (String c s)); [right; exists 0%nat; lia | ].
    destruct (IH (i + 1) (j + 1)) as [?|(n & ? & ?)]; [by left | ].
    right; exists (Datatypes.S n); lia.
Qed.

Lemma indexOf_from_shift (i : Z) (s sub : string) :
  indexOf_from i s sub = -1 ∧ indexOf s sub = -1 ∨
  indexOf_from i s sub = i + indexOf s sub ∧ 0 ≤ indexOf s sub.
Proof.
  unfold indexOf.
  destruct (indexOf_from_offsets i 0 s sub) as [?|(n & ? & ?)]; [by left | right; lia].
Qed.

Lemma indexOf_range (s sub : string) : -1 ≤ indexOf s sub.
Proof. destruct (indexOf_from_shift 0 s sub) as [[_ ->]|[_ ?]]; lia. Qed.

Lemma indexOf_cons (c : ascii) (s sub : string) :
  indexOf (String c s) sub =
    if String.prefix sub (String c s) then 0
    else if indexOf s sub =? -1 then -1 else 1 + indexOf s sub.
Proof.
  unfold indexOf at 1. cbn [indexOf_from]. case_match; [done | ].
  destruct (indexOf_from_shift (0 + 1) s sub) as [[-> ->]|[-> ?]]; [done | ].
  destruct (Z.eqb_spec (indexOf s sub) (-1)); lia.
Qed.

(** The containment test holds exactly when [sub] occurs in [s]. *)
Lemma includes_iff (s sub : string) :
  includes s sub = true ↔ ∃ pre post, s = pre +:+ sub +:+ post.
Proof.
  unfold includes. induction s as [|c s IH].
  - unfold indexOf; cbn [indexOf_from]. destruct (String.prefix sub "") eqn:Hp.
    + split; [intros _ | done].
      apply prefix_inv in Hp as [t Ht]. by exists "", t.
    + split; [done | intros (pre & post & H)].
      destruct pre, sub; done.
  - rewrite indexOf_cons. destruct (String.prefix sub (String c s)) eqn:Hp.
    + split; [intros _ | done].
      apply prefix_inv in Hp as [t Ht]. by exists "", t.
    + pose proof (indexOf_range s sub).
      destruct (Z.eqb_spec (indexOf s sub) (-1)) as [He|He]; simpl in IH.
      * split; [done | intros (pre & post & Hs)].
        destruct pre as [|d pre].
        { rewrite Hs, string_app_nil_l, prefix_app in Hp. done. }
        rewrite string_app_cons in Hs. simplify_eq. by apply IH; eauto.
      * destruct (Z.eqb_spec (1 + indexOf s sub) (-1)); [lia | ].
        split; [intros _ | done].
        destruct (proj1 IH eq_refl) as (pre & post & ->).
        by exists (String c pre), post.
Qed.

Lemma includes_false (s sub : string) :
  includes s sub = false ↔ indexOf s sub = -1.
Proof. unfold includes. destruct (Z.eqb_spec (indexOf s sub) (-1)); naive_solver. Qed.

Lemma string_app_assoc (a b c : string) : (a +:+ b) +:+ c = a +:+ b +:+ c.
Proof.
  induction a as [|x a IH]; [done | ]. by rewrite !string_app_cons, IH.
Qed.

(** A string that contains [a +:+ b] contains [a]: whatever contains ["l-"]
    contains ["l"]. *)
Lemma includes_app_l (s a b : string) :
  includes s (a +:+ b) = true → includes s a = true.
Proof.
  rewrite !includes_iff. intros (pre & post & ->).
  exists pre, (b +:+ post). by rewrite string_app_assoc.
Qed.

(** ** [charAt] *)

Lemma charAt_0 (s : string) :
  charAt s 0 = match s with String c _ => String c "" | EmptyString => "" end.
Proof. by destruct s. Qed.

Lemma charAt_0_eq (s : string) (c : ascii) :
  charAt s 0 = String c "" ↔ ∃ t, s = String c t.
Proof.
  rewrite charAt_0. destruct s as [|d t]; split;
    [done | by intros [? ?] | intros [= ->]; eauto | by intros [? [= -> ->]]].
Qed.

(** A string that starts with a character contains it. *)
Lemma charAt_0_includes (s : string) (c : ascii) :
  charAt s 0 = String c "" → includes s (String c "") = true.
Proof.
  intros [t ->]%charAt_0_eq. apply includes_iff. by exists "", t.
Qed.

#[export] Hint Resolve includes_app_l charAt_0_includes : hue.
