(* ===== verification/JsNumber.v ===== *)
(** * JsNumber: JavaScript numbers as the two actions use them

    A JavaScript Number is an IEEE 754 binary64 value, which is what Rocq's
    primitive [float] is; [/], [*], [+] and [-] of the source are the
    primitive operations.  This file adds what the language runtime does
    around them in colorAction.js line 103 and cycleAction.js lines 114-116:

    - [toNumber]: the coercion the arithmetic operators apply to a string
      operand (ECMAScript StringToNumber): surrounding white space is
      dropped, the empty string is 0, then a signed decimal literal with
      optional fraction and exponent, [Infinity], or an unsigned [0x], [0o],
      [0b] literal; anything else is [NaN].  The value of a literal is
      rounded to the nearest float, ties to even.  White space is the ASCII
      part of the language's set.
    - [Math_round]: [Math.round], the nearest integer with ties towards
      positive infinity, keeping the sign of zero.
    - [of_Z] and [to_Z]: the float nearest to an integer, and the integer a
      float denotes when it denotes one; theorems about results are stated
      through [to_Z], so they need no equality test on floats.
    - [decimal_string]: the text [String(n)] of an integer, and the proof
      that [toNumber] reads it back as the float of [n]
      ([toNumber_decimal_string]). *)

From Stdlib Require Import ZArith Lia String Ascii Floats.
From Stdlib Require Import Decimal DecimalString DecimalZ DecimalPos.
From stdpp Require Import base tactics strings.
From S2P Require Import Prelude JsString.

#[local] Open Scope Z_scope.

Abbreviation number := float.

(** ** Integers and floats *)

(** The float nearest to [n] (exactly [n] when [|n| ≤ 2^53]). *)
Definition of_Z (n : Z) : number :=
  SF2Prim (binary_normalize prec emax n 0 false).

(** The float nearest to [± m / d]. *)
Definition of_ratio (neg : bool) (m d : positive) : number :=
  SF2Prim (SFdiv prec emax (S754_finite neg m 0) (S754_finite false d 0)).

(** The integer a float denotes, if it is finite and integral. *)
Definition to_Z (x : number) : option Z :=
  match Prim2SF x with
  | S754_zero _ => Some 0
  | S754_finite s m e =>
      if 0 <=? e then Some (cond_Zopp s (Z.pos m * 2 ^ e))
      else if Z.pos m mod 2 ^ (- e) =? 0
           then Some (cond_Zopp s (Z.pos m / 2 ^ (- e)))
           else None
  | _ => None
  end.

(** ** [Math.round] *)

(** For a finite [x = ± m * 2^e] with [e < 0] the result is
    [floor (x + 1/2) = floor ((± 2m + 2^(-e)) / 2^(1-e))]; with [0 ≤ e], and
    for zeros, infinities and NaN, the result is [x]. *)
Definition Math_round (x : number) : number :=
  match Prim2SF x with
  | S754_finite s m e =>
      if 0 <=? e then x
      else let n := Z.shiftr (2 * cond_Zopp s (Z.pos m) + 2 ^ (- e)) (1 - e) in
           if n =? 0 then (if s then PrimFloat.neg_zero else PrimFloat.zero)
           else of_Z n
  | _ => x
  end.

(** ** String to number *)

Definition is_white (c : ascii) : bool :=
  let n := nat_of_ascii c in
  ((9 <=? n) && (n <=? 13) || (n =? 32))%nat.

Fixpoint trimStart (s : string) : string :=
  match s with
  | String c s' => if is_white c then trimStart s' else s
  | EmptyString => EmptyString
  end.

Definition trim (s : string) : string :=
  String.rev (trimStart (String.rev (trimStart s))).

Definition digit (c : ascii) : option (uint → uint) :=
  match c with
  | "0" => Some D0 | "1" => Some D1 | "2" => Some D2 | "3" => Some D3
  | "4" => Some D4 | "5" => Some D5 | "6" => Some D6 | "7" => Some D7
  | "8" => Some D8 | "9" => Some D9 | _ => None
  end%char.

(** The longest prefix of decimal digits, and what follows it. *)
Fixpoint digits (s : string) : uint * string :=
  match s with
  | String c s' =>
      match digit c with
      | Some d => let '(u, r) := digits s' in (d u, r)
      | None => (Nil, s)
      end
  | EmptyString => (Nil, EmptyString)
  end.

(** The value of a digit in a radix up to 16. *)
Definition radix_digit (radix : Z) (c : ascii) : option Z :=
  let n := Z.of_nat (nat_of_ascii c) in
  let v := if (48 <=? n) && (n <=? 57) then n - 48
           else if (97 <=? n) && (n <=? 102) then n - 87
           else if (65 <=? n) && (n <=? 70) then n - 55
           else radix in
  if v <? radix then Some v else None.

Fixpoint radix_value (radix acc : Z) (s : string) : option Z :=
  match s with
  | EmptyString => Some acc
  | String c s' =>
      match radix_digit radix c with
      | Some v => radix_value radix (radix * acc + v) s'
      | None => None
      end
  end.

(** [0x...], [0o...], [0b...]: at least one digit, nothing after. *)
Definition nonDecimal (s : string) : option number :=
  match s with
  | String "0" (String p (String c r)) =>
      let radix := match p with
                   | "x" | "X" => 16 | "o" | "O" => 8 | "b" | "B" => 2
                   | _ => 0
                   end%char in
      of_Z <$> radix_value radix 0 (String c r)
  | _ => None
  end.

(** The float nearest to [± m * 10^e]. *)
Definition scale10 (neg : bool) (m e : Z) : number :=
  match m with
  | Z.pos p =>
      match e with
      | Z.neg k => of_ratio neg p (10 ^ k)%positive
      | _ => of_Z (cond_Zopp neg (m * 10 ^ e))
      end
  | _ => if neg then PrimFloat.neg_zero else PrimFloat.zero
  end.

(** The exponent part: [e] or [E], an optional sign, at least one digit. *)
Definition exponentPart (s : string) : option Z :=
  match s with
  | EmptyString => Some 0
  | String c s' =>
      if (Ascii.eqb c "e" || Ascii.eqb c "E")%char then
        let '(neg, t) := match s' with
                         | String "-" t => (true, t)
                         | String "+" t => (false, t)
                         | _ => (false, s')
                         end in
        match digits t with
        | (Nil, _) => None
        | (u, EmptyString) => Some (cond_Zopp neg (Z.of_uint u))
        | _ => None
        end
      else None
  end.

(** An unsigned decimal literal: [Infinity], [d+ . d* exp?], [. d+ exp?] or
    [d+ exp?]. *)
Definition unsignedDecimal (neg : bool) (s : string) : option number :=
  if String.eqb s "Infinity"
  then Some (if neg then PrimFloat.neg_infinity else PrimFloat.infinity)
  else
    let '(ip, r1) := digits s in
    let '(fp, r2) := match r1 with
                     | String "." t => digits t
                     | _ => (Nil, r1)
                     end in
    match ip, fp with
    | Nil, Nil => None
    | _, _ =>
        e ← exponentPart r2;
        Some (scale10 neg (Z.of_uint (Decimal.app ip fp))
                (e - Z.of_nat (nb_digits fp)))
    end.

Definition decimal (s : string) : option number :=
  match s with
  | String "-" t => unsignedDecimal true t
  | String "+" t => unsignedDecimal false t
  | _ => unsignedDecimal false s
  end.

Definition toNumber (s : string) : number :=
  let t := trim s in
  match t with
  | EmptyString => PrimFloat.zero
  | _ => match nonDecimal t with
         | Some x => x
         | None => default PrimFloat.nan (decimal t)
         end
  end.

(** Canonical decimal text of an integer, as [String(n)] prints it. *)
Definition decimal_string (n : Z) : string :=
  NilZero.string_of_int (Z.to_int n).

(** ** Facts *)

Example toNumber_samples :
  to_Z (toNumber "50") = Some 50 ∧ to_Z (toNumber "  6410 ") = Some 6410 ∧
  to_Z (toNumber "-12") = Some (-12) ∧ to_Z (toNumber "0x1F") = Some 31 ∧
  to_Z (toNumber "1.5e1") = Some 15 ∧ to_Z (toNumber "") = Some 0 ∧
  to_Z (toNumber "#ff0000") = None ∧ to_Z (toNumber "12px") = None ∧
  PrimFloat.is_nan (toNumber "#ff0000") = true ∧
  Prim2SF (toNumber "0.1") = Prim2SF 0x1.999999999999ap-4%float ∧
  Prim2SF (toNumber ".5") = Prim2SF 0.5%float ∧
  Prim2SF (toNumber "-Infinity") = S754_infinity true.
Proof. vm_compute. repeat split. Qed.

Example Math_round_samples :
  to_Z (Math_round 326.5%float) = Some 327 ∧
  to_Z (Math_round 2.5%float) = Some 3 ∧
  to_Z (Math_round (-2.5)%float) = Some (-2) ∧
  Prim2SF (Math_round (-0.25)%float) = S754_zero true ∧
  Prim2SF (Math_round 0x1.fffffffffffffp-2%float) = S754_zero false ∧
  PrimFloat.is_nan (Math_round PrimFloat.nan) = true.
Proof. vm_compute. repeat split. Qed.

(** ** Printing an integer and reading it back

    [decimal_string] prints an integer as JavaScript does; the lemmas below
    follow [toNumber] through such a text: nothing is trimmed, the text is
    no [0x], [0o] or [0b] literal, all of it is the integer part, and its
    value is the integer. *)

(** No white space in the string. *)
Fixpoint clean (s : string) : bool :=
  match s with
  | String c s' => negb (is_white c) && clean s'
  | EmptyString => true
  end.

Lemma rev_app_rev_app (s t : string) :
  String.rev_app (String.rev_app s t) "" = String.rev_app t s.
Proof. revert t. induction s as [|c s IH]; intros t; [done | apply (IH (String c t))]. Qed.

Lemma clean_rev_app (s t : string) :
  clean s = true → clean t = true → clean (String.rev_app s t) = true.
Proof.
  revert t. induction s as [|c s IH]; intros t; simpl; [done | ].
  intros [Hc Hs]%andb_true_iff Ht. apply IH; [done | ]. simpl. by rewrite Hc.
Qed.

Lemma trimStart_clean (s : string) : clean s = true → trimStart s = s.
Proof. destruct s as [|c s]; simpl; [done | ]. by destruct (is_white c). Qed.

Lemma trim_clean (s : string) : clean s = true → trim s = s.
Proof.
  intros Hs. unfold trim, String.rev.
  rewrite (trimStart_clean s Hs), trimStart_clean by (by apply clean_rev_app).
  apply rev_app_rev_app.
Qed.

Lemma clean_string_of_uint (u : uint) : clean (NilEmpty.string_of_uint u) = true.
Proof. induction u; simpl; done. Qed.

Lemma digits_string_of_uint (u : uint) :
  digits (NilEmpty.string_of_uint u) = (u, EmptyString).
Proof. induction u as [|u IH|u IH|u IH|u IH|u IH|u IH|u IH|u IH|u IH|u IH]; simpl; by rewrite ?IH. Qed.

(** No character is a digit in radix 0, the radix of a prefix that is not
    [0x], [0o] or [0b]. *)
Lemma radix_digit_0 (c : ascii) : radix_digit 0 c = None.
Proof.
  unfold radix_digit. set (n := Z.of_nat (nat_of_ascii c)).
  assert (0 ≤ n) by (unfold n; lia).
  repeat case_match; try done; lia.
Qed.

Lemma nonDecimal_string_of_uint (u : uint) :
  nonDecimal (NilEmpty.string_of_uint u) = None.
Proof.
  destruct u as [|u|u|u|u|u|u|u|u|u|u]; try done.
  destruct u as [|u|u|u|u|u|u|u|u|u|u]; try done;
    destruct u; try done; cbn; by rewrite radix_digit_0.
Qed.

Lemma unsignedDecimal_string_of_uint (neg : bool) (u : uint) :
  u ≠ Nil →
  unsignedDecimal neg (NilEmpty.string_of_uint u)
    = Some (scale10 neg (Z.of_uint u) 0).
Proof.
  intros Hu. unfold unsignedDecimal.
  assert (String.eqb (NilEmpty.string_of_uint u) "Infinity" = false) as ->
    by (by destruct u).
  rewrite digits_string_of_uint. simpl. rewrite DecimalFacts.app_nil_r.
  by destruct u.
Qed.

(** The text of an unsigned decimal numeral, leading zeros allowed, denotes
    its value. *)
Lemma toNumber_string_of_uint (u : uint) :
  u ≠ Nil → toNumber (NilEmpty.string_of_uint u) = scale10 false (Z.of_uint u) 0.
Proof.
  intros Hu. unfold toNumber.
  rewrite trim_clean, nonDecimal_string_of_uint by apply clean_string_of_uint.
  assert (decimal (NilEmpty.string_of_uint u)
          = unsignedDecimal false (NilEmpty.string_of_uint u)) as ->
    by (by destruct u).
  rewrite unsignedDecimal_string_of_uint by done. by destruct u.
Qed.

(** The same after a minus sign; the text ["-0"] denotes the negative zero. *)
Lemma toNumber_minus_string_of_uint (u : uint) :
  u ≠ Nil →
  toNumber (String "-" (NilEmpty.string_of_uint u))
    = scale10 true (Z.of_uint u) 0.
Proof.
  intros Hu. unfold toNumber.
  rewrite trim_clean by (simpl; apply clean_string_of_uint).
  cbn [nonDecimal decimal]. by rewrite unsignedDecimal_string_of_uint.
Qed.

Lemma scale10_0 (neg : bool) (p : positive) :
  scale10 neg (Z.pos p) 0 = of_Z (cond_Zopp neg (Z.pos p)).
Proof. unfold scale10. by rewrite Z.mul_1_r. Qed.

(** Reading the text of an integer gives the float nearest to it: the
    integer itself up to 2^53. *)
Lemma toNumber_decimal_string (n : Z) : toNumber (decimal_string n) = of_Z n.
Proof.
  unfold decimal_string. destruct n as [|p|p]; [done | | ];
    pose proof (DecimalPos.Unsigned.to_uint_nonnil p) as Hp;
    pose proof (DecimalPos.Unsigned.of_to p) as Hv;
    cbn [Z.to_int NilZero.string_of_int NilZero.string_of_uint].
  - replace (NilZero.string_of_uint (Pos.to_uint p))
      with (NilEmpty.string_of_uint (Pos.to_uint p)) by (by destruct (Pos.to_uint p)).
    rewrite toNumber_string_of_uint by done.
    unfold Z.of_uint. rewrite Hv. cbn [Z.of_N]. by rewrite scale10_0.
  - replace (NilZero.string_of_uint (Pos.to_uint p))
      with (NilEmpty.string_of_uint (Pos.to_uint p)) by (by destruct (Pos.to_uint p)).
    rewrite toNumber_minus_string_of_uint by done.
    unfold Z.of_uint. rewrite Hv. cbn [Z.of_N]. by rewrite scale10_0.
Qed.
