(* ===== verification/ColorCodec.v ===== *)
(** * ColorCodec: colour temperature conversions

    The two conversions the actions perform before [setTemperature]:

    - [percentToMired] (colorAction.js 99-103): the colour string is a
      percentage; [Math.round(color / 100.0 * (max - min) + min)].
    - [kelvinToMired] (cycleAction.js 107-116): the colour string is a
      Kelvin value; the percentage of the range 2000-6500 is inverted and
      mapped the same way.

    Both are written with the source's local variables and operations on
    floats.  [percentToMired_spec] and [kelvinToMired_spec] are the same
    formulas in exact integer arithmetic, rounding half up.  The agreement
    theorems are checked by evaluating the code on every integer of a range
    that contains the nominal one: -100..200 percent and 1000..10000 Kelvin.
    Both theorems, and the bounds, are about settings that hold the decimal
    text of an integer, which is what the property inspector stores.

    [ColorSpace] is the interface to [Bridge.hex2xy], which is not part of
    the sources: the development is parametric in it. *)

From Stdlib Require Import ZArith Lia String Floats.
From stdpp Require Import base tactics strings list.
From S2P Require Import Prelude JsString JsNumber.

#[local] Open Scope Z_scope.

(** The chromaticity type of the bridge and the conversion from a hex colour. *)
Class ColorSpace := {
  XY : Type;
  hex2xy : string → XY;
}.

(** A colour space that keeps the hex string as its chromaticity: the
    instance at which the theorems are evaluated on concrete inputs. *)
Definition hex_space : ColorSpace := {| XY := string; hex2xy := id |}.

Definition percentToMired (color : string) : number :=
  let min := 153.0%float in
  let max := 500.0%float in
  Math_round (toNumber color / 100.0 * (max - min) + min)%float.

Definition kelvinToMired (color : string) : number :=
  let min := 153.0%float in
  let max := 500.0%float in
  let minK := 2000.0%float in
  let maxK := 6500.0%float in
  let percentage := ((toNumber color - minK) / (maxK - minK))%float in
  let invertedPercentage := (-1 * (percentage - 1.0))%float in
  Math_round (invertedPercentage * (max - min) + min)%float.

(** ** Exact specifications *)

(** [floor (num / den + 1/2)] for a positive [den]. *)
Definition round_half_up (num den : Z) : Z := (2 * num + den) / (2 * den).

Definition percentToMired_spec (p : Z) : Z :=
  round_half_up (p * (500 - 153) + 153 * 100) 100.

Definition kelvinToMired_spec (k : Z) : Z :=
  round_half_up ((6500 - k) * (500 - 153) + 153 * (6500 - 2000)) (6500 - 2000).

(** The check that the code computes the specification at one integer. *)
Definition agrees (code : string → number) (spec : Z → Z) (n : Z) : bool :=
  match to_Z (code (decimal_string n)) with
  | Some m => m =? spec n
  | None => false
  end.

(** ** Arithmetic of the specifications *)

Lemma round_half_up_mono (a b d : Z) :
  0 < d → a ≤ b → round_half_up a d ≤ round_half_up b d.
Proof. intros. unfold round_half_up. apply Z.div_le_mono; lia. Qed.

Lemma round_half_up_exact (q d : Z) : 0 < d → round_half_up (q * d) d = q.
Proof.
  intros. unfold round_half_up.
  replace (2 * (q * d) + d) with (d + q * (2 * d)) by lia.
  rewrite Z.div_add by lia. rewrite Z.div_small; lia.
Qed.

Lemma percentToMired_spec_mono (p q : Z) :
  p ≤ q → percentToMired_spec p ≤ percentToMired_spec q.
Proof. intros. apply round_half_up_mono; lia. Qed.

Lemma kelvinToMired_spec_anti (j k : Z) :
  j ≤ k → kelvinToMired_spec k ≤ kelvinToMired_spec j.
Proof. intros. apply round_half_up_mono; lia. Qed.

Lemma percentToMired_spec_ends :
  percentToMired_spec 0 = 153 ∧ percentToMired_spec 100 = 500.
Proof. done. Qed.

Lemma kelvinToMired_spec_ends :
  kelvinToMired_spec 2000 = 500 ∧ kelvinToMired_spec 6500 = 153.
Proof. done. Qed.

Lemma percentToMired_spec_bounds (p : Z) :
  0 ≤ p ≤ 100 → 153 ≤ percentToMired_spec p ≤ 500.
Proof.
  intros [??]. destruct percentToMired_spec_ends as [<- <-].
  split; by apply percentToMired_spec_mono.
Qed.

Lemma kelvinToMired_spec_bounds (k : Z) :
  2000 ≤ k ≤ 6500 → 153 ≤ kelvinToMired_spec k ≤ 500.
Proof.
  intros [??]. destruct kelvinToMired_spec_ends as [<- <-].
  split; by apply kelvinToMired_spec_anti.
Qed.

Lemma agrees_true code spec n :
  agrees code spec n = true → to_Z (code (decimal_string n)) = Some (spec n).
Proof.
  unfold agrees. destruct (to_Z _); [|done]. by intros ->%Z.eqb_eq.
Qed.

(** Close a goal [to_Z (code (decimal_string n)) = Some (spec n)] from the
    check [L] of a range that contains [n]. *)
Ltac by_range_check L := apply agrees_true, (forallb_Zrange _ _ _ L); lia.

(** ** The code computes the specification *)

Lemma percentToMired_agrees :
  forallb (agrees percentToMired percentToMired_spec) (Zrange (-100) 200) = true.
Proof. vm_compute. reflexivity. Qed.

Lemma kelvinToMired_agrees :
  forallb (agrees kelvinToMired kelvinToMired_spec) (Zrange 1000 10000) = true.
Proof. vm_compute. reflexivity. Qed.

(** C8. On every integer percentage from -100 to 200, written in decimal,
    the floating-point code of colorAction.js returns exactly
    [round (p / 100 * 347 + 153)] with halves rounded up. *)
Theorem percentToMired_exact (p : Z) :
  -100 ≤ p ≤ 200 →
  to_Z (percentToMired (decimal_string p)) = Some (percentToMired_spec p).
Proof.
  intros. by_range_check percentToMired_agrees.
Qed.

Lemma percentToMired_exact_witness :
  to_Z (percentToMired "50") = Some 327.
Proof. apply (percentToMired_exact 50). lia. Defined.

(** C9. On every integer Kelvin value from 1000 to 10000, written in
    decimal, the floating-point code of cycleAction.js returns exactly
    [round ((6500 - k) / 4500 * 347 + 153)] with halves rounded up. *)
Theorem kelvinToMired_exact (k : Z) :
  1000 ≤ k ≤ 10000 →
  to_Z (kelvinToMired (decimal_string k)) = Some (kelvinToMired_spec k).
Proof.
  intros. by_range_check kelvinToMired_agrees.
Qed.

Lemma kelvinToMired_exact_witness :
  to_Z (kelvinToMired "2000") = Some 500.
Proof. apply (kelvinToMired_exact 2000). lia. Defined.

(** C31. On the decimal text of an integer percentage of the nominal range
    0..100, the temperature sent to the bridge is an integer of the mired
    range 153..500. *)
Theorem percentToMired_bounds (p : Z) :
  0 ≤ p ≤ 100 →
  ∃ m, to_Z (percentToMired (decimal_string p)) = Some m ∧ 153 ≤ m ≤ 500.
Proof.
  intros. exists (percentToMired_spec p).
  split; [by_range_check percentToMired_agrees | by apply percentToMired_spec_bounds].
Qed.

Lemma percentToMired_bounds_witness :
  ∃ m, to_Z (percentToMired "100") = Some m ∧ 153 ≤ m ≤ 500.
Proof. apply (percentToMired_bounds 100). lia. Defined.

(** C32. On the decimal text of an integer Kelvin value of the nominal range
    2000..6500, the temperature sent to the bridge is an integer of the
    mired range 153..500. *)
Theorem kelvinToMired_bounds (k : Z) :
  2000 ≤ k ≤ 6500 →
  ∃ m, to_Z (kelvinToMired (decimal_string k)) = Some m ∧ 153 ≤ m ≤ 500.
Proof.
  intros. exists (kelvinToMired_spec k).
  split; [by_range_check kelvinToMired_agrees | by apply kelvinToMired_spec_bounds].
Qed.

Lemma kelvinToMired_bounds_witness :
  ∃ m, to_Z (kelvinToMired "6500") = Some m ∧ 153 ≤ m ≤ 500.
Proof. apply (kelvinToMired_bounds 6500). lia. Defined.

(** C40. On the decimal texts of integers of 1000..10000 Kelvin the
    conversion of the cycle action is antitone: both results are integers,
    and the higher Kelvin value never gives the higher mired value. *)
Theorem kelvinToMired_antitone (j k : Z) :
  1000 ≤ j ≤ k → k ≤ 10000 →
  ∃ mj mk, to_Z (kelvinToMired (decimal_string j)) = Some mj
         ∧ to_Z (kelvinToMired (decimal_string k)) = Some mk
         ∧ mk ≤ mj.
Proof.
  intros. exists (kelvinToMired_spec j), (kelvinToMired_spec k).
  split_and!; [by_range_check kelvinToMired_agrees.. | ].
  apply kelvinToMired_spec_anti. lia.
Qed.

Lemma kelvinToMired_antitone_witness :
  ∃ mj mk, to_Z (kelvinToMired "2230") = Some mj
         ∧ to_Z (kelvinToMired "6410") = Some mk
         ∧ mk ≤ mj.
Proof. apply (kelvinToMired_antitone 2230 6410); lia. Defined.

(** On the decimal texts of integers of -100..200 percent the
    conversion of the colour action is monotone: both results are integers,
    and the higher percentage never gives the lower mired value. *)
Theorem percentToMired_monotone (p q : Z) :
  -100 ≤ p ≤ q → q ≤ 200 →
  ∃ mp mq, to_Z (percentToMired (decimal_string p)) = Some mp
         ∧ to_Z (percentToMired (decimal_string q)) = Some mq
         ∧ mp ≤ mq.
Proof.
  intros. exists (percentToMired_spec p), (percentToMired_spec q).
  split_and!; [by_range_check percentToMired_agrees.. | ].
  apply percentToMired_spec_mono. lia.
Qed.

Lemma percentToMired_monotone_witness :
  ∃ mp mq, to_Z (percentToMired "0") = Some mp
         ∧ to_Z (percentToMired "50") = Some mq
         ∧ mp ≤ mq.
Proof. apply (percentToMired_monotone 0 50); lia. Defined.

(** The default temperature of the colour action (50 percent) and the middle
    default of the cycle action (4250 Kelvin) are the same mired value. *)
Example defaults_agree :
  to_Z (percentToMired "50") = to_Z (kelvinToMired "4250").
Proof. vm_compute. reflexivity. Qed.

(** A colour string that is neither hex nor a number is sent to the bridge as
    [NaN]. *)
Example not_a_number :
  PrimFloat.is_nan (percentToMired "warm") = true ∧
  PrimFloat.is_nan (kelvinToMired "warm") = true.
Proof. vm_compute. done. Qed.
