(* ===== verification/Cache.v ===== *)
(** * Cache: the bridge cache as the actions read and write it

    [cache.data] maps a bridge id to a bridge object; its [lights] and
    [groups] map an id to a light object with fields [id], [xy] and [ct].
    The actions read [cache.data] on every call and keep, in the completion
    callback, a reference to the one light object they resolved; on success
    the callback assigns [objCache.xy] or [objCache.ct].

    Light objects therefore live in a store ([heap]) indexed by locations,
    and [lights] and [groups] hold locations: a write through a reference
    kept by a callback reaches the object whether or not the cache still
    lists it.  In JavaScript a reference is never dangling; [cache_wf] states
    this of the model, is preserved by every write, and makes the reads
    below succeed.

    [resolve] is the choice between [lights] and [groups] by a substring of
    the id, which [onKeyUp] makes with ["l"] and [setDefaults] with ["l-"].
    [cache_named] is the naming convention of the plugin (light ids contain
    ["l-"], group ids contain no ["l"]) under which both choices are right. *)

From Stdlib Require Import ZArith String Floats.
From stdpp Require Import base tactics strings gmap.
From S2P Require Import Prelude JsString JsNumber ColorCodec.

Definition loc := positive.

Section cache.
Context `{ColorSpace}.

(** A light or a group of the cache: [xy] is [null] for a device without
    colour, [ct] for one whose temperature is not known. *)
Record lightCache := LightCache {
  obj_id : string;
  obj_xy : option XY;
  obj_ct : option number;
}.

Record bridgeCache := BridgeCache {
  bridge_ip : string;
  bridge_id : string;
  bridge_username : string;
  lights : gmap string loc;
  groups : gmap string loc;
}.

Record cache := Cache {
  heap : gmap loc lightCache;
  data : gmap string bridgeCache;
}.

(** [inSettings.light in bridgeCache.lights || inSettings.light in
    bridgeCache.groups] *)
Definition known (b : bridgeCache) (l : string) : bool :=
  has_key l (lights b) || has_key l (groups b).

(** [if (light.indexOf(marker) !== -1) bridgeCache.lights[light] else
    bridgeCache.groups[light]]; [None] is [undefined]. *)
Definition resolve (marker : string) (b : bridgeCache) (l : string) : option loc :=
  if includes l marker then lights b !! l else groups b !! l.

(** [objCache.xy = xy] *)
Definition set_xy (o : loc) (xy : XY) (c : cache) : cache :=
  Cache (alter (λ x, LightCache (obj_id x) (Some xy) (obj_ct x)) o (heap c))
        (data c).

(** [objCache.ct = temperature] *)
Definition set_ct (o : loc) (t : number) (c : cache) : cache :=
  Cache (alter (λ x, LightCache (obj_id x) (obj_xy x) (Some t)) o (heap c))
        (data c).

(** ** Invariants *)

(** Every reference held by the cache points to an object. *)
Definition bridge_wf (h : gmap loc lightCache) (b : bridgeCache) : Prop :=
  map_Forall (λ _ o, is_Some (h !! o)) (lights b) ∧
  map_Forall (λ _ o, is_Some (h !! o)) (groups b).

Definition cache_wf (c : cache) : Prop :=
  map_Forall (λ _ b, bridge_wf (heap c) b) (data c).

(** The ids of lights contain ["l-"]; the ids of groups contain no ["l"]. *)
Definition bridge_named (b : bridgeCache) : Prop :=
  map_Forall (λ l _, includes l "l-" = true) (lights b) ∧
  map_Forall (λ l _, includes l "l" = false) (groups b).

Definition cache_named (c : cache) : Prop :=
  map_Forall (λ _ b, bridge_named b) (data c).

#[global] Instance bridge_wf_dec h b : Decision (bridge_wf h b).
Proof. unfold bridge_wf. apply _. Defined.

#[global] Instance cache_wf_dec c : Decision (cache_wf c).
Proof. unfold cache_wf. apply _. Defined.

#[global] Instance bridge_named_dec b : Decision (bridge_named b).
Proof. unfold bridge_named. apply _. Defined.

#[global] Instance cache_named_dec c : Decision (cache_named c).
Proof. unfold cache_named. apply _. Defined.

(** ** Writes *)

Lemma data_set_xy o xy c : data (set_xy o xy c) = data c.
Proof. done. Qed.

Lemma data_set_ct o t c : data (set_ct o t c) = data c.
Proof. done. Qed.

Lemma heap_set_xy o xy c o' :
  heap (set_xy o xy c) !! o' =
    if decide (o = o')
    then (λ x, LightCache (obj_id x) (Some xy) (obj_ct x)) <$> heap c !! o'
    else heap c !! o'.
Proof.
  unfold set_xy; simpl. rewrite lookup_alter. by case_decide; subst.
Qed.

Lemma heap_set_ct o t c o' :
  heap (set_ct o t c) !! o' =
    if decide (o = o')
    then (λ x, LightCache (obj_id x) (obj_xy x) (Some t)) <$> heap c !! o'
    else heap c !! o'.
Proof.
  unfold set_ct; simpl. rewrite lookup_alter. by case_decide; subst.
Qed.

Lemma heap_set_xy_is_Some o xy c o' :
  is_Some (heap (set_xy o xy c) !! o') ↔ is_Some (heap c !! o').
Proof. rewrite heap_set_xy. case_decide; by rewrite ?fmap_is_Some. Qed.

Lemma heap_set_ct_is_Some o t c o' :
  is_Some (heap (set_ct o t c) !! o') ↔ is_Some (heap c !! o').
Proof. rewrite heap_set_ct. case_decide; by rewrite ?fmap_is_Some. Qed.

Lemma set_xy_wf o xy c : cache_wf c → cache_wf (set_xy o xy c).
Proof.
  intros Hwf bid b Hb. destruct (Hwf bid b Hb) as [Hl Hg].
  split; intros l o' Ho'; rewrite heap_set_xy_is_Some; [by eapply Hl | by eapply Hg].
Qed.

Lemma set_ct_wf o t c : cache_wf c → cache_wf (set_ct o t c).
Proof.
  intros Hwf bid b Hb. destruct (Hwf bid b Hb) as [Hl Hg].
  split; intros l o' Ho'; rewrite heap_set_ct_is_Some; [by eapply Hl | by eapply Hg].
Qed.

Lemma set_xy_named o xy c : cache_named c → cache_named (set_xy o xy c).
Proof. done. Qed.

Lemma set_ct_named o t c : cache_named c → cache_named (set_ct o t c).
Proof. done. Qed.

(** ** Resolution *)

Lemma known_true b l :
  known b l = true ↔ is_Some (lights b !! l) ∨ is_Some (groups b !! l).
Proof. unfold known. by rewrite orb_true_iff, !has_key_true. Qed.

(** Under the naming convention a known id resolves to its object, with
    either marker. *)
Lemma resolve_named marker b l :
  marker = "l" ∨ marker = "l-" →
  bridge_named b → known b l = true →
  resolve marker b l = (lights b ∪ groups b) !! l ∧ is_Some (resolve marker b l).
Proof.
  intros Hm [Hl Hg] [[o Ho]|[o Ho]]%known_true; unfold resolve.
  - assert (includes l marker = true) as ->.
    { destruct Hm as [-> | ->]; [apply (includes_app_l _ "l" "-") | ]; by eapply Hl. }
    rewrite (lookup_union_Some_l _ _ _ _ Ho), Ho. eauto.
  - pose proof (Hg _ _ Ho) as Hno. simpl in Hno.
    assert (includes l "l-" = false) as Hno'.
    { destruct (includes l "l-") eqn:E; [|done].
      apply (includes_app_l _ "l" "-") in E. congruence. }
    assert (includes l marker = false) as -> by (by destruct Hm as [-> | ->]).
    destruct (lights b !! l) as [o'|] eqn:Ho'.
    { pose proof (Hl _ _ Ho') as E. simpl in E. congruence. }
    rewrite lookup_union_r, Ho by done. eauto.
Qed.

(** A reference that leads to an object is a reference, and the object is
    in the store. *)
Lemma deref_Some (r : option loc) (h : gmap loc lightCache) o x :
  r ≫= (λ o, (o,.) <$> h !! o) = Some (o, x) ↔ r = Some o ∧ h !! o = Some x.
Proof.
  destruct r as [o'|]; simpl; [|by split; [|intros [? _]]].
  destruct (h !! o') as [x'|] eqn:E; simpl.
  - split; [by intros [= -> ->] | intros [[= ->] ?]; congruence].
  - split; [done | intros [[= ->] ?]; congruence].
Qed.

(** In a well-formed cache whose ids follow the naming convention, a known
    id resolves to an object of the store. *)
Lemma resolve_deref marker c bid b l :
  marker = "l" ∨ marker = "l-" →
  cache_wf c → cache_named c → data c !! bid = Some b → known b l = true →
  ∃ o x, resolve marker b l ≫= (λ o, (o,.) <$> heap c !! o) = Some (o, x)
       ∧ (lights b ∪ groups b) !! l = Some o.
Proof.
  intros Hm Hwf Hnamed Hb Hk.
  destruct (resolve_named marker b l Hm (Hnamed _ _ Hb) Hk) as [Hr [o Ho]].
  rewrite Ho in Hr. symmetry in Hr.
  destruct (Hwf bid b Hb) as [Hl Hg].
  assert (is_Some (heap c !! o)) as [x Hx].
  { apply lookup_union_Some_raw in Hr as [?|[_ ?]]; [by eapply Hl | by eapply Hg]. }
  exists o, x. by rewrite Ho; simpl; rewrite Hx.
Qed.

(** There the two markers resolve the id to the same object. *)
Lemma resolve_deref_agree c bid b l :
  cache_wf c → cache_named c → data c !! bid = Some b → known b l = true →
  ∃ o x, (lights b ∪ groups b) !! l = Some o ∧ heap c !! o = Some x
       ∧ resolve "l" b l ≫= (λ o, (o,.) <$> heap c !! o) = Some (o, x)
       ∧ resolve "l-" b l ≫= (λ o, (o,.) <$> heap c !! o) = Some (o, x).
Proof.
  intros Hwf Hnamed Hb Hk.
  destruct (resolve_deref "l-" _ _ _ _ (or_intror eq_refl) Hwf Hnamed Hb Hk)
    as (o & x & Hd & Ho).
  destruct (resolve_deref "l" _ _ _ _ (or_introl eq_refl) Hwf Hnamed Hb Hk)
    as (o' & x' & Hd' & Ho').
  assert (o' = o) as -> by congruence.
  pose proof (proj1 (deref_Some _ _ _ _) Hd) as [_ Hx].
  pose proof (proj1 (deref_Some _ _ _ _) Hd') as [_ Hx']. simplify_eq.
  by exists o, x.
Qed.

End cache.

#[export] Hint Resolve set_xy_wf set_ct_wf set_xy_named set_ct_named : hue.
#[export] Hint Rewrite @data_set_xy @data_set_ct : hue.
