(* ===== verification/Host.v ===== *)
(** * Host: what the two actions call and what they hand out

    None of this is code of [src/]; it is the part of the plugin's other
    files that colorAction.js and cycleAction.js rely on, as far as they
    rely on it:

    - [settings]: the settings object of a key, with the four keys the
      actions read or write.  A key that is absent is [None].
    - [arg]: an argument that may be left out ([undefined]) or be [null].
    - [instance]: the private [context] and [settings] of [Action], read with
      [getContext] and [getSettings]; [getSettings] returns the object
      itself, so an assignment to one of its keys is a change of the
      instance.
    - [remote]: [new Light(bridge, id)] and [new Group(bridge, id)], the
      objects whose [setXY] and [setTemperature] are called.
    - [closure]: the completion callback given to the transport, as the
      variables it captured.
    - [effect]: the calls a handler makes to the outside, in order.
    - [state V]: the cache, the action instance and the closure variables
      [V] of the action. *)

From Stdlib Require Import ZArith String Floats.
From stdpp Require Import base tactics strings gmap list.
From S2P Require Import Prelude JsString JsNumber ColorCodec Cache.

Record settings := Settings {
  bridge : option string;
  light : option string;
  color : option string;
  colors : option (list string);
}.

Inductive arg (A : Type) : Type :=
| undefined
| null
| given (a : A).

Arguments undefined {A}.
Arguments null {A}.
Arguments given {A} a.

Inductive exn := TypeError (msg : string).

Section host.
Context `{ColorSpace}.

Record instance := Instance {
  context : string;
  current : settings;
}.

Record Bridge := NewBridge {
  ip : string;
  id : string;
  username : string;
}.

Inductive remote :=
| Light (b : Bridge) (id : string)
| Group (b : Bridge) (id : string).

Inductive closure :=
| OnXY (objCache : loc) (xy : XY) (inContext : string)
| OnTemperature (objCache : loc) (temperature : number) (inContext : string).

Inductive effect :=
| Log (msg : string)
| ShowAlert (inContext : string)
| SaveSettings (action : string) (inContext : string) (s : settings)
| SetXY (obj : remote) (xy : XY) (k : closure)
| SetTemperature (obj : remote) (temperature : number) (k : closure)
| Called (inCallback : nat).

Record state (V : Type) := State {
  the_cache : cache;
  self : instance;
  vars : V;
}.

Arguments State {V} _ _ _.
Arguments the_cache {V} _.
Arguments self {V} _.
Arguments vars {V} _.

Section ops.
Context {V : Type}.
#[local] Abbreviation M := (act (state V) effect exn).

Definition getSettings : M settings := s ← get; mret (current (self s)).
Definition getContext : M string := s ← get; mret (context (self s)).
Definition getCache : M cache := s ← get; mret (the_cache s).
Definition getVars : M V := s ← get; mret (vars s).

Definition setVars (v : V) : M unit :=
  modify (λ s, State (the_cache s) (self s) v).

Definition writeCache (f : cache → cache) : M unit :=
  modify (λ s, State (f (the_cache s)) (self s) (vars s)).

(** An assignment to keys of the object [getSettings] returned. *)
Definition assignSettings (f : settings → settings) : M unit :=
  modify (λ s, State (the_cache s)
                 (Instance (context (self s)) (f (current (self s)))) (vars s)).

Definition log (msg : string) : M unit := emit (Log msg).
Definition showAlert (inContext : string) : M unit := emit (ShowAlert inContext).
Definition saveSettings (action inContext : string) (s : settings) : M unit :=
  emit (SaveSettings action inContext s).

(** The object behind a reference that may be [undefined], for reading
    [property] of it: reading a property of [undefined] throws. *)
Definition deref (r : option loc) (property : string) : M (loc * lightCache) :=
  c ← getCache;
  match r ≫= (λ o, (o,.) <$> heap c !! o) with
  | Some ox => mret ox
  | None => throw (TypeError ("Cannot read properties of undefined (reading '"
                                +:+ property +:+ "')"))
  end.

(** [log(msg); showAlert(inContext); return;] *)
Definition fail (msg inContext : string) : M unit :=
  log msg;; showAlert inContext.

End ops.

(** [x.xy != null] *)
Definition has_xy (x : lightCache) : bool :=
  match obj_xy x with Some _ => true | None => false end.

(** What the base [Action] does around the two actions: its constructor and
    its [newCacheAvailable], which is given a callback.  The law is the
    contract the actions rely on: the callback is called once, last. *)
Class ActionBase (V : Type) := {
  Action : string → settings → act (state V) effect exn unit;
  actionNewCacheAvailable :
    act (state V) effect exn unit → act (state V) effect exn unit;
  actionNewCacheAvailable_calls :
    ∃ pre, ∀ k, actionNewCacheAvailable k ≡ pre ≫= λ _ : unit, k;
}.

(** The least base: the constructor stores its arguments, the hook calls the
    callback. *)
Definition plain_Action {V} (inContext : string) (inSettings : settings) :
    act (state V) effect exn unit :=
  modify (λ s, State (the_cache s) (Instance inContext inSettings) (vars s)).

#[refine] Instance plain_base {V} : ActionBase V := {|
  Action := plain_Action;
  actionNewCacheAvailable k := k;
|}.
Proof. exists (mret tt). intros k s. symmetry. apply (act_bind_ret_l tt (λ _, k)). Defined.

(** ** Running the operations *)

Section run.
Context {V : Type}.
Implicit Types s : state V.

Lemma state_eta s : State (the_cache s) (self s) (vars s) = s.
Proof. by destruct s. Qed.

Lemma run_getSettings s : getSettings s = Returned (current (self s)) s [].
Proof. done. Qed.

Lemma run_getContext s : getContext s = Returned (context (self s)) s [].
Proof. done. Qed.

Lemma run_getCache s : getCache s = Returned (the_cache s) s [].
Proof. done. Qed.

Lemma run_getVars s : getVars s = Returned (vars s) s [].
Proof. done. Qed.

Lemma run_setVars v s : setVars v s = Returned tt (State (the_cache s) (self s) v) [].
Proof. done. Qed.

Lemma run_writeCache f s :
  writeCache f s = Returned tt (State (f (the_cache s)) (self s) (vars s)) [].
Proof. done. Qed.

Lemma run_assignSettings f s :
  assignSettings f s
    = Returned tt (State (the_cache s)
                     (Instance (context (self s)) (f (current (self s)))) (vars s)) [].
Proof. done. Qed.

Lemma run_log msg s : log msg s = Returned tt s [Log msg].
Proof. done. Qed.

Lemma run_showAlert inContext s : showAlert inContext s = Returned tt s [ShowAlert inContext].
Proof. done. Qed.

Lemma run_saveSettings action inContext st s :
  saveSettings action inContext st s
    = Returned tt s [SaveSettings action inContext st].
Proof. done. Qed.

Lemma run_fail msg inContext s :
  fail msg inContext s = Returned tt s [Log msg; ShowAlert inContext].
Proof. done. Qed.

Lemma run_deref r property s :
  deref r property s =
    match r ≫= (λ o, (o,.) <$> heap (the_cache s) !! o) with
    | Some ox => Returned ox s []
    | None => Threw (TypeError ("Cannot read properties of undefined (reading '"
                                  +:+ property +:+ "')")) s []
    end.
Proof. unfold deref. rewrite run_bind, run_getCache. simpl. by case_match. Qed.

End run.

(** ** The checks of [onKeyUp], as a function

    The five checks both actions make, in the order they make them, as a
    function of the cache and the settings: the reason of the first check
    that fails, or the bridge, the id and the configured value.  [field]
    is [color] for the colour action and [colors] for the cycle action. *)

Inductive invalid :=
| NoBridge
| UnknownBridge (bridge_id : string)
| NoLight
| UnknownLight (light : string)
| NoColor.

Definition validate {A} (field : settings → option A) (c : cache) (s : settings) :
    invalid + bridgeCache * string * A :=
  match bridge s with
  | None => inl NoBridge
  | Some bridge_id =>
  match data c !! bridge_id with
  | None => inl (UnknownBridge bridge_id)
  | Some bridgeCache =>
  match light s with
  | None => inl NoLight
  | Some light =>
  if known bridgeCache light
  then match field s with
       | None => inl NoColor
       | Some v => inr (bridgeCache, light, v)
       end
  else inl (UnknownLight light)
  end end end.

(** What is logged for a failed check; [what] is ["color"] or ["colors"]. *)
Definition message (what : string) (e : invalid) : string :=
  match e with
  | NoBridge => "No bridge configured"
  | UnknownBridge b => "Bridge " +:+ b +:+ " not found in cache"
  | NoLight => "No light or group configured"
  | UnknownLight l => "Light or group " +:+ l +:+ " not found in cache"
  | NoColor => "No " +:+ what +:+ " configured"
  end.

(** The settings a handler works on: its argument, or the instance's when
    the argument is [undefined] or [null] (the test [inSettings == undefined]
    of colorAction.js; cycleAction.js, which tests with [===], has thrown on
    [null] before it comes here). *)
Definition effective {V} (inSettings : arg settings) (s : state V) : settings :=
  match inSettings with
  | given x => x
  | undefined | null => current (self s)
  end.

(** [new Light(bridge, x.id)] or [new Group(bridge, x.id)] for the object
    [x] that [light] resolved to in [b]. *)
Definition target (b : bridgeCache) (light : string) (x : lightCache) : remote :=
  (if includes light "l" then Light else Group)
    (NewBridge (bridge_ip b) (bridge_id b) (bridge_username b)) (obj_id x).

Lemma validate_inr {A} (field : settings → option A) (c : cache) st b l v :
  validate field c st = inr (b, l, v) →
  ∃ bid, bridge st = Some bid ∧ data c !! bid = Some b ∧ light st = Some l
       ∧ known b l = true ∧ field st = Some v.
Proof.
  unfold validate. intros Hv. repeat case_match; simplify_eq. eauto 10.
Qed.

Lemma validate_known {A} (field : settings → option A) (c : cache) st bid b l v :
  bridge st = Some bid → data c !! bid = Some b → light st = Some l →
  known b l = true → field st = Some v →
  validate field c st = inr (b, l, v).
Proof. unfold validate. by intros -> -> -> -> ->. Qed.

(** The checks on the bridge and the light do not look at the colours:
    settings that differ only there pass them alike. *)
Lemma validate_with {A B} (f : settings → option A) (g : settings → option B)
    (c : cache) st st' b l v w :
  validate f c st = inr (b, l, v) →
  bridge st' = bridge st → light st' = light st → g st' = Some w →
  validate g c st' = inr (b, l, w).
Proof.
  unfold validate. intros Hv -> -> ->. by repeat case_match; simplify_eq.
Qed.

(** ** Classifying what a handler emitted *)

Definition is_request (e : effect) : bool :=
  match e with SetXY _ _ _ | SetTemperature _ _ _ => true | _ => false end.

Definition is_alert (e : effect) : bool :=
  match e with ShowAlert _ => true | _ => false end.

Definition is_save (e : effect) : bool :=
  match e with SaveSettings _ _ _ => true | _ => false end.

(** The requests to the bridge among the effects. *)
Definition requests (out : list effect) : list effect := filter is_request out.

(** The saved settings among the effects. *)
Definition saves (out : list effect) : list effect := filter is_save out.

(** The alerts among the effects. *)
Definition alerts (out : list effect) : list effect := filter is_alert out.

(** The completion callback of a request. *)
Definition closure_of (e : effect) : option closure :=
  match e with
  | SetXY _ _ k | SetTemperature _ _ k => Some k
  | _ => None
  end.

(** The context a closure captured. *)
Definition closure_context (k : closure) : string :=
  match k with OnXY _ _ ctx | OnTemperature _ _ ctx => ctx end.

(** The object a closure captured. *)
Definition closure_object (k : closure) : loc :=
  match k with OnXY o _ _ | OnTemperature o _ _ => o end.

End host.

Arguments State {_ V} _ _ _.
Arguments the_cache {_ V} _.
Arguments self {_ V} _.
Arguments vars {_ V} _.


#[export] Hint Rewrite @run_getSettings @run_getContext @run_getCache
  @run_getVars @run_setVars @run_writeCache @run_assignSettings @run_log
  @run_showAlert @run_saveSettings @run_fail @run_deref : run.

(** Follow the four checks on the bridge and the light that every handler
    makes on the settings [st], in their order: one goal per failed check and
    one for a known light. *)
Ltac check_target st :=
  destruct (bridge st) as [?bid|] eqn:?Hbridge; run;
  [ destruct (data _ !! _) as [?b|] eqn:?Hdata; run;
    [ destruct (light st) as [?l|] eqn:?Hlight; run;
      [ destruct (known _ _) eqn:?Hknown; cbn [negb]; run | ] | ] | ];
  try done.

(** ** A concrete installation

    One bridge with a colour light ["l-1"], a light without colour ["l-2"]
    and a colour group ["g-7"], in the colour space that keeps hex strings:
    the inputs at which the theorems of the actions are evaluated. *)

Module Demo.

#[local] Existing Instance hex_space.

Definition lamp : lightCache := LightCache "1" (Some "#000000") None.
Definition bulb : lightCache := LightCache "2" None (Some 300%float).
Definition room : lightCache := LightCache "7" (Some "#ffffff") None.

Definition hub : bridgeCache :=
  BridgeCache "10.0.0.2" "001788fffe" "stream-deck"
    {[ "l-1" := 1%positive; "l-2" := 2%positive ]} {[ "g-7" := 3%positive ]}.

Definition installation : cache :=
  Cache {[ 1%positive := lamp; 2%positive := bulb; 3%positive := room ]}
        {[ "hub" := hub ]}.

(** The state of a key with settings [st] and closure variables [v]. *)
Definition key {V} (st : settings) (v : V) : state V :=
  State installation (Instance "key" st) v.

Lemma installation_wf : cache_wf installation.
Proof. apply (bool_decide_unpack _). vm_compute. exact I. Qed.

Lemma installation_named : cache_named installation.
Proof. apply (bool_decide_unpack _). vm_compute. exact I. Qed.

End Demo.
