(* ===== verification/Key.v ===== *)
(** * Key: what the event loop asks of an action

    colorAction.js and cycleAction.js give the host the same three entry
    points: the constructor, [onKeyUp] and [newCacheAvailable]; and they give
    the transport callbacks, which it calls with the outcome of a request.
    [KeyAction] is that interface.  [Lawful] states what the event loop
    relies on, for any action behind the interface:

    - the constructor and [newCacheAvailable] leave the cache as it is and
      hand out no callback;
    - [onKeyUp] changes neither the cache nor the instance, and every
      callback it hands out holds an object of the store and the context of
      the key press;
    - a callback changes neither the instance, nor the tables of the cache,
      nor the set of objects in the store, and hands out no callback; called
      with success it writes its value to its object ([written]), called
      with failure it changes nothing;
    - a request of [onKeyUp] asks for the value its callback holds
      ([coherent]);
    - all of them keep the invariant [good] of the closure variables.

    The two actions discharge the laws in their own files, for every base
    action that is [Modest]; the theorems of [EventLoop] are proved from
    the laws alone. *)

From Stdlib Require Import ZArith Lia String.
From stdpp Require Import base tactics strings gmap list.
From S2P Require Import Prelude JsString JsNumber ColorCodec Cache Host.

Section key.
Context `{ColorSpace}.

Class KeyAction (V : Type) := {
  create : string → settings → act (state V) effect exn unit;
  keyUp : string → arg settings → act (state V) effect exn unit;
  refreshed : nat → act (state V) effect exn unit;
  answer : closure → bool → string → act (state V) effect exn unit;
  good : V → Prop;
}.

(** The callbacks handed out with the effects [out], oldest first. *)
Definition closures (out : list effect) : list closure := omap closure_of out.

(** The callback [k] holds an object of the store of [c] and the context
    [ctx]. *)
Definition held (c : cache) (ctx : string) (k : closure) : Prop :=
  is_Some (heap c !! closure_object k) ∧ closure_context k = ctx.

(** The cache after the callback [k] has written its value to its object. *)
Definition written (k : closure) (c : cache) : cache :=
  match k with
  | OnXY o xy _ => set_xy o xy c
  | OnTemperature o t _ => set_ct o t c
  end.

(** A request asks for the value that its callback writes. *)
Definition coherent (e : effect) : Prop :=
  match e with
  | SetXY _ xy (OnXY _ xy' _) => xy = xy'
  | SetTemperature _ t (OnTemperature _ t' _) => t = t'
  | SetXY _ _ _ | SetTemperature _ _ _ => False
  | _ => True
  end.

Class Lawful {V} (a : KeyAction V) : Prop := {
  create_sound ctx st s :
    let o := create ctx st s in
    the_cache (final o) = the_cache s ∧ context (self (final o)) = ctx
    ∧ good (vars (final o)) ∧ closures (emitted o) = [];
  keyUp_sound ctx i s :
    let o := keyUp ctx i s in
    the_cache (final o) = the_cache s ∧ self (final o) = self s
    ∧ (good (vars s) → good (vars (final o)))
    ∧ Forall (held (the_cache s) ctx) (closures (emitted o));
  answer_sound k ok err s :
    let o := answer k ok err s in
    self (final o) = self s ∧ data (the_cache (final o)) = data (the_cache s)
    ∧ dom (heap (the_cache (final o))) = dom (heap (the_cache s))
    ∧ (good (vars s) → good (vars (final o)))
    ∧ closures (emitted o) = [];
  refreshed_sound cb s :
    let o := refreshed cb s in
    the_cache (final o) = the_cache s
    ∧ context (self (final o)) = context (self s)
    ∧ (good (vars s) → good (vars (final o)))
    ∧ closures (emitted o) = [];
  keyUp_coherent ctx i s : Forall coherent (emitted (keyUp ctx i s));
  answer_writes k err s :
    the_cache (final (answer k true err s)) = written k (the_cache s);
  answer_fails k err s : final (answer k false err s) = s;
}.

(** ** What the loop asks of the base action

    [Action] is outside the sources.  The actions are lawful for every base
    that is [Modest]: its constructor files the key under the context it is
    given, its [newCacheAvailable] with a quiet callback is quiet, and
    neither touches the cache or the closure variables of the action, nor
    asks anything of the bridge. *)

(** The handler leaves the cache and the closure variables as they are,
    hands out no callback, and leaves the key with the context [f ctx]. *)
Definition settles {V} (f : string → string)
    (m : act (state V) effect exn unit) : Prop :=
  ∀ s, let o := m s in
    the_cache (final o) = the_cache s
    ∧ context (self (final o)) = f (context (self s))
    ∧ vars (final o) = vars s ∧ closures (emitted o) = [].

Definition quiet {V} (m : act (state V) effect exn unit) : Prop :=
  settles (λ ctx, ctx) m.

Class Modest {V} (base : ActionBase V) : Prop := {
  Action_settles inContext inSettings :
    settles (λ _, inContext) (Action inContext inSettings);
  hook_quiet k : quiet k → quiet (actionNewCacheAvailable k);
}.

(** ** Facts shared by the actions and the event loop *)

Lemma closures_app out1 out2 :
  closures (out1 ++ out2) = closures out1 ++ closures out2.
Proof. apply omap_app. Qed.

(** Every request carries one callback, and nothing else carries one. *)
Lemma closures_requests out : length (closures out) = length (requests out).
Proof.
  unfold closures, requests.
  induction out as [|[] out IH]; [done | rewrite filter_cons; simpl..];
    first [exact IH | exact (f_equal S IH)].
Qed.

Lemma held_dom c c' ctx k :
  dom (heap c) ⊆ dom (heap c') → held c ctx k → held c' ctx k.
Proof.
  intros Hdom [Ho Hctx]. split; [|done].
  apply elem_of_dom, Hdom, elem_of_dom, Ho.
Qed.

(** A cache stays well formed when its tables stay and no object leaves
    the store. *)
Lemma cache_wf_dom c c' :
  data c' = data c → dom (heap c) ⊆ dom (heap c') → cache_wf c → cache_wf c'.
Proof.
  intros Hdata Hdom Hwf bid b Hb. rewrite Hdata in Hb.
  destruct (Hwf bid b Hb) as [Hl Hg].
  split; intros l o Ho; apply elem_of_dom, Hdom, elem_of_dom;
    [by eapply Hl | by eapply Hg].
Qed.

(** The naming convention is about the tables of the cache. *)
Lemma cache_named_data (c c' : cache) :
  data c' = data c → cache_named c → cache_named c'.
Proof. intros Hd Hnamed bid b Hb. rewrite Hd in Hb. by apply (Hnamed bid b). Qed.

Lemma dom_set_xy o xy c : dom (heap (set_xy o xy c)) = dom (heap c).
Proof. apply dom_alter_L. Qed.

Lemma dom_set_ct o t c : dom (heap (set_ct o t c)) = dom (heap c).
Proof. apply dom_alter_L. Qed.

(** What is left of a handler followed by one effect. *)
Lemma final_then_emit {V} (m : act (state V) effect exn unit) e s :
  final ((m ≫= λ _, emit e) s) = final (m s).
Proof. rewrite run_bind. by destruct (m s). Qed.

Lemma closures_then_emit {V} (m : act (state V) effect exn unit) e s :
  closure_of e = None →
  closures (emitted ((m ≫= λ _, emit e) s)) = closures (emitted (m s)).
Proof.
  intros He. rewrite run_bind. destruct (m s); [|done]. simpl.
  rewrite closures_app. simpl. rewrite He. apply (right_id_L [] (++)).
Qed.

(** ** Quiet handlers *)

Lemma settles_bind {V} f (m k : act (state V) effect exn unit) :
  settles f m → quiet k → settles f (m ≫= λ _, k).
Proof.
  intros Hm Hk s. cbv zeta. rewrite run_bind.
  specialize (Hm s). cbv zeta in Hm.
  destruct (m s) as [[] s1 out|x s1 out]; [ | done]. simpl in Hm.
  destruct Hm as (Hc & Hctx & Hv & Hout), (Hk s1) as (Hc' & Hctx' & Hv' & Hout').
  rewrite final_after, emitted_after, closures_app, Hout, Hout'.
  split_and!; [congruence | by rewrite Hctx', <- Hctx | congruence | done].
Qed.

Lemma quiet_emit {V} (e : effect) :
  closure_of e = None → quiet (emit (S := state V) e).
Proof. intros He s. unfold closures. simpl. by rewrite He. Qed.

#[global] Instance plain_modest {V} : Modest (plain_base (V := V)).
Proof. split; [by intros ctx st s | done]. Qed.

End key.

#[export] Hint Rewrite @dom_set_xy @dom_set_ct : hue.
