(* ===== verification/ColorAction.v ===== *)
(** * ColorAction: colorAction.js

    [onKeyUp] (lines 22-116) with the two completion callbacks it hands to
    the bridge ([setXY_done], lines 85-93; [setTemperature_done], lines
    106-114), [setDefaults] (lines 134-193), [newCacheAvailable] (lines
    119-131) and the constructor (lines 11-19).  The action has no closure
    variable of its own: its state is [state unit].

    Theorems: [validate] is the order of the five checks as a function, and
    [onKeyUp] refines it; a valid configuration gives exactly one request
    built from the resolved object; [onKeyUp] itself never changes the
    state; a completion writes one field of one object or, on failure,
    nothing; [setDefaults] keeps compatible settings, repairs the others and
    is idempotent. *)

From Stdlib Require Import ZArith String Floats.
From stdpp Require Import base tactics strings gmap list.
From S2P Require Import Prelude JsString JsNumber ColorCodec Cache Host Key.

Module ColorAction.

Section action.
Context `{ColorSpace}.

#[local] Abbreviation M := (act (state unit) effect exn).

(** The callback given to [obj.setXY]. *)
Definition setXY_done (objCache : loc) (xy : XY) (inContext : string)
    (inSuccess : bool) (inError : string) : M unit :=
  if inSuccess then writeCache (set_xy objCache xy)
  else log inError;; showAlert inContext.

(** The callback given to [obj.setTemperature]. *)
Definition setTemperature_done (objCache : loc) (temperature : number)
    (inContext : string) (inSuccess : bool) (inError : string) : M unit :=
  if inSuccess then writeCache (set_ct objCache temperature)
  else log inError;; showAlert inContext.

(** Running a closure this action handed out. *)
Definition complete (k : closure) : bool → string → M unit :=
  match k with
  | OnXY objCache xy inContext => setXY_done objCache xy inContext
  | OnTemperature objCache temperature inContext =>
      setTemperature_done objCache temperature inContext
  end.

Definition onKeyUp (inContext : string) (inSettings : arg settings) : M unit :=
  inSettings ← match inSettings with
               | given s => mret s
               | undefined | null => getSettings
               end;
  match bridge inSettings with
  | None => fail "No bridge configured" inContext
  | Some bridge_id =>
  cache ← getCache;
  match data cache !! bridge_id with
  | None => fail ("Bridge " +:+ bridge_id +:+ " not found in cache") inContext
  | Some bridgeCache =>
  match light inSettings with
  | None => fail "No light or group configured" inContext
  | Some light =>
  if negb (known bridgeCache light)
  then fail ("Light or group " +:+ light +:+ " not found in cache") inContext
  else
  match color inSettings with
  | None => fail "No color configured" inContext
  | Some color =>
  let bridge := NewBridge (bridge_ip bridgeCache) (Cache.bridge_id bridgeCache)
                  (bridge_username bridgeCache) in
  '(objCache, x) ← deref (resolve "l" bridgeCache light) "id";
  let obj := (if includes light "l" then Light else Group) bridge (obj_id x) in
  if includes color "#" then
    let xy := hex2xy color in
    emit (SetXY obj xy (OnXY objCache xy inContext))
  else
    let temperature := percentToMired color in
    emit (SetTemperature obj temperature
            (OnTemperature objCache temperature inContext))
  end end end end.

Definition setDefaults : M unit :=
  settings ← getSettings;
  context ← getContext;
  match bridge settings with
  | None => mret tt
  | Some bridge_id =>
  cache ← getCache;
  match data cache !! bridge_id with
  | None => mret tt
  | Some bridgeCache =>
  match light settings with
  | None => mret tt
  | Some light =>
  if negb (known bridgeCache light) then mret tt else
  let lightCache := resolve "l-" bridgeCache light in
  supported ← match color settings with
              | Some color =>
                  '(_, x) ← deref lightCache "xy";
                  mret (if String.eqb (charAt color 0) "#"
                        then has_xy x else negb (has_xy x))
              | None => mret false
              end;
  if supported : bool then mret tt else
  '(_, x) ← deref lightCache "xy";
  assignSettings (λ s, Settings (bridge s) (Host.light s)
                         (Some (if has_xy x then "#ffffff" else "50"))
                         (colors s));;
  settings ← getSettings;
  saveSettings "com.elgato.philips-hue.color" context settings
  end end end.

(** ** Specifications

    What the handlers compute, as functions of the state. *)

(** The one request of a valid key press. *)
Definition request (inContext : string) (b : bridgeCache) (l col : string)
    (o : loc) (x : lightCache) : effect :=
  if includes col "#"
  then SetXY (target b l x) (hex2xy col) (OnXY o (hex2xy col) inContext)
  else SetTemperature (target b l x) (percentToMired col)
         (OnTemperature o (percentToMired col) inContext).

Definition onKeyUp_spec (inContext : string) (inSettings : arg settings) :
    M unit := λ s,
  match validate color (the_cache s) (effective inSettings s) with
  | inl e => Returned tt s [Log (message "color" e); ShowAlert inContext]
  | inr (b, l, col) =>
      match resolve "l" b l ≫= (λ o, (o,.) <$> heap (the_cache s) !! o) with
      | Some (o, x) => Returned tt s [request inContext b l col o x]
      | None =>
          Threw (TypeError "Cannot read properties of undefined (reading 'id')")
            s []
      end
  end.

(** The configured colour suits the device: hex for a device with [xy],
    anything else for a device without. *)
Definition compatible (col : option string) (x : lightCache) : bool :=
  match col with
  | Some c => if String.eqb (charAt c 0) "#" then has_xy x else negb (has_xy x)
  | None => false
  end.

Definition default_color (x : lightCache) : string :=
  if has_xy x then "#ffffff" else "50".

Definition with_color (st : settings) (col : string) : settings :=
  Settings (bridge st) (light st) (Some col) (colors st).

Definition setDefaults_spec : M unit := λ s,
  let st := current (self s) in
  match validate (λ _, Some tt) (the_cache s) st with
  | inl _ => Returned tt s []
  | inr (b, l, _) =>
      match resolve "l-" b l ≫= (λ o, (o,.) <$> heap (the_cache s) !! o) with
      | Some (_, x) =>
          if compatible (color st) x then Returned tt s []
          else let st' := with_color st (default_color x) in
               Returned tt
                 (State (the_cache s) (Instance (context (self s)) st') tt)
                 [SaveSettings "com.elgato.philips-hue.color"
                    (context (self s)) st']
      | None =>
          Threw (TypeError "Cannot read properties of undefined (reading 'xy')")
            s []
      end
  end.

Context `{!ActionBase unit}.

Definition newCacheAvailable (inCallback : nat) : M unit :=
  actionNewCacheAvailable (setDefaults;; emit (Called inCallback)).

(** [new ColorAction(inContext, inSettings)] *)
Definition ColorAction (inContext : string) (inSettings : settings) : M unit :=
  Action inContext inSettings;; setDefaults.

(** ** [onKeyUp] *)

Implicit Types (s : state unit) (c : cache) (b : bridgeCache) (x : lightCache).

(** An argument left out stands for the settings of the instance. *)
Lemma color_onKeyUp_effective inContext inSettings s :
  onKeyUp inContext inSettings s
    = onKeyUp inContext (given (effective inSettings s)) s.
Proof. unfold onKeyUp. destruct inSettings; by run. Qed.

Lemma color_onKeyUp_run inContext inSettings s :
  onKeyUp inContext inSettings s = onKeyUp_spec inContext inSettings s.
Proof.
  rewrite color_onKeyUp_effective. unfold onKeyUp_spec.
  generalize (effective inSettings s) as st. intros st.
  unfold validate, onKeyUp, request, target. run. check_target st.
  destruct (color st); [|done]. run.
  destruct (_ ≫= _) as [[o x]|]; [|done]. by destruct (includes _ "#").
Qed.

Lemma color_onKeyUp_final inContext inSettings s :
  final (onKeyUp inContext inSettings s) = s.
Proof. rewrite color_onKeyUp_run. unfold onKeyUp_spec. by repeat case_match. Qed.

Lemma color_requests_request inContext b l col o x :
  requests [request inContext b l col o x] = [request inContext b l col o x].
Proof. unfold request. by destruct (includes col "#"). Qed.

(** ** Completion *)

Lemma color_complete_failure k inError s :
  complete k false inError s
    = Returned tt s [Log inError; ShowAlert (closure_context k)].
Proof. by destruct k. Qed.

Lemma color_complete_success k inError s :
  complete k true inError s
    = Returned tt
        (State match k with
               | OnXY o xy _ => set_xy o xy (the_cache s)
               | OnTemperature o t _ => set_ct o t (the_cache s)
               end (self s) (vars s)) [].
Proof. by destruct k. Qed.

(** ** [setDefaults] *)

Lemma color_setDefaults_run s : setDefaults s = setDefaults_spec s.
Proof.
  unfold setDefaults_spec, validate, setDefaults, compatible, with_color,
    default_color. run.
  check_target (current (self s)).
  destruct (_ ≫= _) as [[o x]|] eqn:Hd;
    destruct (color _) as [col|]; run; rewrite ?Hd; run; try done.
  - destruct (if String.eqb _ _ then _ else _); run; rewrite ?Hd; run; [done|].
    by rewrite Hbridge, Hlight; destruct (vars s).
  - by rewrite Hbridge, Hlight; destruct (vars s).
Qed.

Lemma color_compatible_default x :
  compatible (Some (default_color x)) x = true.
Proof. unfold compatible, default_color. by destruct (has_xy x). Qed.

(** Repairing the colour does not change what the checks see. *)
Lemma color_validate_with_color c st col :
  validate (λ _, Some tt) c (with_color st col) = validate (λ _, Some tt) c st.
Proof. done. Qed.

Lemma color_alerts_request inContext b l col o x :
  alerts [request inContext b l col o x] = [].
Proof. unfold request. by destruct (includes col "#"). Qed.

Lemma color_closure_of_request inContext b l col o x :
  ∃ k, closure_of (request inContext b l col o x) = Some k
     ∧ closure_context k = inContext ∧ closure_object k = o.
Proof. unfold request. destruct (includes col "#"); eauto. Qed.

(** ** Properties of [onKeyUp] and of the completions *)

(** C1. [onKeyUp] computes [onKeyUp_spec]: the first failed check is logged
    and alerted; otherwise the object is resolved and one request made, or
    a [TypeError] thrown when the id resolves to nothing. *)
Theorem color_onKeyUp_refines inContext inSettings :
  onKeyUp inContext inSettings ≡ onKeyUp_spec inContext inSettings.
Proof. intros s. apply color_onKeyUp_run. Qed.

(** C28. When a check fails, [onKeyUp] logs the reason of the first failed
    check, shows the alert on the key, leaves the state as it was and asks
    nothing of the bridge. *)
Theorem color_onKeyUp_rejects inContext inSettings s e :
  validate color (the_cache s) (effective inSettings s) = inl e →
  onKeyUp inContext inSettings s
    = Returned tt s [Log (message "color" e); ShowAlert inContext]
  ∧ requests (emitted (onKeyUp inContext inSettings s)) = [].
Proof. intros Hv. rewrite color_onKeyUp_run. unfold onKeyUp_spec. by rewrite Hv. Qed.

(** [onKeyUp] leaves the cache, the instance and its settings as they
    were, whatever the settings and whether it returns or throws, and it
    saves no settings. *)
Theorem color_onKeyUp_frame inContext inSettings s :
  final (onKeyUp inContext inSettings s) = s
  ∧ saves (emitted (onKeyUp inContext inSettings s)) = [].
Proof.
  split; [apply color_onKeyUp_final | ]. rewrite color_onKeyUp_run. unfold onKeyUp_spec, request.
  by repeat case_match.
Qed.

(** One key press makes at most one request, and never a request
    together with an alert. *)
Theorem color_onKeyUp_one_request inContext inSettings s :
  let out := emitted (onKeyUp inContext inSettings s) in
  (length (requests out) ≤ 1)%nat ∧ (requests out = [] ∨ alerts out = []).
Proof.
  rewrite color_onKeyUp_run. unfold onKeyUp_spec.
  repeat case_match; simpl; rewrite ?color_requests_request, ?color_alerts_request; auto.
Qed.

(** With a well-formed cache whose ids follow the naming convention,
    [onKeyUp] returns, and it has either alerted once or made one request. *)
Lemma color_onKeyUp_returns inContext inSettings s :
  cache_wf (the_cache s) → cache_named (the_cache s) →
  ∃ out, onKeyUp inContext inSettings s = Returned tt s out
       ∧ (length (requests out) + length (alerts out) = 1)%nat.
Proof.
  intros Hwf Hnamed. rewrite color_onKeyUp_run. unfold onKeyUp_spec.
  destruct (validate _ _ _) as [e|[[b l] col]] eqn:Hv; [by eexists | ].
  apply validate_inr in Hv as (bid & _ & Hb & _ & Hk & _).
  destruct (resolve_deref "l" _ _ _ _ (or_introl eq_refl) Hwf Hnamed Hb Hk)
    as (o & x & -> & _).
  eexists; split; [done | ]. by rewrite color_requests_request, color_alerts_request.
Qed.

(** C10. A hex colour is sent as [hex2xy] of it to the resolved light or
    group, and when the bridge confirms, exactly the [xy] field of exactly
    that object becomes the value sent: its [ct], every other object and the
    bridge table are as before. *)
Theorem color_success_sets_xy inContext inSettings s b l col o x inError :
  validate color (the_cache s) (effective inSettings s) = inr (b, l, col) →
  resolve "l" b l ≫= (λ o, (o,.) <$> heap (the_cache s) !! o) = Some (o, x) →
  includes col "#" = true →
  ∃ k c',
    emitted (onKeyUp inContext inSettings s)
      = [SetXY (target b l x) (hex2xy col) k] ∧
    complete k true inError s = Returned tt (State c' (self s) tt) [] ∧
    heap c' !! o = Some (LightCache (obj_id x) (Some (hex2xy col)) (obj_ct x)) ∧
    (∀ o', o' ≠ o → heap c' !! o' = heap (the_cache s) !! o') ∧
    data c' = data (the_cache s).
Proof.
  intros Hv Hd Hhex. rewrite color_onKeyUp_run. unfold onKeyUp_spec, request.
  rewrite Hv, Hd, Hhex. apply deref_Some in Hd as [_ Hx].
  eexists _, _. split; [done | ]. split; [by destruct s as [? ? []] | ].
  split_and!; [ | intros o' ? | done]; rewrite heap_set_xy.
  - rewrite decide_True by done. by rewrite Hx.
  - by rewrite decide_False.
Qed.

(** C12. A valid colour without [#] is sent as one temperature request, the
    percentage converted to mired, to the resolved target; when the bridge
    confirms it, the callback leaves the key as it was and writes exactly
    the [ct] field of exactly that object, to the value sent: its id and
    [xy], every other object and the bridge table are as before, and nothing
    is emitted. *)
Theorem color_success_sets_ct inContext inSettings s b l col o x inError :
  validate color (the_cache s) (effective inSettings s) = inr (b, l, col) →
  resolve "l" b l ≫= (λ o, (o,.) <$> heap (the_cache s) !! o) = Some (o, x) →
  includes col "#" = false →
  ∃ k c',
    emitted (onKeyUp inContext inSettings s)
      = [SetTemperature (target b l x) (percentToMired col) k] ∧
    complete k true inError s = Returned tt (State c' (self s) tt) [] ∧
    heap c' !! o
      = Some (LightCache (obj_id x) (obj_xy x) (Some (percentToMired col))) ∧
    (∀ o', o' ≠ o → heap c' !! o' = heap (the_cache s) !! o') ∧
    data c' = data (the_cache s).
Proof.
  intros Hv Hd Hhex. rewrite color_onKeyUp_run. unfold onKeyUp_spec, request.
  rewrite Hv, Hd, Hhex. apply deref_Some in Hd as [_ Hx].
  eexists _, _. split; [done | ]. split; [by destruct s as [? ? []] | ].
  split_and!; [ | intros o' ? | done]; rewrite heap_set_ct.
  - rewrite decide_True by done. by rewrite Hx.
  - by rewrite decide_False.
Qed.

(** When the bridge reports a failure, the completion of a request
    logs the error, shows the alert on the key that was pressed and changes
    nothing, in whatever state it runs. *)
Theorem color_failure_changes_nothing inContext inSettings s e k inError s' :
  emitted (onKeyUp inContext inSettings s) = [e] → closure_of e = Some k →
  complete k false inError s' = Returned tt s' [Log inError; ShowAlert inContext].
Proof.
  rewrite color_onKeyUp_run, color_complete_failure. unfold onKeyUp_spec.
  destruct (validate _ _ _) as [?|[[b l] col]]; [done | ].
  destruct (_ ≫= _) as [[o x]|]; [|done]. intros [= <-] Hk.
  destruct (color_closure_of_request inContext b l col o x) as (k' & Hk' & <- & _).
  congruence.
Qed.

(** ** Properties of [setDefaults] *)

(** Once [setDefaults] has returned, running it again finds nothing to do. *)
Lemma color_setDefaults_settled s s' out :
  setDefaults s = Returned tt s' out → setDefaults s' = Returned tt s' [].
Proof.
  rewrite !color_setDefaults_run. unfold setDefaults_spec.
  destruct (validate _ (the_cache s) _) as [e|[[b l] []]] eqn:Hv.
  { intros [= <- _]. by rewrite Hv. }
  destruct (_ ≫= _) as [[o x]|] eqn:Hd; [|done].
  destruct (compatible _ x) eqn:Hc; intros [= <- _];
    cbn [the_cache self current context].
  - by rewrite Hv, Hd, Hc.
  - rewrite color_validate_with_color, Hv, Hd.
    by rewrite (color_compatible_default x : compatible (color (with_color _ _)) x = true).
Qed.

(** The state after [setDefaults], wherever it stops, differs from the state
    before only in the colour of the settings. *)
Lemma color_setDefaults_final s :
  ∃ col, final (setDefaults s)
         = State (the_cache s)
             (Instance (context (self s))
                (Settings (bridge (current (self s))) (light (current (self s)))
                   col (colors (current (self s))))) tt.
Proof.
  rewrite color_setDefaults_run. unfold setDefaults_spec.
  destruct s as [c [ctx [? ? col ?]] []].
  repeat case_match; simpl; eauto.
Qed.

(** C6. [setDefaults] computes [setDefaults_spec]: nothing without a known
    target, nothing for a colour that suits the device, otherwise the
    default of the device is assigned and the settings are saved; a
    [TypeError] when the id resolves to nothing. *)
Theorem color_setDefaults_refines : setDefaults ≡ setDefaults_spec.
Proof. intros s. apply color_setDefaults_run. Qed.

(** Running [setDefaults] twice is running it once: the second run
    changes and saves nothing. *)
Theorem color_setDefaults_idempotent :
  setDefaults ≫= (λ _, setDefaults) ≡ setDefaults.
Proof.
  intros s. rewrite run_bind. destruct (setDefaults s) as [[] s' out|] eqn:E; [|done].
  rewrite (color_setDefaults_settled _ _ _ E). simpl. by rewrite (right_id_L [] (++)).
Qed.

(** C30. For a known target whose colour is missing or does not suit the
    device, [setDefaults] assigns ["#ffffff"] for a device with [xy] and
    ["50"] for one without, changes no other key, and saves exactly the
    settings it leaves in the instance. *)
Theorem color_setDefaults_repairs s b l o x :
  validate (λ _, Some tt) (the_cache s) (current (self s)) = inr (b, l, tt) →
  resolve "l-" b l ≫= (λ o, (o,.) <$> heap (the_cache s) !! o) = Some (o, x) →
  compatible (color (current (self s))) x = false →
  let st := with_color (current (self s)) (if has_xy x then "#ffffff" else "50") in
  setDefaults s
    = Returned tt (State (the_cache s) (Instance (context (self s)) st) tt)
        [SaveSettings "com.elgato.philips-hue.color" (context (self s)) st].
Proof.
  intros Hv Hd Hc. rewrite color_setDefaults_run. unfold setDefaults_spec.
  by rewrite Hv, Hd, Hc.
Qed.

(** For a known target whose colour suits the device, [setDefaults]
    changes nothing and saves nothing. *)
Theorem color_setDefaults_keeps s b l o x :
  validate (λ _, Some tt) (the_cache s) (current (self s)) = inr (b, l, tt) →
  resolve "l-" b l ≫= (λ o, (o,.) <$> heap (the_cache s) !! o) = Some (o, x) →
  compatible (color (current (self s))) x = true →
  setDefaults s = Returned tt s [].
Proof.
  intros Hv Hd Hc. rewrite color_setDefaults_run. unfold setDefaults_spec.
  by rewrite Hv, Hd, Hc.
Qed.

(** A key whose target is known and whose colour is not configured:
    after [setDefaults], a key press sends white to a device with [xy] and
    the middle temperature to one without, to the object the id names. *)
Theorem color_defaults_then_keyUp inContext s bid b l :
  cache_wf (the_cache s) → cache_named (the_cache s) →
  bridge (current (self s)) = Some bid → data (the_cache s) !! bid = Some b →
  light (current (self s)) = Some l → known b l = true →
  color (current (self s)) = None →
  ∃ o x, (lights b ∪ groups b) !! l = Some o ∧ heap (the_cache s) !! o = Some x ∧
    let st := with_color (current (self s)) (default_color x) in
    (setDefaults ≫= λ _, onKeyUp inContext undefined) s
      = Returned tt (State (the_cache s) (Instance (context (self s)) st) tt)
          [SaveSettings "com.elgato.philips-hue.color" (context (self s)) st;
           if has_xy x
           then SetXY (target b l x) (hex2xy "#ffffff")
                  (OnXY o (hex2xy "#ffffff") inContext)
           else SetTemperature (target b l x) (percentToMired "50")
                  (OnTemperature o (percentToMired "50") inContext)].
Proof.
  intros Hwf Hnamed Hbid Hb Hl Hk Hcol.
  destruct (resolve_deref_agree _ _ _ _ Hwf Hnamed Hb Hk) as (o & x & Ho & Hx & Hd' & Hd).
  exists o, x. split_and!; [done.. | ].
  rewrite run_bind, color_setDefaults_run.
  unfold setDefaults_spec, validate, default_color; simpl.
  rewrite Hbid, Hb, Hl, Hk, Hcol, Hd; simpl. rewrite color_onKeyUp_run.
  unfold onKeyUp_spec, validate, request; simpl. rewrite Hbid, Hb, Hl, Hk, Hd'; simpl.
  by destruct (has_xy x).
Qed.

(** ** [newCacheAvailable] and the constructor *)

(** [newCacheAvailable] runs [setDefaults] after the base action's own
    work and before the caller's callback, which is the last thing it does. *)
Theorem color_newCacheAvailable_order :
  ∃ pre : M unit, ∀ inCallback,
    newCacheAvailable inCallback
      ≡ pre ≫= λ _, setDefaults ≫= λ _, emit (Called inCallback).
Proof.
  destruct (actionNewCacheAvailable_calls (V := unit)) as [pre Hpre].
  exists pre. intros inCallback. apply Hpre.
Qed.

End action.

(** ** The action behind the interface of the event loop *)

Section key.
Context `{ColorSpace} {base : ActionBase unit}.

Definition color_key : KeyAction unit := {|
  create := ColorAction;
  keyUp := onKeyUp;
  refreshed := newCacheAvailable;
  answer := complete;
  good := λ _, True;
|}.

Lemma color_setDefaults_closures (s : state unit) :
  closures (emitted (setDefaults s)) = [].
Proof. rewrite color_setDefaults_run. unfold setDefaults_spec. by repeat case_match. Qed.

Lemma color_setDefaults_quiet : quiet setDefaults.
Proof.
  intros s. cbv zeta. rewrite color_setDefaults_closures.
  destruct (color_setDefaults_final s) as [col ->]. by destruct s as [? ? []].
Qed.

Lemma color_onKeyUp_held inContext inSettings (s : state unit) :
  Forall (held (the_cache s) inContext)
    (closures (emitted (onKeyUp inContext inSettings s))).
Proof.
  rewrite color_onKeyUp_run. unfold onKeyUp_spec.
  destruct (validate _ _ _) as [?|[[b l] col]]; [by constructor | ].
  destruct (_ ≫= _) as [[o x]|] eqn:Hd; [|by constructor].
  destruct (color_closure_of_request inContext b l col o x) as (k & Hk & Hctx & Ho).
  unfold closures. simpl. rewrite Hk. repeat constructor; [|done].
  rewrite Ho. apply deref_Some in Hd as [_ ->]. eauto.
Qed.

(** The action is lawful with every modest base. *)
Lemma color_lawful `{!Modest base} : Lawful color_key.
Proof.
  split; simpl.
  - intros ctx st s.
    by destruct (settles_bind _ _ _ (Action_settles ctx st) color_setDefaults_quiet s)
      as (? & ? & _ & ?).
  - intros. rewrite color_onKeyUp_final. auto using color_onKeyUp_held.
  - intros k [] err s;
      [rewrite color_complete_success; destruct k | rewrite color_complete_failure];
      cbn [final emitted the_cache self vars]; by autorewrite with hue.
  - intros cb s.
    by destruct (hook_quiet _ (settles_bind _ _ _ color_setDefaults_quiet
                                 (quiet_emit (Called cb) eq_refl)) s)
      as (? & ? & _ & ?).
  - intros ctx i s. rewrite color_onKeyUp_run. unfold onKeyUp_spec, request.
    repeat case_match; by repeat constructor.
  - intros k err s. by rewrite color_complete_success.
  - intros k err s. by rewrite color_complete_failure.
Qed.

End key.

(** With the plain base, the constructor is [setDefaults] on the context and
    the settings it was given. *)
Lemma color_constructor_plain `{ColorSpace} inContext inSettings (s : state unit) :
  ColorAction (ActionBase0 := plain_base) inContext inSettings s
    = setDefaults (State (the_cache s) (Instance inContext inSettings) (vars s)).
Proof.
  unfold ColorAction. cbn [Action plain_base plain_Action]. run.
  by destruct (setDefaults _).
Qed.

#[export] Existing Instance color_key.
#[export] Existing Instance color_lawful.

(** ** The theorems at the demo installation *)

Section witnesses.
#[local] Existing Instance hex_space.
Import Demo.

Definition unset : settings := Settings None None None None.
Definition red : settings := Settings (Some "hub") (Some "l-1") (Some "#ff0000") None.
Definition warm : settings := Settings (Some "hub") (Some "l-2") (Some "50") None.
Definition untuned : settings := Settings (Some "hub") (Some "l-2") None None.

Lemma color_onKeyUp_rejects_witness :
  onKeyUp "key" undefined (key unset tt)
    = Returned tt (key unset tt) [Log "No bridge configured"; ShowAlert "key"]
  ∧ requests (emitted (onKeyUp "key" undefined (key unset tt))) = [].
Proof. exact (color_onKeyUp_rejects "key" undefined (key unset tt) NoBridge eq_refl). Defined.

Lemma color_onKeyUp_returns_witness :
  ∃ out, onKeyUp "key" undefined (key red tt) = Returned tt (key red tt) out
       ∧ (length (requests out) + length (alerts out) = 1)%nat.
Proof.
  exact (color_onKeyUp_returns "key" undefined (key red tt)
           installation_wf installation_named).
Defined.

Lemma color_success_sets_xy_witness :
  ∃ k c',
    emitted (onKeyUp "key" undefined (key red tt))
      = [SetXY (target hub "l-1" lamp) "#ff0000" k] ∧
    complete k true "" (key red tt) = Returned tt (State c' (Instance "key" red) tt) [] ∧
    heap c' !! 1%positive = Some (LightCache "1" (Some "#ff0000") None) ∧
    (∀ o', o' ≠ 1%positive → heap c' !! o' = heap installation !! o') ∧
    data c' = data installation.
Proof.
  exact (color_success_sets_xy "key" undefined (key red tt) hub "l-1" "#ff0000"
           1%positive lamp "" eq_refl eq_refl eq_refl).
Defined.

Lemma color_success_sets_ct_witness :
  ∃ k c',
    emitted (onKeyUp "key" undefined (key warm tt))
      = [SetTemperature (target hub "l-2" bulb) (percentToMired "50") k] ∧
    complete k true "" (key warm tt) = Returned tt (State c' (Instance "key" warm) tt) [] ∧
    heap c' !! 2%positive = Some (LightCache "2" None (Some (percentToMired "50"))) ∧
    (∀ o', o' ≠ 2%positive → heap c' !! o' = heap installation !! o') ∧
    data c' = data installation.
Proof.
  exact (color_success_sets_ct "key" undefined (key warm tt) hub "l-2" "50"
           2%positive bulb "" eq_refl eq_refl eq_refl).
Defined.

Lemma color_failure_changes_nothing_witness :
  complete (OnXY 1%positive "#ff0000" "key") false "timeout" (key unset tt)
    = Returned tt (key unset tt) [Log "timeout"; ShowAlert "key"].
Proof.
  exact (color_failure_changes_nothing "key" undefined (key red tt) _ _ "timeout"
           (key unset tt) eq_refl eq_refl).
Defined.

Lemma color_setDefaults_repairs_witness :
  setDefaults (key untuned tt)
    = Returned tt (key warm tt)
        [SaveSettings "com.elgato.philips-hue.color" "key" warm].
Proof.
  exact (color_setDefaults_repairs (key untuned tt) hub "l-2" 2%positive bulb
           eq_refl eq_refl eq_refl).
Defined.

Lemma color_setDefaults_keeps_witness :
  setDefaults (key red tt) = Returned tt (key red tt) [].
Proof.
  exact (color_setDefaults_keeps (key red tt) hub "l-1" 1%positive lamp
           eq_refl eq_refl eq_refl).
Defined.

Lemma color_defaults_then_keyUp_witness :
  ∃ o x, (lights hub ∪ groups hub) !! "l-2" = Some o ∧ heap installation !! o = Some x ∧
    let st := with_color untuned (default_color x) in
    (setDefaults ≫= λ _, onKeyUp "key" undefined) (key untuned tt)
      = Returned tt (State installation (Instance "key" st) tt)
          [SaveSettings "com.elgato.philips-hue.color" "key" st;
           if has_xy x
           then SetXY (target hub "l-2" x) (hex2xy "#ffffff")
                  (OnXY o (hex2xy "#ffffff") "key")
           else SetTemperature (target hub "l-2" x) (percentToMired "50")
                  (OnTemperature o (percentToMired "50") "key")].
Proof.
  exact (color_defaults_then_keyUp "key" (key untuned tt) "hub" hub "l-2"
           installation_wf installation_named eq_refl eq_refl eq_refl eq_refl eq_refl).
Defined.

End witnesses.

End ColorAction.
