(* ===== verification/CycleAction.v ===== *)
(** * CycleAction: cycleAction.js

    [onKeyUp] (lines 23-130) with the two completion callbacks it hands to
    the bridge ([setXY_done], lines 94-103; [setTemperature_done], lines
    119-128), [setDefaults] (lines 148-208), [newCacheAvailable] (lines
    136-145) and the constructor (lines 9-20).  The closure variable
    [currentColor] (line 14) is the [vars] of the state: an integer, -1
    before the first colour has been set.

    The handlers differ from those of the colour action in four places: an
    argument [null] is not replaced by the instance's settings (the test is
    [===]), the configured value is the array [colors], the colour sent is
    [colors[currentColor + 1]] after [currentColor] has been reset when that
    index is past the end, and a confirmed request increments
    [currentColor].

    Theorems: the refinement of [onKeyUp] and [setDefaults] to their
    specifications; the cursor stays at least -1, wraps to the first colour,
    moves by one on a confirmed request and not at all on a failed one; a
    valid key press sends the colour after the cursor
    ([cycle_onKeyUp_sends_next]).  Sequences of key presses are in
    [Rounds], behaviour outside well-formed settings in [Outside]. *)

From Stdlib Require Import ZArith Lia String Floats.
From stdpp Require Import base tactics strings gmap list.
From S2P Require Import Prelude JsString JsNumber ColorCodec Cache Host Key.

Module CycleAction.

Section action.
Context `{ColorSpace}.

#[local] Abbreviation M := (act (state Z) effect exn).

(** The callback given to [obj.setXY]. *)
Definition setXY_done (objCache : loc) (xy : XY) (inContext : string)
    (inSuccess : bool) (inError : string) : M unit :=
  if inSuccess then
    writeCache (set_xy objCache xy);;
    currentColor ← getVars;
    setVars (currentColor + 1)
  else log inError;; showAlert inContext.

(** The callback given to [obj.setTemperature]. *)
Definition setTemperature_done (objCache : loc) (temperature : number)
    (inContext : string) (inSuccess : bool) (inError : string) : M unit :=
  if inSuccess then
    writeCache (set_ct objCache temperature);;
    currentColor ← getVars;
    setVars (currentColor + 1)
  else log inError;; showAlert inContext.

(** Running a closure this action handed out. *)
Definition complete (k : closure) : bool → string → M unit :=
  match k with
  | OnXY objCache xy inContext => setXY_done objCache xy inContext
  | OnTemperature objCache temperature inContext =>
      setTemperature_done objCache temperature inContext
  end.

Definition onKeyUp (inContext : string) (inSettings : arg settings) : M unit :=
  inSettings ← match inSettings with
               | given s => mret s
               | undefined => getSettings
               | null =>
                   throw (TypeError
                     "Cannot use 'in' operator to search for 'bridge' in null")
               end;
  match bridge inSettings with
  | None => fail "No bridge configured" inContext
  | Some bridge_id =>
  cache ← getCache;
  match data cache !! bridge_id with
  | None => fail ("Bridge " +:+ bridge_id +:+ " not found in cache") inContext
  | Some bridgeCache =>
  match light inSettings with
  | None => fail "No light or group configured" inContext
  | Some light =>
  if negb (known bridgeCache light)
  then fail ("Light or group " +:+ light +:+ " not found in cache") inContext
  else
  match colors inSettings with
  | None => fail "No colors configured" inContext
  | Some colors =>
  let bridge := NewBridge (bridge_ip bridgeCache) (Cache.bridge_id bridgeCache)
                  (bridge_username bridgeCache) in
  '(objCache, x) ← deref (resolve "l" bridgeCache light) "id";
  let obj := (if includes light "l" then Light else Group) bridge (obj_id x) in
  currentColor ← getVars;
  (if bool_decide (Z.of_nat (length colors) ≤ currentColor + 1)
   then setVars (-1) else mret tt);;
  currentColor ← getVars;
  let colorIndex := currentColor + 1 in
  match lookupZ colors colorIndex with
  | None =>
      throw (TypeError
               "Cannot read properties of undefined (reading 'indexOf')")
  | Some color =>
  if includes color "#" then
    let xy := hex2xy color in
    emit (SetXY obj xy (OnXY objCache xy inContext))
  else
    let temperature := kelvinToMired color in
    emit (SetTemperature obj temperature
            (OnTemperature objCache temperature inContext))
  end end end end end.

Definition setDefaults : M unit :=
  settings ← getSettings;
  context ← getContext;
  match bridge settings with
  | None => mret tt
  | Some bridge_id =>
  cache ← getCache;
  match data cache !! bridge_id with
  | None => mret tt
  | Some bridgeCache =>
  match light settings with
  | None => mret tt
  | Some light =>
  if negb (known bridgeCache light) then mret tt else
  let lightCache := resolve "l-" bridgeCache light in
  supported ← match colors settings with
              | Some colors =>
                  match lookupZ colors 0 with
                  | None =>
                      throw (TypeError
                        "Cannot read properties of undefined (reading 'charAt')")
                  | Some color =>
                      '(_, x) ← deref lightCache "xy";
                      mret (if String.eqb (charAt color 0) "#"
                            then has_xy x else negb (has_xy x))
                  end
              | None => mret false
              end;
  if supported : bool then mret tt else
  '(_, x) ← deref lightCache "xy";
  assignSettings (λ s, Settings (bridge s) (Host.light s) (color s)
                         (Some (if has_xy x
                                then ["#ff0000"; "#00ff00"; "#0000ff"]
                                else ["2230"; "4250"; "6410"])));;
  settings ← getSettings;
  saveSettings "com.elgato.philips-hue.cycle" context settings
  end end end.

(** ** Specifications *)

(** The index of the colour a key press sends, for a cursor and a number of
    colours. *)
Definition colorIndex (currentColor : Z) (n : nat) : Z :=
  if bool_decide (Z.of_nat n ≤ currentColor + 1) then 0 else currentColor + 1.

(** The cursor a key press leaves. *)
Definition rewound (currentColor : Z) (n : nat) : Z :=
  if bool_decide (Z.of_nat n ≤ currentColor + 1) then -1 else currentColor.

(** The one request of a valid key press. *)
Definition request (inContext : string) (b : bridgeCache) (l col : string)
    (o : loc) (x : lightCache) : effect :=
  if includes col "#"
  then SetXY (target b l x) (hex2xy col) (OnXY o (hex2xy col) inContext)
  else SetTemperature (target b l x) (kelvinToMired col)
         (OnTemperature o (kelvinToMired col) inContext).

(** A key press with settings [st]. *)
Definition press (inContext : string) (st : settings) : M unit := λ s,
  match validate colors (the_cache s) st with
  | inl e => Returned tt s [Log (message "colors" e); ShowAlert inContext]
  | inr (b, l, cols) =>
      match resolve "l" b l ≫= (λ o, (o,.) <$> heap (the_cache s) !! o) with
      | None =>
          Threw (TypeError "Cannot read properties of undefined (reading 'id')")
            s []
      | Some (o, x) =>
          let s' := State (the_cache s) (self s) (rewound (vars s) (length cols)) in
          match lookupZ cols (colorIndex (vars s) (length cols)) with
          | Some col => Returned tt s' [request inContext b l col o x]
          | None =>
              Threw (TypeError
                       "Cannot read properties of undefined (reading 'indexOf')")
                s' []
          end
      end
  end.

Definition onKeyUp_spec (inContext : string) (inSettings : arg settings) :
    M unit := λ s,
  match inSettings with
  | null =>
      Threw (TypeError "Cannot use 'in' operator to search for 'bridge' in null")
        s []
  | _ => press inContext (effective inSettings s) s
  end.

(** The configured colours suit the device, judged by the first. *)
Definition compatible (col : string) (x : lightCache) : bool :=
  if String.eqb (charAt col 0) "#" then has_xy x else negb (has_xy x).

Definition default_colors (x : lightCache) : list string :=
  if has_xy x then ["#ff0000"; "#00ff00"; "#0000ff"]
  else ["2230"; "4250"; "6410"].

Definition with_colors (st : settings) (cols : list string) : settings :=
  Settings (bridge st) (light st) (color st) (Some cols).

Definition setDefaults_spec : M unit := λ s,
  let st := current (self s) in
  match validate (λ _, Some tt) (the_cache s) st with
  | inl _ => Returned tt s []
  | inr (b, l, _) =>
      let r := resolve "l-" b l ≫= (λ o, (o,.) <$> heap (the_cache s) !! o) in
      let xy_of_undefined :=
        Threw (TypeError "Cannot read properties of undefined (reading 'xy')")
          s [] in
      let repaired x :=
        let st' := with_colors st (default_colors x) in
        Returned tt (State (the_cache s) (Instance (context (self s)) st') (vars s))
          [SaveSettings "com.elgato.philips-hue.cycle" (context (self s)) st'] in
      match colors st with
      | Some cols =>
          match lookupZ cols 0 with
          | None =>
              Threw (TypeError
                       "Cannot read properties of undefined (reading 'charAt')")
                s []
          | Some col =>
              match r with
              | None => xy_of_undefined
              | Some (_, x) =>
                  if compatible col x then Returned tt s [] else repaired x
              end
          end
      | None =>
          match r with
          | None => xy_of_undefined
          | Some (_, x) => repaired x
          end
      end
  end.

Context `{!ActionBase Z}.

Definition newCacheAvailable (inCallback : nat) : M unit :=
  actionNewCacheAvailable (setDefaults;; emit (Called inCallback)).

(** [new CycleAction(inContext, inSettings)] *)
Definition CycleAction (inContext : string) (inSettings : settings) : M unit :=
  setVars (-1);; Action inContext inSettings;; setDefaults.

(** ** [onKeyUp] *)

Implicit Types (s : state Z) (c : cache) (b : bridgeCache) (x : lightCache).

Lemma cycle_onKeyUp_run inContext inSettings s :
  onKeyUp inContext inSettings s = onKeyUp_spec inContext inSettings s.
Proof.
  unfold onKeyUp_spec, press, onKeyUp. destruct inSettings as [| |st]; run; try done;
    unfold validate, request, target, colorIndex, rewound.
  all: match goal with |- context [bridge ?st] => check_target st end.
  all: destruct (colors _) as [cols|]; [|done]; run.
  all: destruct (_ ≫= _) as [[o x]|]; [|done]; run.
  all: case_bool_decide; run; destruct (lookupZ _ _); run.
  all: destruct s; simpl; try done; by destruct (includes _ "#").
Qed.

Lemma cycle_setDefaults_run s : setDefaults s = setDefaults_spec s.
Proof.
  unfold setDefaults_spec, validate, setDefaults, compatible, with_colors,
    default_colors. run.
  check_target (current (self s)).
  destruct (colors _) as [cols|]; run.
  - destruct (lookupZ cols 0) as [col|]; run; [|done].
    destruct (_ ≫= _) as [[o x]|] eqn:Hd; run; [|done].
    destruct (if String.eqb _ _ then _ else _); run; rewrite ?Hd; run; [done|].
    by rewrite Hbridge, Hlight.
  - destruct (_ ≫= _) as [[o x]|] eqn:Hd; run; [|done].
    by rewrite Hbridge, Hlight.
Qed.

Lemma cycle_requests_request inContext b l col o x :
  requests [request inContext b l col o x] = [request inContext b l col o x].
Proof. unfold request. by destruct (includes col "#"). Qed.

Lemma cycle_alerts_request inContext b l col o x :
  alerts [request inContext b l col o x] = [].
Proof. unfold request. by destruct (includes col "#"). Qed.

Lemma cycle_closure_of_request inContext b l col o x :
  ∃ k, closure_of (request inContext b l col o x) = Some k
     ∧ closure_context k = inContext ∧ closure_object k = o.
Proof. unfold request. destruct (includes col "#"); eauto. Qed.

(** ** The cursor *)

Lemma colorIndex_rewound cur n : colorIndex cur n = rewound cur n + 1.
Proof. unfold colorIndex, rewound. by case_bool_decide. Qed.

Lemma rewound_range cur n :
  -1 ≤ cur → (0 < n)%nat → -1 ≤ rewound cur n < Z.of_nat n - 1.
Proof. unfold rewound. case_bool_decide; lia. Qed.

Lemma colorIndex_lookup {A} (l : list A) cur :
  -1 ≤ cur → l ≠ [] → is_Some (lookupZ l (colorIndex cur (length l))).
Proof.
  intros Hcur Hl. apply lookupZ_is_Some. rewrite colorIndex_rewound.
  destruct l; [done | ]. pose proof (rewound_range cur (length (a :: l)) Hcur).
  simpl in *. lia.
Qed.

(** A cursor that has been rewound needs no rewinding. *)
Lemma rewound_stable cur n :
  colorIndex cur n < Z.of_nat n →
  rewound (rewound cur n) n = rewound cur n
  ∧ colorIndex (rewound cur n) n = colorIndex cur n.
Proof. unfold colorIndex, rewound. repeat case_bool_decide; lia. Qed.

(** A key press that made a request makes the same request again as long
    as nothing else has happened. *)
Lemma press_settled inContext st s s1 e k :
  press inContext st s = Returned tt s1 [e] → closure_of e = Some k →
  self s1 = self s ∧ closure_context k = inContext
  ∧ press inContext st s1 = Returned tt s1 [e].
Proof.
  unfold press.
  destruct (validate _ _ _) as [?|[[b l] cols]] eqn:Hv; [done | ].
  destruct (_ ≫= _) as [[o x]|] eqn:Hd; [|done].
  destruct (lookupZ _ _) as [col|] eqn:Hcol; [|done]. intros [= <- <-] Hk.
  destruct (cycle_closure_of_request inContext b l col o x) as (k' & Hk' & <- & _).
  destruct (rewound_stable (vars s) (length cols)) as [Hr Hi].
  { apply (proj1 (lookupZ_is_Some cols _)). eauto. }
  split_and!; [done | congruence | ]. simpl. by rewrite Hv, Hd, Hr, Hi, Hcol.
Qed.

(** ** Completion *)

Lemma cycle_complete_failure k inError s :
  complete k false inError s
    = Returned tt s [Log inError; ShowAlert (closure_context k)].
Proof. by destruct k. Qed.

Lemma cycle_complete_success k inError s :
  complete k true inError s
    = Returned tt
        (State match k with
               | OnXY o xy _ => set_xy o xy (the_cache s)
               | OnTemperature o t _ => set_ct o t (the_cache s)
               end (self s) (vars s + 1)) [].
Proof. by destruct k. Qed.

(** A key press with valid settings, a resolved target and colours. *)
Lemma cycle_onKeyUp_sends_next inContext inSettings s b l cols o x :
  inSettings ≠ null →
  validate colors (the_cache s) (effective inSettings s) = inr (b, l, cols) →
  resolve "l" b l ≫= (λ o, (o,.) <$> heap (the_cache s) !! o) = Some (o, x) →
  -1 ≤ vars s → cols ≠ [] →
  ∃ col, lookupZ cols (colorIndex (vars s) (length cols)) = Some col ∧
    onKeyUp inContext inSettings s
      = Returned tt
          (State (the_cache s) (self s) (colorIndex (vars s) (length cols) - 1))
          [request inContext b l col o x].
Proof.
  intros Hnull Hv Hd Hcur Hcols. rewrite cycle_onKeyUp_run. unfold onKeyUp_spec, press.
  destruct (colorIndex_lookup cols (vars s) Hcur Hcols) as [col Hcol].
  exists col. rewrite Hv, Hd, Hcol, colorIndex_rewound.
  replace (rewound _ _ + 1 - 1) with (rewound (vars s) (length cols)) by lia.
  by destruct inSettings.
Qed.

(** The object a confirmed request writes to keeps its id. *)
Lemma cycle_written_object k c x :
  heap c !! closure_object k = Some x →
  ∃ x', heap match k with
             | OnXY o xy _ => set_xy o xy c
             | OnTemperature o t _ => set_ct o t c
             end !! closure_object k = Some x' ∧ obj_id x' = obj_id x.
Proof.
  destruct k; cbn [closure_object]; intros Hx;
    rewrite ?heap_set_xy, ?heap_set_ct, decide_True, Hx by done; eauto.
Qed.

(** ** Properties of [onKeyUp] and of the completions *)

(** C2. [onKeyUp] computes [onKeyUp_spec]: [null] settings throw; the
    first failed check is logged and alerted; otherwise the object is
    resolved, the cursor is rewound if the next index is past the end, and
    the colour at the next index is sent, or a [TypeError] thrown when the id
    resolves to nothing or there is no colour at that index. *)
Theorem cycle_onKeyUp_refines inContext inSettings :
  onKeyUp inContext inSettings ≡ onKeyUp_spec inContext inSettings.
Proof. intros s. apply cycle_onKeyUp_run. Qed.

(** C29. When a check fails, [onKeyUp] logs the reason of the first failed
    check, shows the alert, asks nothing of the bridge and leaves the state,
    the cursor included, as it was. *)
Theorem cycle_onKeyUp_rejects inContext inSettings s e :
  inSettings ≠ null →
  validate colors (the_cache s) (effective inSettings s) = inl e →
  onKeyUp inContext inSettings s
    = Returned tt s [Log (message "colors" e); ShowAlert inContext]
  ∧ requests (emitted (onKeyUp inContext inSettings s)) = [].
Proof.
  intros Hnull Hv. rewrite cycle_onKeyUp_run. unfold onKeyUp_spec, press.
  rewrite Hv. by destruct inSettings.
Qed.

(** When the index after the cursor is past the end of the colours, the
    key press sends the first colour and leaves the cursor at -1. *)
Theorem cycle_onKeyUp_wraps inContext inSettings s b l col cols o x :
  inSettings ≠ null →
  validate colors (the_cache s) (effective inSettings s) = inr (b, l, col :: cols) →
  resolve "l" b l ≫= (λ o, (o,.) <$> heap (the_cache s) !! o) = Some (o, x) →
  Z.of_nat (length (col :: cols)) ≤ vars s + 1 →
  onKeyUp inContext inSettings s
    = Returned tt (State (the_cache s) (self s) (-1))
        [request inContext b l col o x].
Proof.
  intros Hnull Hv Hd Hcur. rewrite cycle_onKeyUp_run. unfold onKeyUp_spec, press.
  rewrite Hv, Hd. unfold colorIndex, rewound. rewrite !bool_decide_eq_true_2 by done.
  by destruct inSettings.
Qed.

(** One key press makes at most one request, never a request together
    with an alert, and changes nothing but the cursor. *)
Theorem cycle_onKeyUp_one_request inContext inSettings s :
  let o := onKeyUp inContext inSettings s in
  (length (requests (emitted o)) ≤ 1)%nat
  ∧ (requests (emitted o) = [] ∨ alerts (emitted o) = [])
  ∧ the_cache (final o) = the_cache s ∧ self (final o) = self s.
Proof.
  rewrite cycle_onKeyUp_run. unfold onKeyUp_spec, press.
  repeat case_match; simpl;
    rewrite ?cycle_requests_request, ?cycle_alerts_request; auto.
Qed.

(** When the bridge confirms a request, exactly one field of exactly the
    resolved object becomes the value sent, and the cursor moves by one. *)
Theorem cycle_success_advances k inError s :
  ∃ c', complete k true inError s = Returned tt (State c' (self s) (vars s + 1)) []
    ∧ data c' = data (the_cache s)
    ∧ (∀ o', o' ≠ closure_object k → heap c' !! o' = heap (the_cache s) !! o')
    ∧ heap c' !! closure_object k
      = (λ x, match k with
              | OnXY _ xy _ => LightCache (obj_id x) (Some xy) (obj_ct x)
              | OnTemperature _ t _ => LightCache (obj_id x) (obj_xy x) (Some t)
              end) <$> heap (the_cache s) !! closure_object k.
Proof.
  rewrite cycle_complete_success. eexists. split; [done | ].
  destruct k as [o xy ctx|o t ctx]; cbn [closure_object]; split_and!; try done.
  - intros o' ?. by rewrite heap_set_xy, decide_False.
  - by rewrite heap_set_xy, decide_True.
  - intros o' ?. by rewrite heap_set_ct, decide_False.
  - by rewrite heap_set_ct, decide_True.
Qed.

(** C11. When the bridge reports a failure, nothing changes, the cursor
    included: the next key press makes the same request again. *)
Theorem cycle_failure_retries inContext inSettings s s1 e k inError :
  onKeyUp inContext inSettings s = Returned tt s1 [e] →
  closure_of e = Some k →
  complete k false inError s1 = Returned tt s1 [Log inError; ShowAlert inContext]
  ∧ onKeyUp inContext inSettings s1 = Returned tt s1 [e].
Proof.
  rewrite cycle_complete_failure, !cycle_onKeyUp_run. unfold onKeyUp_spec.
  intros Hs Hk. assert (press inContext (effective inSettings s) s
                        = Returned tt s1 [e]) as Hp by (by destruct inSettings).
  destruct (press_settled _ _ _ _ _ _ Hp Hk) as (Hself & Hctx & Hagain).
  split; [by rewrite Hctx | ].
  replace (effective inSettings s1) with (effective inSettings s)
    by (destruct inSettings; simpl; congruence).
  by destruct inSettings.
Qed.

(** ** Properties of [setDefaults] *)

Lemma cycle_compatible_default x :
  ∃ col, lookupZ (default_colors x) 0 = Some col ∧ compatible col x = true.
Proof. unfold compatible, default_colors. destruct (has_xy x) eqn:E; eauto. Qed.

(** Once [setDefaults] has returned, running it again finds nothing to do. *)
Lemma cycle_setDefaults_settled s s' out :
  setDefaults s = Returned tt s' out → setDefaults s' = Returned tt s' [].
Proof.
  rewrite !cycle_setDefaults_run. unfold setDefaults_spec.
  destruct (validate _ (the_cache s) _) as [e|[[b l] []]] eqn:Hv.
  { intros [= <- _]. by rewrite Hv. }
  destruct (colors (current (self s))) as [cols|] eqn:Hcols.
  - destruct (lookupZ cols 0) as [col|] eqn:Hcol; [|done].
    destruct (_ ≫= _) as [[o x]|] eqn:Hd; [|done].
    destruct (compatible col x) eqn:Hc; intros [= <- _];
      cbn [the_cache self current context colors with_colors].
    + by rewrite Hv, Hcols, Hcol, Hd, Hc.
    + change (validate _ _ (with_colors ?st _)) with (validate (λ _, Some tt) (the_cache s) st).
      destruct (cycle_compatible_default x) as (col' & -> & Hc').
      by rewrite Hv, Hd, Hc'.
  - destruct (_ ≫= _) as [[o x]|] eqn:Hd; [|done]. intros [= <- _].
    cbn [the_cache self current context colors with_colors].
    change (validate _ _ (with_colors ?st _)) with (validate (λ _, Some tt) (the_cache s) st).
    destruct (cycle_compatible_default x) as (col' & -> & Hc').
    by rewrite Hv, Hd, Hc'.
Qed.

(** The state after [setDefaults], wherever it stops, differs from the state
    before only in the colours of the settings. *)
Lemma cycle_setDefaults_final s :
  ∃ cols, final (setDefaults s)
          = State (the_cache s)
              (Instance (context (self s))
                 (Settings (bridge (current (self s))) (light (current (self s)))
                    (color (current (self s))) cols)) (vars s).
Proof.
  rewrite cycle_setDefaults_run. unfold setDefaults_spec.
  destruct s as [c [ctx [? ? ? cols]] v].
  repeat case_match; simpl; eauto.
Qed.

(** C7. [setDefaults] computes [setDefaults_spec]: nothing without a known
    target, nothing when the first colour suits the device, otherwise the
    three default colours of the device are assigned and the settings
    saved; a [TypeError] when the colours are empty or the id resolves to
    nothing. *)
Theorem cycle_setDefaults_refines : setDefaults ≡ setDefaults_spec.
Proof. intros s. apply cycle_setDefaults_run. Qed.

(** Running [setDefaults] twice is running it once. *)
Theorem cycle_setDefaults_idempotent :
  setDefaults ≫= (λ _, setDefaults) ≡ setDefaults.
Proof.
  intros s. rewrite run_bind. destruct (setDefaults s) as [[] s' out|] eqn:E; [|done].
  rewrite (cycle_setDefaults_settled _ _ _ E). simpl. by rewrite (right_id_L [] (++)).
Qed.

(** For a known target without colours, [setDefaults] assigns red, green
    and blue for a device with [xy] and 2230, 4250 and 6410 Kelvin for one
    without, changes no other key and not the cursor, and saves exactly the
    settings it leaves in the instance. *)
Theorem cycle_setDefaults_repairs s b l o x :
  validate (λ _, Some tt) (the_cache s) (current (self s)) = inr (b, l, tt) →
  resolve "l-" b l ≫= (λ o, (o,.) <$> heap (the_cache s) !! o) = Some (o, x) →
  colors (current (self s)) = None →
  let st := with_colors (current (self s))
              (if has_xy x then ["#ff0000"; "#00ff00"; "#0000ff"]
               else ["2230"; "4250"; "6410"]) in
  setDefaults s
    = Returned tt (State (the_cache s) (Instance (context (self s)) st) (vars s))
        [SaveSettings "com.elgato.philips-hue.cycle" (context (self s)) st].
Proof.
  intros Hv Hd Hc. rewrite cycle_setDefaults_run. unfold setDefaults_spec.
  by rewrite Hv, Hd, Hc.
Qed.

(** C23. Neither a key press, nor [setDefaults], nor a completion, whatever
    its outcome, breaks the cache or lets the cursor fall below -1, and the
    key keeps its context. *)
Theorem cycle_handlers_preserve s :
  cache_wf (the_cache s) → cache_named (the_cache s) → -1 ≤ vars s →
  ∀ s', (∃ inContext inSettings, s' = final (onKeyUp inContext inSettings s))
      ∨ s' = final (setDefaults s)
      ∨ (∃ k inSuccess inError, s' = final (complete k inSuccess inError s)) →
  cache_wf (the_cache s') ∧ cache_named (the_cache s') ∧ -1 ≤ vars s'
  ∧ context (self s') = context (self s).
Proof.
  intros Hwf Hnamed Hcur s' [(ctx & i & ->)|[->|(k & [] & err & ->)]].
  - rewrite cycle_onKeyUp_run. unfold onKeyUp_spec, press, rewound.
    repeat case_match; simpl; split_and!; auto; lia.
  - by destruct (cycle_setDefaults_final s) as [col ->].
  - rewrite cycle_complete_success. destruct k; simpl; split_and!; auto with hue; lia.
  - by rewrite cycle_complete_failure.
Qed.

(** ** [newCacheAvailable] and the constructor *)

(** [newCacheAvailable] runs [setDefaults] after the base action's own
    work and before the caller's callback, which is the last thing it does. *)
Theorem cycle_newCacheAvailable_order :
  ∃ pre : M unit, ∀ inCallback,
    newCacheAvailable inCallback
      ≡ pre ≫= λ _, setDefaults ≫= λ _, emit (Called inCallback).
Proof.
  destruct (actionNewCacheAvailable_calls (V := Z)) as [pre Hpre].
  exists pre. intros inCallback. apply Hpre.
Qed.

End action.

(** ** The action behind the interface of the event loop *)

Section key.
Context `{ColorSpace} {base : ActionBase Z}.

Definition cycle_key : KeyAction Z := {|
  create := CycleAction;
  keyUp := onKeyUp;
  refreshed := newCacheAvailable;
  answer := complete;
  good := λ currentColor, -1 ≤ currentColor;
|}.

Lemma cycle_setDefaults_closures (s : state Z) :
  closures (emitted (setDefaults s)) = [].
Proof. rewrite cycle_setDefaults_run. unfold setDefaults_spec. by repeat case_match. Qed.

Lemma cycle_setDefaults_quiet : quiet setDefaults.
Proof.
  intros s. cbv zeta. rewrite cycle_setDefaults_closures.
  by destruct (cycle_setDefaults_final s) as [col ->].
Qed.

(** A key press changes nothing but the cursor, which stays at least -1. *)
Lemma cycle_onKeyUp_final inContext inSettings (s : state Z) :
  let o := onKeyUp inContext inSettings s in
  the_cache (final o) = the_cache s ∧ self (final o) = self s
  ∧ (-1 ≤ vars s → -1 ≤ vars (final o)).
Proof.
  rewrite cycle_onKeyUp_run. unfold onKeyUp_spec, press, rewound.
  repeat case_match; simpl; split_and!; auto; lia.
Qed.

Lemma cycle_onKeyUp_held inContext inSettings (s : state Z) :
  Forall (held (the_cache s) inContext)
    (closures (emitted (onKeyUp inContext inSettings s))).
Proof.
  rewrite cycle_onKeyUp_run. unfold onKeyUp_spec, press.
  destruct inSettings as [| |st]; [|by constructor|];
    (destruct (validate _ _ _) as [?|[[b l] cols]]; [by constructor | ];
     destruct (_ ≫= _) as [[o x]|] eqn:Hd; [|by constructor];
     destruct (lookupZ _ _) as [col|]; [|by constructor];
     destruct (cycle_closure_of_request inContext b l col o x) as (k & Hk & Hctx & Ho);
     unfold closures; simpl; rewrite Hk; repeat constructor; [|done];
     rewrite Ho; apply deref_Some in Hd as [_ ->]; eauto).
Qed.

(** The constructor sets the cursor to -1 before anything else. *)
Lemma cycle_constructor_run inContext inSettings (s : state Z) :
  CycleAction inContext inSettings s
    = (Action inContext inSettings ≫= λ _, setDefaults)
        (State (the_cache s) (self s) (-1)).
Proof. unfold CycleAction. rewrite run_bind, run_setVars. apply after_nil. Qed.

(** The action is lawful with every modest base. *)
Lemma cycle_lawful `{!Modest base} : Lawful cycle_key.
Proof.
  split; simpl.
  - intros ctx st s. rewrite cycle_constructor_run.
    destruct (settles_bind _ _ _ (Action_settles ctx st) cycle_setDefaults_quiet
                (State (the_cache s) (self s) (-1))) as (? & ? & -> & ?).
    by split_and!.
  - intros ctx i s. destruct (cycle_onKeyUp_final ctx i s) as (? & ? & ?).
    auto using cycle_onKeyUp_held.
  - intros k [] err s;
      [rewrite cycle_complete_success; destruct k | rewrite cycle_complete_failure];
      cbn [final emitted the_cache self vars]; autorewrite with hue;
      split_and!; auto; lia.
  - intros cb s.
    destruct (hook_quiet _ (settles_bind _ _ _ cycle_setDefaults_quiet
                              (quiet_emit (Called cb) eq_refl)) s)
      as (? & ? & Hv & ?).
    split_and!; [done.. | | done]. unfold newCacheAvailable. by rewrite Hv.
  - intros ctx i s. rewrite cycle_onKeyUp_run. unfold onKeyUp_spec, press, request.
    repeat case_match; by repeat constructor.
  - intros k err s. by rewrite cycle_complete_success.
  - intros k err s. by rewrite cycle_complete_failure.
Qed.

Lemma default_colors_length (x : lightCache) : length (default_colors x) = 3%nat.
Proof. unfold default_colors. by destruct (has_xy x). Qed.

End key.

(** With the plain base, the constructor is [setDefaults] on the context and
    the settings it was given, with the cursor at -1. *)
Lemma cycle_constructor_plain `{ColorSpace} inContext inSettings (s : state Z) :
  CycleAction (ActionBase0 := plain_base) inContext inSettings s
    = setDefaults (State (the_cache s) (Instance inContext inSettings) (-1)).
Proof.
  unfold CycleAction. cbn [Action plain_base plain_Action]. run.
  by destruct (setDefaults _).
Qed.

#[export] Existing Instance cycle_key.
#[export] Existing Instance cycle_lawful.

(** ** The theorems at the concrete installation *)

Section witnesses.
#[local] Existing Instance hex_space.
#[local] Existing Instance plain_base.
Import Demo.

(** Three colours for the colour light, three temperatures for the light
    without colour, and that light with no colours configured. *)
Definition rgb : settings :=
  Settings (Some "hub") (Some "l-1") None (Some ["#ff0000"; "#00ff00"; "#0000ff"]).
Definition kelvins : settings :=
  Settings (Some "hub") (Some "l-2") None (Some ["2230"; "4250"; "6410"]).
Definition bare : settings := Settings (Some "hub") (Some "l-2") None None.

(** The request for the colour [col] of the colour light. *)
Definition paint (col : string) : effect :=
  SetXY (target hub "l-1" lamp) col (OnXY 1%positive col "key").

Lemma cycle_onKeyUp_rejects_witness :
  onKeyUp "key" undefined (key bare (-1))
    = Returned tt (key bare (-1)) [Log "No colors configured"; ShowAlert "key"]
  ∧ requests (emitted (onKeyUp "key" undefined (key bare (-1)))) = [].
Proof.
  exact (cycle_onKeyUp_rejects "key" undefined (key bare (-1)) NoColor
           ltac:(discriminate) eq_refl).
Defined.

Lemma cycle_onKeyUp_wraps_witness :
  onKeyUp "key" undefined (key rgb 2) = Returned tt (key rgb (-1)) [paint "#ff0000"].
Proof.
  exact (cycle_onKeyUp_wraps "key" undefined (key rgb 2) hub "l-1" _ _
           1%positive lamp ltac:(discriminate) eq_refl eq_refl ltac:(by vm_compute)).
Defined.

Lemma cycle_failure_retries_witness :
  complete (OnXY 1%positive "#00ff00" "key") false "timeout" (key rgb 0)
    = Returned tt (key rgb 0) [Log "timeout"; ShowAlert "key"]
  ∧ onKeyUp "key" undefined (key rgb 0) = Returned tt (key rgb 0) [paint "#00ff00"].
Proof.
  exact (cycle_failure_retries "key" undefined (key rgb 0) _ _ _ "timeout"
           eq_refl eq_refl).
Defined.

Lemma cycle_setDefaults_repairs_witness :
  setDefaults (key bare (-1))
    = Returned tt (key kelvins (-1))
        [SaveSettings "com.elgato.philips-hue.cycle" "key" kelvins].
Proof.
  exact (cycle_setDefaults_repairs (key bare (-1)) hub "l-2" 2%positive bulb
           eq_refl eq_refl eq_refl).
Defined.

Lemma cycle_handlers_preserve_witness :
  cache_wf (the_cache (final (setDefaults (key bare (-1)))))
  ∧ cache_named (the_cache (final (setDefaults (key bare (-1)))))
  ∧ -1 ≤ vars (final (setDefaults (key bare (-1))))
  ∧ context (self (final (setDefaults (key bare (-1))))) = "key".
Proof.
  exact (cycle_handlers_preserve (key bare (-1)) installation_wf installation_named
           ltac:(by vm_compute) _ (or_intror (or_introl eq_refl))).
Defined.

End witnesses.

End CycleAction.
