(* ===== verification/Rounds.v ===== *)
(** * Rounds: sequences of key presses of the cycle action

    What [onKeyUp] and the callbacks of cycleAction.js do together, over
    several key presses on one key.  [confirmed] is a key press whose
    request the bridge confirms before anything else happens; [presses j]
    is [j] of them.

    Theorems: from any cursor not below -1, press [k] requests the colour
    at index [(i0 + k) mod n], where [i0] is the index the first press
    sends, and the cursor ends on the index sent last ([cycle_round], from
    [presses_run]); from the fresh cursor the colours come in their order
    and round again ([round_from_fresh]), also for a key created without
    colours ([cycle_new_key_rounds]); every colour is requested within [n] key
    presses, from any cursor ([cycle_every_colour_reached]); and when a key
    is pressed [j + 1] times before the bridge answers ([burst]) and the
    requests are then confirmed ([confirmations]), [j] colours are skipped
    ([cycle_burst_skips]; [cycle_reentrant_presses_skip] is the case of two
    presses on at least three colours). *)

From Stdlib Require Import ZArith Lia String.
From stdpp Require Import base tactics strings gmap list.
From S2P Require Import Prelude JsString JsNumber ColorCodec Cache Host Key.
From S2P Require Import CycleAction.
Import CycleAction.

Section rounds.
Context `{ColorSpace}.

Implicit Types (s : state Z) (c : cache) (b : bridgeCache) (x : lightCache).

(** A key press whose request the bridge confirms before anything else
    happens on the key. *)
Definition confirmed (inContext : string) : act (state Z) effect exn unit := λ s,
  match onKeyUp inContext undefined s with
  | Returned _ s' [e] =>
      match closure_of e with
      | Some k => after [e] (complete k true "" s')
      | None => Returned tt s' [e]
      end
  | o => o
  end.

(** [j] such key presses, one after the other. *)
Fixpoint presses (inContext : string) (j : nat) : act (state Z) effect exn unit :=
  match j with
  | O => mret tt
  | S j' => presses inContext j';; confirmed inContext
  end.

(** [j] key presses with no answer in between. *)
Fixpoint burst (inContext : string) (j : nat) : act (state Z) effect exn unit :=
  match j with
  | O => mret tt
  | S j' => onKeyUp inContext undefined;; burst inContext j'
  end.

(** The bridge confirms [j] requests that were made with the callback [k]. *)
Fixpoint confirmations (k : closure) (j : nat) : act (state Z) effect exn unit :=
  match j with
  | O => mret tt
  | S j' => complete k true "";; confirmations k j'
  end.

(** The index the next key press sends, for the cursor [v] and [n] colours. *)
Definition first_index (v : Z) (n : nat) : nat := Z.to_nat (colorIndex v n).

(** The cursor after [j] confirmed presses on [n] colours, from [v]. *)
Definition cursor_after (v : Z) (j n : nat) : Z :=
  match j with
  | O => v
  | S j' => Z.of_nat ((first_index v n + j') mod n)
  end.

(** What a key is ready for: its settings are valid for [b], [l] and
    [cols], and [l] resolves to the object [o], which has the id [id]. *)
Definition ready (s : state Z) (b : bridgeCache) (l : string)
    (cols : list string) (o : loc) (id : string) : Prop :=
  validate colors (the_cache s) (current (self s)) = inr (b, l, cols)
  ∧ ∃ x, resolve "l" b l ≫= (λ o, (o,.) <$> heap (the_cache s) !! o) = Some (o, x)
       ∧ obj_id x = id.

(** ** The cursor over a round *)

Lemma first_index_spec v n :
  (0 < n)%nat → -1 ≤ v →
  (first_index v n < n)%nat ∧ Z.of_nat (first_index v n) = colorIndex v n.
Proof. unfold first_index, colorIndex. case_bool_decide; lia. Qed.

Lemma colorIndex_next v n : v + 1 < Z.of_nat n → colorIndex v n = v + 1.
Proof. unfold colorIndex. case_bool_decide; lia. Qed.

Lemma colorIndex_cursor_after v j n :
  (0 < n)%nat → -1 ≤ v →
  colorIndex (cursor_after v j n) n = Z.of_nat ((first_index v n + j) mod n).
Proof.
  intros Hn Hv. destruct (first_index_spec v n Hn Hv) as [Hlt Hi].
  destruct j as [|j]; cbn [cursor_after].
  { by rewrite Nat.add_0_r, Nat.mod_small. }
  replace (first_index v n + S j)%nat with (S (first_index v n + j)) by lia.
  generalize (first_index v n + j)%nat. intros m.
  pose proof (Nat.mod_upper_bound m n ltac:(lia)).
  rewrite <- Nat.add_1_r, <- (Nat.Div0.add_mod_idemp_l m). unfold colorIndex.
  case_bool_decide.
  - replace (m mod n + 1)%nat with n by lia. rewrite Nat.Div0.mod_same. lia.
  - rewrite (Nat.mod_small (m mod n + 1)); lia.
Qed.

(** ** One confirmed key press *)

(** The request does not depend on the colour state of the object. *)
Lemma cycle_request_id inContext b l col o x x' :
  obj_id x' = obj_id x →
  request inContext b l col o x' = request inContext b l col o x.
Proof. unfold request, target. by intros ->. Qed.

(** A key is ready again after a callback has written to its object. *)
Lemma ready_complete s b l cols o id k inError :
  ready s b l cols o id → closure_object k = o →
  ∃ s', complete k true inError s = Returned tt s' []
      ∧ vars s' = vars s + 1 ∧ self s' = self s ∧ ready s' b l cols o id.
Proof.
  intros (Hv & x & Hd & Hid) Hk. rewrite cycle_complete_success.
  apply deref_Some in Hd as [Hr Hx]. subst o.
  destruct (cycle_written_object k _ _ Hx) as (x' & Hx' & Hid').
  eexists. split_and!; [done.. | ].
  split; [by destruct k | ]. exists x'.
  split; [apply deref_Some; split; [done | apply Hx'] | congruence].
Qed.

(** A key press of a ready key with a sound cursor. *)
Lemma ready_onKeyUp inContext s b l cols o x :
  ready s b l cols o (obj_id x) → cols ≠ [] → -1 ≤ vars s →
  ∃ col k,
    lookupZ cols (colorIndex (vars s) (length cols)) = Some col
    ∧ closure_of (request inContext b l col o x) = Some k ∧ closure_object k = o
    ∧ onKeyUp inContext undefined s
      = Returned tt
          (State (the_cache s) (self s) (colorIndex (vars s) (length cols) - 1))
          [request inContext b l col o x].
Proof.
  intros (Hv & x0 & Hd & Hid) Hcols Hcur.
  destruct (cycle_onKeyUp_sends_next inContext undefined s b l cols o x0
              ltac:(done) Hv Hd Hcur Hcols) as (col & Hcol & Hrun).
  destruct (cycle_closure_of_request inContext b l col o x) as (k & Hk & _ & Ho).
  exists col, k. by rewrite Hrun, (cycle_request_id _ _ _ _ _ _ _ Hid).
Qed.

(** One confirmed press of a ready key with a sound cursor: the colour at
    the next index is requested, the cursor becomes that index, and the key
    is ready again. *)
Lemma confirmed_step inContext s b l cols o x :
  ready s b l cols o (obj_id x) → cols ≠ [] → -1 ≤ vars s →
  ∃ s' col,
    lookupZ cols (colorIndex (vars s) (length cols)) = Some col
    ∧ confirmed inContext s = Returned tt s' [request inContext b l col o x]
    ∧ vars s' = colorIndex (vars s) (length cols)
    ∧ ready s' b l cols o (obj_id x).
Proof.
  intros Hready Hcols Hcur. unfold confirmed.
  destruct (ready_onKeyUp inContext s b l cols o x Hready Hcols Hcur)
    as (col & k & Hcol & Hk & Ho & ->).
  rewrite Hk.
  destruct (ready_complete (State (the_cache s) (self s)
                              (colorIndex (vars s) (length cols) - 1))
              b l cols o (obj_id x) k "") as (s' & -> & Hvars & _ & Hready');
    [by destruct Hready | done | ].
  exists s', col. simpl in Hvars. split_and!; [done | done | lia | done].
Qed.

(** ** Rounds *)

(** [j] confirmed key presses of a ready key: press [k] requests the colour
    at index [(i0 + k) mod n]. *)
Lemma presses_run inContext s b l cols o x j :
  ready s b l cols o (obj_id x) → cols ≠ [] → -1 ≤ vars s →
  ∃ s', presses inContext j s
        = Returned tt s'
            ((λ k : nat, request inContext b l
                (cols !!! ((first_index (vars s) (length cols) + k)
                           mod length cols)%nat) o x) <$> seq 0 j)
      ∧ vars s' = cursor_after (vars s) j (length cols)
      ∧ ready s' b l cols o (obj_id x).
Proof.
  intros Hready0 Hcols Hcur.
  assert (0 < length cols)%nat as Hn by (destruct cols; [done | simpl; lia]).
  induction j as [|j (s1 & Hrun & Hvars & Hready)]; [by exists s | ].
  destruct (confirmed_step inContext s1 b l cols o x Hready Hcols)
    as (s2 & col & Hcol & Hstep & Hvars2 & Hready2).
  { rewrite Hvars. destruct j; simpl; lia. }
  rewrite Hvars, colorIndex_cursor_after in Hcol, Hvars2 by done.
  rewrite lookupZ_nat in Hcol.
  exists s2. split_and!; [ | done | done].
  rewrite seq_S, fmap_app. cbn [presses].
  rewrite run_bind, Hrun. simpl. rewrite Hstep. simpl.
  by rewrite (list_lookup_total_correct _ _ _ Hcol).
Qed.

Lemma first_index_fresh n : first_index (-1) n = 0%nat.
Proof. unfold first_index, colorIndex. by case_bool_decide. Qed.

(** C3. From any cursor not below -1, [j] key presses, each confirmed before
    the next, request the colours in cyclic order: with [i0] the index that
    [onKeyUp] computes from the cursor (the cursor plus one, or 0 when that
    is past the last colour), press [k] (from 0) requests the colour at
    index [(i0 + k) mod n] of the [n] configured, and the cursor ends on the
    index requested last (it is unchanged when [j] is 0).  From the fresh
    cursor -1 the first index is 0. *)
Theorem cycle_round inContext s b l cols o x j :
  validate colors (the_cache s) (current (self s)) = inr (b, l, cols) →
  resolve "l" b l ≫= (λ o, (o,.) <$> heap (the_cache s) !! o) = Some (o, x) →
  cols ≠ [] → -1 ≤ vars s →
  Z.of_nat (first_index (vars s) (length cols)) = colorIndex (vars s) (length cols)
  ∧ (first_index (vars s) (length cols) < length cols)%nat
  ∧ (vars s = -1 → first_index (vars s) (length cols) = 0%nat)
  ∧ ∃ s', presses inContext j s
          = Returned tt s'
              ((λ k : nat, request inContext b l
                  (cols !!! ((first_index (vars s) (length cols) + k)
                             mod length cols)%nat) o x) <$> seq 0 j)
        ∧ vars s' = match j with
                    | O => vars s
                    | S j' => Z.of_nat ((first_index (vars s) (length cols) + j')
                                        mod length cols)
                    end.
Proof.
  intros Hv Hd Hcols Hcur.
  assert (0 < length cols)%nat as Hn by (destruct cols; [done | simpl; lia]).
  destruct (first_index_spec (vars s) (length cols) Hn Hcur) as [Hlt Hi0].
  destruct (presses_run inContext s b l cols o x j) as (s' & Hrun & Hvars & _);
    [split; eauto | done | lia | ].
  split_and!; [done | done | | by exists s'].
  intros ->. apply first_index_fresh.
Qed.

(** C18. Every colour has its turn: from any cursor, the colour at any index
    is requested by one of the next [n] confirmed key presses. *)
Theorem cycle_every_colour_reached inContext s b l cols o x (i : nat) col :
  validate colors (the_cache s) (current (self s)) = inr (b, l, cols) →
  resolve "l" b l ≫= (λ o, (o,.) <$> heap (the_cache s) !! o) = Some (o, x) →
  -1 ≤ vars s → cols !! i = Some col →
  ∃ j s' out,
    (j < length cols)%nat
    ∧ presses inContext (S j) s
      = Returned tt s' (out ++ [request inContext b l col o x])
    ∧ vars s' = Z.of_nat i.
Proof.
  intros Hv Hd Hcur Hi. pose proof (lookup_lt_Some _ _ _ Hi) as Hlt.
  assert (cols ≠ []) as Hcols by (by destruct cols).
  destruct (first_index_spec (vars s) (length cols)) as [Hi0 _]; [lia.. | ].
  set (n := length cols) in *. set (i0 := first_index (vars s) n) in *.
  pose (j := ((i + n - i0) mod n)%nat).
  assert ((i0 + j) mod n = i)%nat as Hij.
  { unfold j. rewrite Nat.Div0.add_mod_idemp_r.
    replace (i0 + (i + n - i0))%nat with (i + 1 * n)%nat by lia.
    rewrite Nat.Div0.mod_add. by apply Nat.mod_small. }
  destruct (presses_run inContext s b l cols o x (S j)) as (s' & Hrun & Hvars & _);
    [split; eauto | done.. | ].
  exists j, s'. eexists. split; [apply Nat.mod_upper_bound; lia | ].
  rewrite seq_S, fmap_app in Hrun. simpl in Hrun, Hvars. fold n i0 in Hrun, Hvars.
  rewrite Hij in Hrun, Hvars. by rewrite (list_lookup_total_correct _ _ _ Hi) in Hrun.
Qed.

(** Two key presses before the first is confirmed both request the
    first colour, and both confirmations increment the cursor: the index
    of the next key press is 2, it requests the third colour, and the
    second is not requested. *)
Theorem cycle_reentrant_presses_skip inContext s b l col0 col1 col2 cols o x :
  validate colors (the_cache s) (current (self s))
    = inr (b, l, col0 :: col1 :: col2 :: cols) →
  resolve "l" b l ≫= (λ o, (o,.) <$> heap (the_cache s) !! o) = Some (o, x) →
  vars s = -1 →
  ∃ k s2,
    closure_of (request inContext b l col0 o x) = Some k
    ∧ (onKeyUp inContext undefined;; onKeyUp inContext undefined) s
      = Returned tt s [request inContext b l col0 o x; request inContext b l col0 o x]
    ∧ (complete k true "";; complete k true "") s = Returned tt s2 []
    ∧ first_index (vars s2) (length (col0 :: col1 :: col2 :: cols)) = 2%nat
    ∧ onKeyUp inContext undefined s2
      = Returned tt s2 [request inContext b l col2 o x].
Proof.
  intros Hv Hd Hcur.
  assert (ready s b l (col0 :: col1 :: col2 :: cols) o (obj_id x)) as Hready
    by (split; eauto).
  destruct (ready_onKeyUp inContext s b l _ o x Hready) as (col & k & Hcol & Hk & Ho & Hrun);
    [done | lia | ].
  rewrite Hcur in Hcol, Hrun. injection Hcol as <-.
  replace (State (the_cache s) (self s) _) with s in Hrun
    by (destruct s; simpl in *; by subst).
  destruct (ready_complete s b l _ o (obj_id x) k "" Hready Ho)
    as (s1 & Hs1 & Hvars1 & _ & Hready1).
  destruct (ready_complete s1 b l _ o (obj_id x) k "" Hready1 Ho)
    as (s2 & Hs2 & Hvars2 & _ & Hready2).
  destruct (ready_onKeyUp inContext s2 b l _ o x Hready2) as (col' & k' & Hcol' & _ & _ & Hrun2);
    [done | lia | ].
  replace (vars s2) with 1 in Hcol', Hrun2 by lia.
  rewrite colorIndex_next in Hcol', Hrun2 by (simpl; lia).
  change (Some col2 = Some col') in Hcol'. injection Hcol' as <-.
  replace (State (the_cache s2) (self s2) _) with s2 in Hrun2
    by (destruct s2; simpl in *; f_equal; lia).
  exists k, s2. split_and!; [done | | | | done].
  - by rewrite run_bind, Hrun; simpl; rewrite Hrun.
  - by rewrite run_bind, Hs1; simpl; rewrite Hs2.
  - unfold first_index. replace (vars s2) with 1 by lia.
    by rewrite colorIndex_next by (simpl; lia).
Qed.

(** ** Key presses that are not confirmed in between *)

(** Once a key press has rewound the cursor, further key presses change
    nothing and make the same request. *)
Lemma settled_burst inContext s b l cols o x col j :
  ready s b l cols o (obj_id x) → -1 ≤ vars s → vars s + 1 < Z.of_nat (length cols) →
  lookupZ cols (vars s + 1) = Some col →
  burst inContext j s = Returned tt s (replicate j (request inContext b l col o x)).
Proof.
  intros Hready Hcur Hlt Hcol. induction j as [|j IH]; [done | ]. cbn [burst].
  destruct (ready_onKeyUp inContext s b l cols o x Hready) as (col' & k & Hcol' & _ & _ & Hrun);
    [intros ->; simpl in Hlt; lia | done | ].
  rewrite colorIndex_next in Hcol', Hrun by done.
  replace (State (the_cache s) (self s) _) with s in Hrun
    by (destruct s; simpl; f_equal; lia).
  assert (col' = col) as -> by congruence.
  by rewrite run_bind, Hrun; simpl; rewrite IH.
Qed.

Lemma ready_confirmations s b l cols o id k j :
  ready s b l cols o id → closure_object k = o →
  ∃ s', confirmations k j s = Returned tt s' []
      ∧ vars s' = vars s + Z.of_nat j ∧ ready s' b l cols o id.
Proof.
  intros Hready Ho. revert s Hready. induction j as [|j IH]; intros s Hready.
  { exists s. split_and!; [done | lia | done]. }
  destruct (ready_complete s b l cols o id k "" Hready Ho) as (s1 & Hs1 & Hv1 & _ & Hr1).
  destruct (IH s1 Hr1) as (s2 & Hs2 & Hv2 & Hr2).
  exists s2. cbn [confirmations]. rewrite run_bind, Hs1. simpl. rewrite Hs2.
  split_and!; [done | lia | done].
Qed.

(** C33. A key pressed several times before the bridge answers skips
    colours.  From any cursor not below -1, [j + 1] key presses with no
    answer in between all request the colour at the index [i0] of the
    first, and leave the cursor at [i0 - 1]; when the bridge then confirms
    the [j + 1] requests, every confirmation increments the cursor, which
    ends at [i0 + j]: the next key press requests the colour [j + 1]
    places after [i0] and the [j] colours in between are not requested,
    or, when that is past the end, the first colour again. *)
Theorem cycle_burst_skips inContext s b l cols o x j :
  validate colors (the_cache s) (current (self s)) = inr (b, l, cols) →
  resolve "l" b l ≫= (λ o, (o,.) <$> heap (the_cache s) !! o) = Some (o, x) →
  cols ≠ [] → -1 ≤ vars s →
  let i0 := colorIndex (vars s) (length cols) in
  ∃ col k s1 s2,
    lookupZ cols i0 = Some col
    ∧ closure_of (request inContext b l col o x) = Some k
    ∧ burst inContext (S j) s
      = Returned tt s1 (replicate (S j) (request inContext b l col o x))
    ∧ vars s1 = i0 - 1
    ∧ confirmations k (S j) s1 = Returned tt s2 []
    ∧ vars s2 = i0 + Z.of_nat j
    ∧ ready s2 b l cols o (obj_id x)
    ∧ colorIndex (vars s2) (length cols)
      = if bool_decide (i0 + Z.of_nat j + 1 < Z.of_nat (length cols))
        then i0 + Z.of_nat j + 1 else 0.
Proof.
  intros Hv Hd Hcols Hcur i0.
  assert (ready s b l cols o (obj_id x)) as Hready by (split; eauto).
  assert (0 < length cols)%nat as Hn by (destruct cols; [done | simpl; lia]).
  destruct (first_index_spec (vars s) _ Hn Hcur) as [Hlt Hi0]. fold i0 in Hi0.
  destruct (ready_onKeyUp inContext s b l cols o x Hready Hcols Hcur)
    as (col & k & Hcol & Hk & Ho & Hrun). fold i0 in Hcol, Hrun.
  set (s1 := State (the_cache s) (self s) (i0 - 1)) in *.
  assert (ready s1 b l cols o (obj_id x)) as Hready1 by done.
  destruct (ready_confirmations s1 b l cols o _ k (S j) Hready1 Ho) as (s2 & Hs2 & Hv2 & Hr2).
  exists col, k, s1, s2. cbn [burst replicate]. rewrite run_bind, Hrun. simpl.
  rewrite (settled_burst inContext s1 b l cols o x col j Hready1);
    [ | simpl; lia.. | by replace (vars s1 + 1) with i0 by (simpl; lia)].
  simpl in Hv2. split_and!; [done.. | lia | done | ].
  unfold colorIndex. repeat case_bool_decide; lia.
Qed.

End rounds.

(** ** A new key *)

Section fresh.
Context `{ColorSpace}.
#[local] Existing Instance plain_base.

(** C5. With the plain base action ([plain_base], the base class as the
    specification describes it), a key created on a known target without
    colours, in a well-formed cache whose ids follow the naming convention: the constructor saves the
    three default colours of the device, and [j] key presses, each confirmed
    before the next, request them in order, round after round. *)
Theorem cycle_new_key_rounds inContext st (s : state Z) bid b l j :
  cache_wf (the_cache s) → cache_named (the_cache s) →
  bridge st = Some bid → data (the_cache s) !! bid = Some b →
  light st = Some l → known b l = true → colors st = None →
  ∃ o x s1 s2,
    (lights b ∪ groups b) !! l = Some o ∧ heap (the_cache s) !! o = Some x ∧
    CycleAction inContext st s
      = Returned tt s1
          [SaveSettings "com.elgato.philips-hue.cycle" inContext
             (with_colors st (default_colors x))] ∧
    presses inContext j s1
      = Returned tt s2
          ((λ i : nat, request inContext b l
                         (default_colors x !!! (i mod 3)%nat) o x) <$> seq 0 j).
Proof.
  intros Hwf Hnamed Hbid Hb Hl Hk Hcols.
  destruct (resolve_deref_agree _ _ _ _ Hwf Hnamed Hb Hk) as (o & x & Ho & Hx & Hd & Hd').
  set (s1 := State (the_cache s)
               (Instance inContext (with_colors st (default_colors x))) (-1)).
  destruct (presses_run inContext s1 b l (default_colors x) o x j)
    as (s2 & Hrun & _);
    [ | by rewrite <- length_zero_iff_nil, default_colors_length | done | ].
  { split; [by apply (validate_known colors _ _ bid) | eauto]. }
  exists o, x, s1, s2.
  rewrite default_colors_length in Hrun. change (vars s1) with (-1) in Hrun.
  rewrite first_index_fresh in Hrun.
  split_and!; [done.. | | done].
  rewrite cycle_constructor_plain, cycle_setDefaults_run. unfold setDefaults_spec.
  cbn [the_cache self current context vars].
  by rewrite (validate_known (λ _, Some tt) _ _ bid b l tt), Hd', Hcols.
Qed.

End fresh.

(** ** The theorems at the concrete installation *)

Section witnesses.
#[local] Existing Instance hex_space.
#[local] Existing Instance plain_base.
Import Demo.

Lemma cycle_round_witness :
  Z.of_nat 2 = colorIndex 1 3 ∧ (2 < 3)%nat ∧ (1 = -1 → 2%nat = 0%nat)
  ∧ ∃ s', presses "key" 4 (key rgb 1)
          = Returned tt s'
              [paint "#0000ff"; paint "#ff0000"; paint "#00ff00"; paint "#0000ff"]
        ∧ vars s' = 2.
Proof.
  exact (cycle_round "key" (key rgb 1) hub "l-1" _ 1%positive lamp 4
           eq_refl eq_refl ltac:(discriminate) ltac:(by vm_compute)).
Defined.

(** From the fresh cursor the colours come in their order and round again. *)
Example round_from_fresh :
  ∃ s', presses "key" 4 (key rgb (-1))
        = Returned tt s'
            [paint "#ff0000"; paint "#00ff00"; paint "#0000ff"; paint "#ff0000"]
      ∧ vars s' = 0.
Proof. eexists. split; reflexivity. Qed.

Lemma cycle_every_colour_reached_witness :
  ∃ j s' out,
    (j < 3)%nat
    ∧ presses "key" (S j) (key rgb 1) = Returned tt s' (out ++ [paint "#00ff00"])
    ∧ vars s' = 1.
Proof.
  exact (cycle_every_colour_reached "key" (key rgb 1) hub "l-1" _ 1%positive lamp
           1 "#00ff00" eq_refl eq_refl ltac:(by vm_compute) eq_refl).
Defined.

Lemma cycle_reentrant_presses_skip_witness :
  ∃ k s2,
    closure_of (paint "#ff0000") = Some k
    ∧ (onKeyUp "key" undefined;; onKeyUp "key" undefined) (key rgb (-1))
      = Returned tt (key rgb (-1)) [paint "#ff0000"; paint "#ff0000"]
    ∧ (complete k true "";; complete k true "") (key rgb (-1)) = Returned tt s2 []
    ∧ first_index (vars s2) 3 = 2%nat
    ∧ onKeyUp "key" undefined s2 = Returned tt s2 [paint "#0000ff"].
Proof.
  exact (cycle_reentrant_presses_skip "key" (key rgb (-1)) hub "l-1"
           "#ff0000" "#00ff00" "#0000ff" [] 1%positive lamp eq_refl eq_refl eq_refl).
Defined.

Lemma cycle_burst_skips_witness :
  ∃ col k s1 s2,
    lookupZ ["#ff0000"; "#00ff00"; "#0000ff"] (colorIndex (-1) 3) = Some col
    ∧ closure_of (request "key" hub "l-1" col 1%positive lamp) = Some k
    ∧ burst "key" 3 (key rgb (-1))
      = Returned tt s1 (replicate 3 (request "key" hub "l-1" col 1%positive lamp))
    ∧ vars s1 = colorIndex (-1) 3 - 1
    ∧ confirmations k 3 s1 = Returned tt s2 []
    ∧ vars s2 = colorIndex (-1) 3 + 2
    ∧ ready s2 hub "l-1" ["#ff0000"; "#00ff00"; "#0000ff"] 1%positive "1"
    ∧ colorIndex (vars s2) 3
      = if bool_decide (colorIndex (-1) 3 + 2 + 1 < 3)
        then colorIndex (-1) 3 + 2 + 1 else 0.
Proof.
  exact (cycle_burst_skips "key" (key rgb (-1)) hub "l-1" _ 1%positive lamp 2
           eq_refl eq_refl ltac:(discriminate) ltac:(done)).
Defined.

(** Three key presses before the bridge answers, all confirmed: the three
    requests are for red, and the next key press asks for red again. *)
Example burst_of_three :
  ∃ k s1 s2,
    burst "key" 3 (key rgb (-1)) = Returned tt s1 (replicate 3 (paint "#ff0000"))
    ∧ closure_of (paint "#ff0000") = Some k
    ∧ confirmations k 3 s1 = Returned tt s2 []
    ∧ vars s2 = 2
    ∧ emitted (onKeyUp "key" undefined s2) = [paint "#ff0000"].
Proof. eexists _, _, _. split_and!; reflexivity. Qed.

Lemma cycle_new_key_rounds_witness :
  ∃ o x s1 s2,
    (lights hub ∪ groups hub) !! "l-2" = Some o ∧ heap installation !! o = Some x ∧
    CycleAction "key" bare (key rgb 2)
      = Returned tt s1
          [SaveSettings "com.elgato.philips-hue.cycle" "key"
             (with_colors bare (default_colors x))] ∧
    presses "key" 5 s1
      = Returned tt s2
          ((λ i : nat, request "key" hub "l-2"
                         (default_colors x !!! (i mod 3)%nat) o x) <$> seq 0 5).
Proof.
  exact (cycle_new_key_rounds "key" bare (key rgb 2) "hub" hub "l-2" 5
           installation_wf installation_named eq_refl eq_refl eq_refl eq_refl eq_refl).
Defined.

End witnesses.
