(* ===== verification/Typing.v ===== *)
(** * Typing: requests of the kind the device supports

    A light of the cache is a colour light (its [xy] is not [null]) or a
    temperature light; a configured colour is a hex colour (it starts with
    [#]) or a number.  [setDefaults] of both actions exists to make the two
    agree, and [onKeyUp] chooses [setXY] or [setTemperature] by the colour
    alone.  This file states the agreement as a typing of requests:
    [typed x e] says that the request [e] is of the kind the device [x]
    supports.

    [onKeyUp] tests for a [#] anywhere in the colour, [setDefaults] for a
    [#] in front.  A colour is [plain] when the two tests agree on it, as
    they do on every hex colour and every number.

    Theorems: after [setDefaults], a key press of the colour action makes a
    request of the kind of the device, for plain colours
    ([color_defaults_typed]); the requests of a round of the cycle action
    are all of the kind of the device when the colours are plain and of one
    kind ([cycle_round_typed]); a colour that is not plain is kept by
    [setDefaults] and sent as the wrong kind ([color_hash_inside]). *)

From Stdlib Require Import ZArith Lia String.
From stdpp Require Import base tactics strings gmap list.
From S2P Require Import Prelude JsString JsNumber ColorCodec Cache Host Key.
From S2P Require Import ColorAction CycleAction Rounds.

Section typing.
Context `{ColorSpace}.

(** The colour starts with [#]: the test of [setDefaults]. *)
Definition is_hex (col : string) : bool := String.eqb (charAt col 0) "#".

(** The tests of [onKeyUp] and of [setDefaults] agree on the colour. *)
Definition plain (col : string) : bool := Bool.eqb (includes col "#") (is_hex col).

(** The colour is of the kind the device supports. *)
Definition suits (x : lightCache) (col : string) : bool :=
  Bool.eqb (is_hex col) (has_xy x).

(** The request is of the kind the device supports. *)
Definition typed (x : lightCache) (e : effect) : bool :=
  match e with
  | SetXY _ _ _ => has_xy x
  | SetTemperature _ _ _ => negb (has_xy x)
  | _ => true
  end.

(** ** Colours *)

Lemma color_compatible_suits col x :
  ColorAction.compatible (Some col) x = suits x col.
Proof.
  unfold ColorAction.compatible, suits, is_hex.
  by destruct (String.eqb _ _), (has_xy x).
Qed.

Lemma cycle_compatible_suits col x : CycleAction.compatible col x = suits x col.
Proof.
  unfold CycleAction.compatible, suits, is_hex.
  by destruct (String.eqb _ _), (has_xy x).
Qed.

(** The defaults of both actions are plain and suit the device. *)
Lemma default_color_suits x :
  suits x (ColorAction.default_color x) = true
  ∧ plain (ColorAction.default_color x) = true.
Proof. unfold suits, ColorAction.default_color. destruct (has_xy x); by vm_compute. Qed.

Lemma default_colors_suit x :
  Forall (λ col, suits x col = true ∧ plain col = true)
    (CycleAction.default_colors x).
Proof.
  unfold suits, CycleAction.default_colors.
  destruct (has_xy x);
    repeat (apply Forall_cons_2; [by vm_compute | ]); apply Forall_nil_2.
Qed.

(** ** Requests *)

Lemma requests_cons e out : requests (e :: out) = requests [e] ++ requests out.
Proof. apply (filter_app _ [e] out). Qed.

Lemma requests_save action inContext st out :
  requests (SaveSettings action inContext st :: out) = requests out.
Proof. done. Qed.

Lemma color_request_typed inContext b l col o x :
  suits x col = true → plain col = true →
  typed x (ColorAction.request inContext b l col o x) = true.
Proof.
  unfold suits, plain, ColorAction.request.
  destruct (includes col "#"), (is_hex col); simpl; by destruct (has_xy x).
Qed.

Lemma cycle_request_typed inContext b l col o x :
  suits x col = true → plain col = true →
  typed x (CycleAction.request inContext b l col o x) = true.
Proof.
  unfold suits, plain, CycleAction.request.
  destruct (includes col "#"), (is_hex col); simpl; by destruct (has_xy x).
Qed.

(** C39. On a well-formed cache whose ids follow the naming convention, for
    a key of the colour action whose bridge and light are known and whose
    colour, if it has one, has its [#] in front or has none: [setDefaults]
    followed by a key press does not throw, leaves settings whose colour
    suits the device, and makes exactly one request, of the kind the device
    has (a colour for a device with [xy], a temperature for one
    without). *)
Theorem color_defaults_typed inContext (s : state unit) b l :
  cache_wf (the_cache s) → cache_named (the_cache s) →
  validate (λ _, Some tt) (the_cache s) (current (self s)) = inr (b, l, tt) →
  (∀ col, color (current (self s)) = Some col → plain col = true) →
  let out := (ColorAction.setDefaults ≫= λ _, ColorAction.onKeyUp inContext undefined) s in
  ∃ o x col e,
    (lights b ∪ groups b) !! l = Some o ∧ heap (the_cache s) !! o = Some x
    ∧ color (current (self (final out))) = Some col ∧ suits x col = true
    ∧ thrown out = None ∧ requests (emitted out) = [e] ∧ typed x e = true.
Proof.
  intros Hwf Hnamed Hv Hplain out. subst out.
  destruct (validate_inr _ _ _ _ _ _ Hv) as (bid & _ & Hb & _ & Hk & _).
  destruct (resolve_deref_agree _ _ _ _ Hwf Hnamed Hb Hk) as (o & x & Ho & Hx & Hd & Hd').
  exists o, x.
  rewrite run_bind, ColorAction.color_setDefaults_run.
  unfold ColorAction.setDefaults_spec. rewrite Hv, Hd'.
  destruct (color (current (self s))) as [col|] eqn:Hcol;
    [rewrite color_compatible_suits; destruct (suits x col) eqn:Hs | ].
  1: exists col, (ColorAction.request inContext b l col o x).
  2, 3: exists (ColorAction.default_color x),
          (ColorAction.request inContext b l (ColorAction.default_color x) o x).
  all: cbn [after ColorAction.compatible]; rewrite ColorAction.color_onKeyUp_run;
    unfold ColorAction.onKeyUp_spec; cbn [effective the_cache self current].
  1: rewrite (validate_with _ color _ _ _ _ _ _ col Hv eq_refl eq_refl Hcol).
  2, 3: rewrite (validate_with _ color _ _
                   (ColorAction.with_color (current (self s)) (ColorAction.default_color x))
                   _ _ _ (ColorAction.default_color x) Hv eq_refl eq_refl eq_refl).
  all: rewrite Hd; cbn [after final emitted thrown app self current color];
    rewrite ?requests_save, ?ColorAction.color_requests_request.
  - split_and!; auto using color_request_typed.
  - destruct (default_color_suits x). split_and!; auto using color_request_typed.
  - destruct (default_color_suits x). split_and!; auto using color_request_typed.
Qed.

(** In a round of the cycle action on colours that are plain and of
    the kind of the device, every key press makes a request of the kind the
    device supports, from any cursor. *)
Theorem cycle_round_typed inContext (s : state Z) b l cols o x j :
  validate colors (the_cache s) (current (self s)) = inr (b, l, cols) →
  resolve "l" b l ≫= (λ o, (o,.) <$> heap (the_cache s) !! o) = Some (o, x) →
  cols ≠ [] → -1 ≤ vars s →
  Forall (λ col, suits x col = true ∧ plain col = true) cols →
  ∃ s' out,
    presses inContext j s = Returned tt s' out
    ∧ length (requests out) = j ∧ Forall (λ e, typed x e = true) out.
Proof.
  intros Hv Hd Hcols Hcur Hall.
  destruct (presses_run inContext s b l cols o x j) as (s' & -> & _);
    [split; eauto | done.. | ].
  eexists _, _. split; [done | ]. split.
  - transitivity (length (seq 0 j)); [ | apply length_seq].
    generalize (seq 0 j). intros ks.
    induction ks as [|k ks IH]; [done | ]. rewrite fmap_cons.
    rewrite requests_cons, CycleAction.cycle_requests_request. simpl. by rewrite IH.
  - apply Forall_fmap, Forall_forall. intros k _. simpl.
    destruct (lookup_lt_is_Some_2 cols
                ((first_index (vars s) (length cols) + k) mod length cols))
      as [col Hcol]; [apply Nat.mod_upper_bound; by destruct cols | ].
    rewrite (list_lookup_total_correct _ _ _ Hcol).
    destruct (Forall_lookup_1 _ _ _ _ Hall Hcol). by apply cycle_request_typed.
Qed.

(** C36. A colour with a [#] that is not in front, on a temperature light:
    [setDefaults] takes it for a temperature and keeps it, [onKeyUp] takes
    it for a hex colour and asks the light for a colour. *)
Theorem color_hash_inside inContext (s : state unit) b l col o x :
  validate color (the_cache s) (current (self s)) = inr (b, l, col) →
  resolve "l" b l ≫= (λ o, (o,.) <$> heap (the_cache s) !! o) = Some (o, x) →
  resolve "l-" b l ≫= (λ o, (o,.) <$> heap (the_cache s) !! o) = Some (o, x) →
  has_xy x = false → is_hex col = false → includes col "#" = true →
  ColorAction.setDefaults s = Returned tt s []
  ∧ ∃ e, ColorAction.onKeyUp inContext undefined s = Returned tt s [e]
         ∧ typed x e = false.
Proof.
  intros Hv Hd Hd' Hx Hhex Hinc.
  destruct (validate_inr _ _ _ _ _ _ Hv) as (_ & _ & _ & _ & _ & Hcol).
  rewrite ColorAction.color_setDefaults_run, ColorAction.color_onKeyUp_run.
  unfold ColorAction.setDefaults_spec, ColorAction.onKeyUp_spec. cbn [effective].
  rewrite (validate_with _ (λ _, Some tt) _ _ _ _ _ _ tt Hv eq_refl eq_refl eq_refl).
  rewrite Hv, Hd, Hd', Hcol, color_compatible_suits. unfold suits.
  rewrite Hhex, Hx. split; [done | ]. eexists. split; [done | ].
  unfold ColorAction.request. by rewrite Hinc.
Qed.

End typing.

(** ** The theorems at the concrete installation *)

Section witnesses.
#[local] Existing Instance hex_space.
Import Demo.

Lemma color_defaults_typed_witness :
  let out := (ColorAction.setDefaults ≫= λ _, ColorAction.onKeyUp "key" undefined)
               (key ColorAction.untuned tt) in
  ∃ o x col e,
    (lights hub ∪ groups hub) !! "l-2" = Some o ∧ heap installation !! o = Some x
    ∧ color (current (self (final out))) = Some col ∧ suits x col = true
    ∧ thrown out = None ∧ requests (emitted out) = [e] ∧ typed x e = true.
Proof.
  exact (color_defaults_typed "key" (key ColorAction.untuned tt) hub "l-2"
           installation_wf installation_named eq_refl ltac:(discriminate)).
Defined.

Lemma cycle_round_typed_witness :
  ∃ s' out,
    presses "key" 4 (key CycleAction.rgb 1) = Returned tt s' out
    ∧ length (requests out) = 4%nat ∧ Forall (λ e, typed lamp e = true) out.
Proof.
  exact (cycle_round_typed "key" (key CycleAction.rgb 1) hub "l-1" _ 1%positive lamp 4
           eq_refl eq_refl ltac:(discriminate) ltac:(by vm_compute)
           (default_colors_suit lamp)).
Defined.

Lemma color_hash_inside_witness :
  let s := key (Settings (Some "hub") (Some "l-2") (Some "12#") None) tt in
  ColorAction.setDefaults s = Returned tt s []
  ∧ ∃ e, ColorAction.onKeyUp "key" undefined s = Returned tt s [e]
         ∧ typed bulb e = false.
Proof.
  exact (color_hash_inside "key"
           (key (Settings (Some "hub") (Some "l-2") (Some "12#") None) tt)
           hub "l-2" "12#" 2%positive bulb eq_refl eq_refl eq_refl eq_refl eq_refl eq_refl).
Defined.

End witnesses.
