(* ===== verification/EventLoop.v ===== *)
(** * EventLoop: one key under the host's event loop

    The host runs the handlers of a key one at a time, in any order: a key
    press calls [onKeyUp] with the context of the key; the transport answers
    one of the requests that are under way by calling its callback with the
    outcome; the discovery installs a new cache, and the host then calls
    [newCacheAvailable]; the property inspector replaces the settings.  The
    loop itself is not part of the sources; this file is the environment in
    which colorAction.js and cycleAction.js run, for any action behind the
    interface [KeyAction].  The two actions are behind it with every base
    action that is [Modest]; the theorems are evaluated with the plain base
    action ([Host.plain_base]), whose [newCacheAvailable] does nothing but
    call back.

    A configuration is the state the handlers see, the callbacks handed to
    the transport and not yet called ([pending]), and everything emitted so
    far ([trace]).  [step] is the relation between configurations, one rule
    per kind of event; [fire] is the same as a function, so that sequences of
    events can be evaluated.  A new cache keeps every object of the old store
    (an object lives as long as a callback refers to it) and may list
    entirely different objects in its tables.

    Theorems, for every lawful action and every sequence of events from the
    constructor on: the cache is well formed, the key keeps its context, the
    closure variables keep their invariant and every pending callback holds
    an object of the store ([loop_sound]); the callbacks make no request
    ([step_answered]), so that the key comes to rest when every request
    under way is answered ([loop_drains]); a request in flight is answered
    as it was made: its callback belongs to a request of the trace with
    the same value, and the answer writes that value to the object the key
    press resolved, whatever has happened to the cache and the settings
    since ([loop_in_flight]).  For the colour action with the plain base:
    the requests and the alerts of a run are as many as its key presses
    and the failures the bridge reported, so that no outcome is silent
    ([color_loop_outcomes]).  For the colour action: a key
    press returns in every configuration the loop reaches
    ([color_loop_keyUp_returns]).  For the cycle action: in every
    configuration the loop reaches, a key press with valid settings and at
    least one colour makes exactly one request, for one of the colours
    ([cycle_loop_keyUp_in_range]). *)

From Stdlib Require Import ZArith Lia String.
From stdpp Require Import base tactics strings gmap list.
From S2P Require Import Prelude JsString JsNumber ColorCodec Cache Host Key.
From S2P Require Import ColorAction CycleAction.

Section loop.
Context `{ColorSpace} {V : Type} {a : KeyAction V}.

Record config := Config {
  now : state V;
  pending : list closure;
  trace : list effect;
}.

Inductive event :=
  | KeyUp (inSettings : arg settings)
  | Answer (i : nat) (inSuccess : bool) (inError : string)
  | Install (fresh : cache)
  | Notify (inCallback : nat)
  | Configure (st : settings).

(** The configuration after a handler has run with outcome [o], the
    callbacks [rest] still pending from before. *)
Definition land (c : config) (rest : list closure)
    (o : outcome (state V) effect exn unit) : config :=
  Config (final o) (rest ++ closures (emitted o)) (trace c ++ emitted o).

(** A cache that the discovery may install in place of [c]. *)
Definition installs (c fresh : cache) : Prop :=
  cache_wf fresh ∧ dom (heap c) ⊆ dom (heap fresh).

#[global] Instance installs_dec c fresh : Decision (installs c fresh).
Proof. unfold installs. apply _. Defined.

Definition configured (st : settings) (s : state V) : state V :=
  State (the_cache s) (Instance (context (self s)) st) (vars s).

Definition fire (e : event) (c : config) : option config :=
  let s := now c in
  match e with
  | KeyUp inSettings =>
      Some (land c (pending c) (keyUp (context (self s)) inSettings s))
  | Answer i inSuccess inError =>
      k ← pending c !! i;
      Some (land c (delete i (pending c)) (answer k inSuccess inError s))
  | Install fresh =>
      if decide (installs (the_cache s) fresh)
      then Some (Config (State fresh (self s) (vars s)) (pending c) (trace c))
      else None
  | Notify inCallback => Some (land c (pending c) (refreshed inCallback s))
  | Configure st => Some (Config (configured st s) (pending c) (trace c))
  end.

Fixpoint fires (evs : list event) (c : config) : option config :=
  match evs with
  | [] => Some c
  | e :: evs => fire e c ≫= fires evs
  end.

Inductive step (c : config) : event → config → Prop :=
  | step_keyUp inSettings :
      step c (KeyUp inSettings)
        (land c (pending c) (keyUp (context (self (now c))) inSettings (now c)))
  | step_answer i k inSuccess inError :
      pending c !! i = Some k →
      step c (Answer i inSuccess inError)
        (land c (delete i (pending c)) (answer k inSuccess inError (now c)))
  | step_install fresh :
      installs (the_cache (now c)) fresh →
      step c (Install fresh)
        (Config (State fresh (self (now c)) (vars (now c))) (pending c) (trace c))
  | step_notify inCallback :
      step c (Notify inCallback) (land c (pending c) (refreshed inCallback (now c)))
  | step_configure st :
      step c (Configure st) (Config (configured st (now c)) (pending c) (trace c)).

Inductive steps : config → list event → config → Prop :=
  | steps_nil c : steps c [] c
  | steps_cons c e c1 evs c2 :
      step c e c1 → steps c1 evs c2 → steps c (e :: evs) c2.

(** The key as the constructor leaves it. *)
Definition boot (ctx : string) (st : settings) (s0 : state V) : config :=
  land (Config s0 [] []) [] (create ctx st s0).

(** What holds of every configuration of the key with context [ctx]. *)
Definition sound (ctx : string) (c : config) : Prop :=
  cache_wf (the_cache (now c)) ∧ context (self (now c)) = ctx
  ∧ good (vars (now c)) ∧ Forall (held (the_cache (now c)) ctx) (pending c).

(** Every callback that is pending was handed out with a request of the
    trace, in the order of the requests, and every request of the trace
    asks for the value its callback holds. *)
Definition faithful (c : config) : Prop :=
  pending c `sublist_of` closures (trace c) ∧ Forall coherent (trace c).

Definition is_press (e : event) : bool :=
  match e with KeyUp _ => true | _ => false end.

(** The transport reports the failure of a request. *)
Definition is_refusal (e : event) : bool :=
  match e with Answer _ false _ => true | _ => false end.

(** A cache that the discovery installs follows the naming convention. *)
Definition conventional (e : event) : Prop :=
  match e with Install fresh => cache_named fresh | _ => True end.

Definition is_answer (e : event) : bool :=
  match e with Answer _ _ _ => true | _ => false end.

(** The number of answers among the events. *)
Definition answers (evs : list event) : nat := length (filter is_answer evs).

(** The callbacks handed out less the callbacks pending. *)
Definition balance (c : config) : Z :=
  Z.of_nat (length (closures (trace c))) - Z.of_nat (length (pending c)).

(** The transport answers the oldest request with each of the outcomes
    [rs] in turn. *)
Definition settle (rs : list (bool * string)) : list event :=
  (λ r, Answer 0 r.1 r.2) <$> rs.

(** ** The relation and the function *)

Lemma step_fire c e c' : step c e c' ↔ fire e c = Some c'.
Proof.
  split.
  - intros [i|i k ok err Hk|fresh Hin|cb|st]; simpl;
      [done | by rewrite Hk | by rewrite decide_True | done..].
  - destruct e as [i|i ok err|fresh|cb|st]; simpl.
    + intros [= <-]. constructor.
    + destruct (pending c !! i) eqn:Hk; [|done]. intros [= <-]. by constructor.
    + case_decide; [|done]. intros [= <-]. by constructor.
    + intros [= <-]. constructor.
    + intros [= <-]. constructor.
Qed.

Lemma steps_fires c evs c' : steps c evs c' ↔ fires evs c = Some c'.
Proof.
  split.
  - induction 1 as [|c e c1 evs c2 Hstep _ IH]; [done | ].
    apply step_fire in Hstep. simpl. by rewrite Hstep.
  - revert c. induction evs as [|e evs IH]; intros c; simpl.
    + intros [= <-]. constructor.
    + destruct (fire e c) as [c1|] eqn:Hfire; [|done]. intros Hc'.
      apply step_fire in Hfire. econstructor; eauto.
Qed.

Lemma steps_app c evs1 c1 evs2 c2 :
  steps c evs1 c1 → steps c1 evs2 c2 → steps c (evs1 ++ evs2) c2.
Proof. induction 1; simpl; [done | econstructor; eauto]. Qed.

(** ** Invariants *)

Context {law : Lawful a}.

Lemma boot_sound ctx st s0 : cache_wf (the_cache s0) → sound ctx (boot ctx st s0).
Proof.
  intros Hwf. destruct (create_sound ctx st s0) as (Hc & Hctx & Hgood & Hk).
  unfold sound, boot, land; simpl. rewrite Hc, Hk. by split_and!.
Qed.

Lemma step_sound ctx c e c' : sound ctx c → step c e c' → sound ctx c'.
Proof.
  intros (Hwf & <- & Hgood & Hheld)
    [i|i k ok err Hk|fresh [Hfresh Hdom]|cb|st]; unfold sound, land; simpl.
  - destruct (keyUp_sound (context (self (now c))) i (now c)) as (-> & -> & ? & Hnew).
    split_and!; auto. by apply Forall_app.
  - destruct (answer_sound k ok err (now c)) as (-> & Hdata & Hheap & ? & ->).
    rewrite (right_id_L [] (++)). split_and!; auto.
    + eapply cache_wf_dom; [done | by rewrite Hheap | done].
    + eapply Forall_impl; [by apply Forall_delete | ].
      intros k'. apply held_dom. by rewrite Hheap.
  - split_and!; auto. eapply Forall_impl; [done | ]. intros k'. by apply held_dom.
  - destruct (refreshed_sound cb (now c)) as (-> & -> & ? & ->).
    rewrite (right_id_L [] (++)). split_and!; auto.
  - by split_and!.
Qed.

Lemma steps_sound ctx c evs c' : sound ctx c → steps c evs c' → sound ctx c'.
Proof. intros Hc Hsteps. induction Hsteps; eauto using step_sound. Qed.

Lemma boot_balance ctx st s0 : balance (boot ctx st s0) = 0.
Proof.
  destruct (create_sound ctx st s0) as (_ & _ & _ & Hk).
  unfold balance, boot, land; simpl. by rewrite Hk.
Qed.

Lemma step_balance c e c' :
  step c e c' → balance c' = balance c + if is_answer e then 1 else 0.
Proof.
  intros [i|i k ok err Hk|fresh _|cb|st]; unfold balance, land; simpl;
    rewrite ?closures_app, ?length_app.
  - lia.
  - destruct (answer_sound k ok err (now c)) as (_ & _ & _ & _ & ->).
    rewrite length_delete by eauto. apply lookup_lt_Some in Hk. simpl. lia.
  - lia.
  - destruct (refreshed_sound cb (now c)) as (_ & _ & _ & ->). simpl. lia.
  - lia.
Qed.

Lemma steps_balance c evs c' :
  steps c evs c' → balance c' = balance c + Z.of_nat (answers evs).
Proof.
  unfold answers. induction 1 as [c|c e c1 evs c2 Hstep _ IH]; [simpl; lia | ].
  rewrite IH, (step_balance _ _ _ Hstep), filter_cons.
  destruct e; simpl; lia.
Qed.

(** ** Answers alone *)

Lemma requests_nil out : closures out = [] → requests out = [].
Proof. intros Hk. apply length_zero_iff_nil. by rewrite <- closures_requests, Hk. Qed.

(** An answer takes one callback from the pending ones and adds no
    request. *)
Lemma step_answered c i inSuccess inError c' :
  step c (Answer i inSuccess inError) c' →
  S (length (pending c')) = length (pending c)
  ∧ requests (trace c') = requests (trace c).
Proof.
  intros Hstep. inversion Hstep as [|? k ? ? Hk| | |]; subst.
  destruct (answer_sound k inSuccess inError (now c)) as (_ & _ & _ & _ & Hnone).
  unfold land, requests; simpl. rewrite Hnone, (right_id_L [] (++)), filter_app.
  fold (requests (emitted (answer k inSuccess inError (now c)))).
  rewrite (requests_nil _ Hnone), (right_id_L [] (++)).
  rewrite length_delete by eauto. apply lookup_lt_Some in Hk. split; [lia | done].
Qed.

Lemma settle_steps rs c :
  length rs = length (pending c) →
  ∃ c', steps c (settle rs) c' ∧ pending c' = []
        ∧ requests (trace c') = requests (trace c).
Proof.
  revert c. induction rs as [|[ok err] rs IH]; intros c Hlen; simpl in Hlen.
  - exists c. split_and!; [constructor | by apply length_zero_iff_nil | done].
  - destruct (pending c) as [|k ks] eqn:Hp; [done | ].
    assert (step c (Answer 0 ok err) (land c (delete 0%nat (pending c)) (answer k ok err (now c))))
      as Hstep by (apply step_answer; by rewrite Hp).
    destruct (step_answered _ _ _ _ _ Hstep) as [Hlen' Hreq].
    destruct (IH (land c (delete 0%nat (pending c)) (answer k ok err (now c))))
      as (c' & Hsteps & Hnil & Hreq').
    { simpl. rewrite Hp in Hlen' |- *. simpl in *. lia. }
    exists c'. split_and!; [by econstructor | done | by rewrite Hreq', Hreq].
Qed.

Lemma step_named c e c' :
  cache_named (the_cache (now c)) → conventional e → step c e c' →
  cache_named (the_cache (now c')).
Proof.
  intros Hnamed He Hstep. revert He.
  destruct Hstep as [i|i k ok err Hk|fresh _|cb|st]; intros He; unfold land;
    cbn [now the_cache]; try done.
  - by destruct (keyUp_sound (context (self (now c))) i (now c)) as (-> & _).
  - destruct (answer_sound k ok err (now c)) as (_ & Hd & _). by eapply cache_named_data.
  - by destruct (refreshed_sound cb (now c)) as (-> & _).
Qed.

(** ** Requests in flight *)

(** Effects that carry no callback are coherent. *)
Lemma coherent_quiet out : closures out = [] → Forall coherent out.
Proof.
  intros Hout. apply Forall_forall. intros e He.
  destruct (closure_of e) as [k|] eqn:Hk; [ | by destruct e].
  assert (k ∈ closures out) as Hin by (apply list_elem_of_omap; eauto).
  rewrite Hout in Hin. by apply elem_of_nil in Hin.
Qed.

Lemma faithful_land c rest o :
  faithful c → rest `sublist_of` pending c → Forall coherent (emitted o) →
  faithful (land c rest o).
Proof.
  intros [Hsub Hco] Hrest Hout. unfold land. split; cbn [pending trace].
  - rewrite closures_app. apply sublist_app; [by etrans | done].
  - by apply Forall_app.
Qed.

Lemma boot_faithful ctx st s0 : faithful (boot ctx st s0).
Proof.
  destruct (create_sound ctx st s0) as (_ & _ & _ & Hnone).
  apply faithful_land; [by split | done | by apply coherent_quiet].
Qed.

Lemma step_faithful c e c' : faithful c → step c e c' → faithful c'.
Proof.
  intros Hc [i|i k ok err Hk|fresh _|cb|st]; try done.
  - apply faithful_land; [done.. | apply keyUp_coherent].
  - destruct (answer_sound k ok err (now c)) as (_ & _ & _ & _ & Hnone).
    apply faithful_land; [done | apply sublist_delete | by apply coherent_quiet].
  - destruct (refreshed_sound cb (now c)) as (_ & _ & _ & Hnone).
    apply faithful_land; [done.. | by apply coherent_quiet].
Qed.

Lemma steps_faithful c evs c' : faithful c → steps c evs c' → faithful c'.
Proof. intros Hc Hsteps. induction Hsteps; eauto using step_faithful. Qed.

(** The request that handed out the callback [k]. *)
Lemma faithful_request c i k :
  faithful c → pending c !! i = Some k →
  ∃ e, e ∈ trace c ∧ closure_of e = Some k ∧ coherent e.
Proof.
  intros [Hsub Hco] Hk%list_elem_of_lookup_2.
  apply (elem_of_sublist _ _ _ Hk), list_elem_of_omap in Hsub as (e & He & Hke).
  exists e. split_and!; [done.. | ]. by apply (proj1 (Forall_forall _ _) Hco).
Qed.

(** The answer to the request with the callback [k]. *)
Lemma answer_lands c i k inSuccess inError :
  pending c !! i = Some k →
  let c' := land c (delete i (pending c)) (answer k inSuccess inError (now c)) in
  step c (Answer i inSuccess inError) c'
  ∧ pending c' = delete i (pending c) ∧ self (now c') = self (now c)
  ∧ the_cache (now c')
    = if inSuccess then written k (the_cache (now c)) else the_cache (now c).
Proof.
  intros Hk c'. subst c'. split; [by apply step_answer | ].
  destruct (answer_sound k inSuccess inError (now c)) as (Hself & _ & _ & _ & Hnone).
  unfold land. cbn [pending now]. rewrite Hnone, (right_id_L [] (++)).
  split_and!; [done.. | ].
  destruct inSuccess; [apply answer_writes | by rewrite answer_fails].
Qed.

(** ** What holds under every order of events *)

(** C13. Whatever the host does with the key of a lawful action, in whatever
    order -- key presses, answers of the transport to requests under way,
    new caches, changes of settings -- the cache stays well formed, the key
    keeps its context, the closure variables keep their invariant, and every
    callback that is still to be called holds an object of the store and the
    context of the key. *)
Theorem loop_sound ctx st s0 evs c :
  cache_wf (the_cache s0) → steps (boot ctx st s0) evs c → sound ctx c.
Proof. intros Hwf. apply steps_sound. by apply boot_sound. Qed.

(** C19. From every configuration, when the transport answers each request
    that is under way, with whatever outcome, every callback is called,
    none is left pending, and no request has been added: the key comes to
    rest. *)
Theorem loop_drains ctx st s0 evs c rs :
  steps (boot ctx st s0) evs c → length rs = length (pending c) →
  ∃ c', steps (boot ctx st s0) (evs ++ settle rs) c' ∧ pending c' = []
        ∧ requests (trace c') = requests (trace c)
        ∧ length (requests (trace c')) = answers (evs ++ settle rs).
Proof.
  intros Hsteps Hlen. destruct (settle_steps rs c Hlen) as (c' & Hrs & Hnil & Hreq).
  exists c'. pose proof (steps_app _ _ _ _ _ Hsteps Hrs) as Hall.
  split_and!; [done.. | ].
  pose proof (steps_balance _ _ _ Hall) as Hb.
  rewrite boot_balance in Hb. unfold balance in Hb.
  rewrite closures_requests, Hnil in Hb. simpl in Hb. lia.
Qed.

(** C17. A request in flight is answered as it was made.  Whatever the host
    has done since the key press -- other key presses, answers to other
    requests, new caches, notices, changes of settings -- a callback that
    is pending belongs to a request of the trace that asked for the value
    the callback holds; and when the transport answers, with success the
    cache is the cache of that moment with that value written to the
    object the key press resolved, with failure it is unchanged; the
    settings are not read again, and the instance stays as it is. *)
Theorem loop_in_flight ctx st s0 evs c i k :
  steps (boot ctx st s0) evs c → pending c !! i = Some k →
  (∃ e, e ∈ trace c ∧ closure_of e = Some k ∧ coherent e)
  ∧ ∀ inSuccess inError, ∃ c',
      step c (Answer i inSuccess inError) c'
      ∧ pending c' = delete i (pending c) ∧ self (now c') = self (now c)
      ∧ the_cache (now c')
        = if inSuccess then written k (the_cache (now c)) else the_cache (now c).
Proof.
  intros Hsteps Hk. pose proof (steps_faithful _ _ _ (boot_faithful ctx st s0) Hsteps).
  split; [by eapply faithful_request | ]. intros ok err.
  eexists. by apply answer_lands.
Qed.

End loop.

Arguments config {_} V.
Arguments event {_}.

(** ** The colour action under the loop *)

Section color_loop.
Context `{ColorSpace} {base : ActionBase unit} `{!Modest base}.
Import ColorAction.

(** In every configuration the loop reaches from a new colour key, on a
    cache whose ids follow the naming convention, a key press returns,
    whatever the settings: it changes nothing, and it has either alerted
    once or made one request. *)
Theorem color_loop_keyUp_returns ctx st s0 evs (c : config unit) inSettings :
  cache_wf (the_cache s0) → steps (boot ctx st s0) evs c →
  cache_named (the_cache (now c)) →
  ∃ out, onKeyUp ctx inSettings (now c) = Returned tt (now c) out
       ∧ (length (requests out) + length (alerts out) = 1)%nat.
Proof.
  intros Hwf Hsteps Hnamed.
  destruct (steps_sound ctx _ _ _ (boot_sound ctx st s0 Hwf) Hsteps) as (Hwf' & _).
  by apply color_onKeyUp_returns.
Qed.

End color_loop.

(** ** Every outcome of the colour action is shown *)

Section color_outcomes.
Context `{ColorSpace}.
#[local] Existing Instance plain_base.
Import ColorAction.
Implicit Types (c : config unit) (out : list effect).

(** The requests and the alerts among the effects. *)
Definition shown (out : list effect) : nat :=
  (length (requests out) + length (alerts out))%nat.

Lemma shown_app out1 out2 : shown (out1 ++ out2) = (shown out1 + shown out2)%nat.
Proof. unfold shown, requests, alerts. rewrite !filter_app, !length_app. lia. Qed.

Lemma color_setDefaults_shown (s : state unit) : shown (emitted (setDefaults s)) = 0%nat.
Proof. rewrite color_setDefaults_run. unfold setDefaults_spec. by repeat case_match. Qed.

Lemma boot_shown ctx st (s0 : state unit) : shown (trace (boot ctx st s0)) = 0%nat.
Proof.
  unfold boot, land. cbn [trace create color_key app].
  rewrite color_constructor_plain. apply color_setDefaults_shown.
Qed.

(** A key press shows one outcome, a refusal of the bridge one alert, and
    nothing else shows anything. *)
Lemma step_shown c e c' :
  cache_wf (the_cache (now c)) → cache_named (the_cache (now c)) → step c e c' →
  shown (trace c')
  = (shown (trace c) + (if is_press e then 1 else 0) + (if is_refusal e then 1 else 0))%nat.
Proof.
  intros Hwf Hnamed [i|i k [] err Hk|fresh _|cb|st]; unfold land; cbn [trace];
    rewrite ?shown_app; cbn [keyUp answer refreshed color_key is_press is_refusal];
    try lia.
  - destruct (color_onKeyUp_returns (context (self (now c))) i (now c) Hwf Hnamed)
      as (out & -> & Hout). fold (shown out) in Hout. cbn [emitted]. lia.
  - rewrite color_complete_success. change (shown (emitted _)) with 0%nat. lia.
  - rewrite color_complete_failure. change (shown (emitted _)) with 1%nat. lia.
  - unfold newCacheAvailable. cbn [actionNewCacheAvailable plain_base].
    rewrite run_bind. pose proof (color_setDefaults_shown (now c)) as Hs.
    destruct (setDefaults (now c)); simpl in *; rewrite ?shown_app, ?Hs;
      unfold shown; simpl; lia.
Qed.

Lemma steps_shown ctx c evs c' :
  sound ctx c → cache_named (the_cache (now c)) → Forall conventional evs →
  steps c evs c' →
  shown (trace c')
  = (shown (trace c) + length (filter is_press evs) + length (filter is_refusal evs))%nat.
Proof.
  intros Hc Hnamed Hevs Hsteps. revert Hc Hnamed Hevs.
  induction Hsteps as [c|c e c1 evs c2 Hstep _ IH]; intros Hc Hnamed Hevs; [simpl; lia | ].
  apply Forall_cons in Hevs as [He Hevs]. pose proof Hc as (Hwf & _).
  rewrite (IH (step_sound _ _ _ _ Hc Hstep) (step_named _ _ _ Hnamed He Hstep) Hevs).
  rewrite (step_shown c e c1 Hwf Hnamed Hstep), !filter_cons.
  destruct (is_press e), (is_refusal e); simpl; lia.
Qed.

(** C27. No outcome of the colour action is silent.  With the plain base
    action ([plain_base], the base class as the specification describes
    it), for a key created on a well-formed cache whose ids follow the naming convention, with any
    settings, and whatever happens in whatever order -- key presses with
    any settings, answers, changes of settings, notices, and new caches
    that follow the convention -- the requests made and the alerts shown
    are as many as the key presses and the failures the bridge reported:
    every key press either asks the bridge or alerts, every failure
    reported is alerted, and no alert has another cause. *)
Theorem color_loop_outcomes ctx st (s0 : state unit) evs c :
  cache_wf (the_cache s0) → cache_named (the_cache s0) → Forall conventional evs →
  steps (boot ctx st s0) evs c →
  shown (trace c) = (length (filter is_press evs) + length (filter is_refusal evs))%nat.
Proof.
  intros Hwf Hnamed Hevs Hsteps.
  assert (cache_named (the_cache (now (boot ctx st s0)))) as Hnamed'.
  { destruct (create_sound (a := color_key) ctx st s0) as (Hc & _).
    unfold boot, land. cbn [now]. by rewrite Hc. }
  by rewrite (steps_shown ctx _ _ _ (boot_sound ctx st s0 Hwf) Hnamed' Hevs Hsteps),
    boot_shown.
Qed.

End color_outcomes.

(** ** The cycle action under the loop *)

Section cycle_loop.
Context `{ColorSpace} {base : ActionBase Z} `{!Modest base}.
Import CycleAction.

(** With a well-formed cache and a cursor not below -1, the key press
    makes one request, for one of the colours. *)
Lemma cycle_keyUp_in_range ctx (s : state Z) inSettings b l cols :
  cache_wf (the_cache s) → -1 ≤ vars s →
  cache_named (the_cache s) → inSettings ≠ null →
  validate colors (the_cache s) (effective inSettings s) = inr (b, l, cols) →
  cols ≠ [] →
  ∃ col o x s',
    col ∈ cols ∧ (lights b ∪ groups b) !! l = Some o
    ∧ heap (the_cache s) !! o = Some x
    ∧ onKeyUp ctx inSettings s = Returned tt s' [request ctx b l col o x].
Proof.
  intros Hwf Hgood Hnamed Hnull Hv Hcols.
  destruct (validate_inr _ _ _ _ _ _ Hv) as (bid & _ & Hb & _ & Hk & _).
  destruct (resolve_deref_agree _ _ _ _ Hwf Hnamed Hb Hk) as (o & x & Ho & Hx & Hd & _).
  destruct (cycle_onKeyUp_sends_next ctx inSettings s b l cols o x
              Hnull Hv Hd Hgood Hcols) as (col & Hcol & Hrun).
  exists col, o, x. eexists. split_and!; [ | done | done | exact Hrun].
  unfold lookupZ in Hcol. case_bool_decide; [|done]. by eapply list_elem_of_lookup_2.
Qed.

(** C4. In every configuration the loop reaches from a new cycle key, a key
    press with valid settings and at least one colour, on a cache whose ids
    follow the naming convention, returns with exactly one request, for one
    of the colours, to the object the id names: the cursor never leads
    past the end of the colours, whatever answers, new caches and changes
    of settings came before. *)
Theorem cycle_loop_keyUp_in_range ctx st s0 evs (c : config Z) inSettings b l cols :
  cache_wf (the_cache s0) → steps (boot ctx st s0) evs c →
  cache_named (the_cache (now c)) → inSettings ≠ null →
  validate colors (the_cache (now c)) (effective inSettings (now c))
    = inr (b, l, cols) →
  cols ≠ [] →
  ∃ col o x s',
    col ∈ cols ∧ (lights b ∪ groups b) !! l = Some o
    ∧ heap (the_cache (now c)) !! o = Some x
    ∧ onKeyUp ctx inSettings (now c)
      = Returned tt s' [request ctx b l col o x].
Proof.
  intros Hwf Hsteps.
  destruct (steps_sound ctx _ _ _ (boot_sound ctx st s0 Hwf) Hsteps)
    as (Hwf' & _ & Hgood & _).
  by apply cycle_keyUp_in_range.
Qed.

End cycle_loop.

(** ** The theorems at the concrete installation *)

Section witnesses.
#[local] Existing Instance hex_space.
#[local] Existing Instance plain_base.
#[local] Existing Instance ColorAction.color_key.
#[local] Existing Instance ColorAction.color_lawful.
Import Demo CycleAction.

(** Two key presses, the answer to the second, a change to one colour, the
    answer to the first, and a new cache. *)
Definition busy_events : list event :=
  [KeyUp undefined; KeyUp undefined; Answer 1 true "";
   Configure (Settings (Some "hub") (Some "l-1") None (Some ["#00ff00"]));
   Answer 0 true ""; Install installation; Notify 0].

Definition busy : config Z :=
  default (boot "key" rgb (key rgb 7)) (fires busy_events (boot "key" rgb (key rgb 7))).

Lemma busy_steps : steps (boot "key" rgb (key rgb 7)) busy_events busy.
Proof. by apply steps_fires. Qed.

Lemma loop_sound_witness : sound "key" busy.
Proof.
  exact (loop_sound "key" rgb (key rgb 7) busy_events busy installation_wf busy_steps).
Defined.

Lemma cycle_loop_keyUp_in_range_witness :
  ∃ col o x s',
    col ∈ ["#00ff00"] ∧ (lights hub ∪ groups hub) !! "l-1" = Some o
    ∧ heap (the_cache (now busy)) !! o = Some x
    ∧ onKeyUp "key" undefined (now busy)
      = Returned tt s' [request "key" hub "l-1" col o x].
Proof.
  exact (cycle_loop_keyUp_in_range "key" rgb (key rgb 7) busy_events busy undefined
           hub "l-1" _ installation_wf busy_steps installation_named
           ltac:(discriminate) eq_refl ltac:(discriminate)).
Defined.

(** Two key presses, neither answered yet. *)
Definition waiting_events : list event := [KeyUp undefined; KeyUp undefined].

Definition waiting : config Z :=
  default (boot "key" rgb (key rgb 7)) (fires waiting_events (boot "key" rgb (key rgb 7))).

Lemma waiting_steps : steps (boot "key" rgb (key rgb 7)) waiting_events waiting.
Proof. by apply steps_fires. Qed.

Lemma loop_drains_witness :
  let rs := [(true, ""); (false, "timeout")] in
  ∃ c', steps (boot "key" rgb (key rgb 7)) (waiting_events ++ settle rs) c'
        ∧ pending c' = [] ∧ requests (trace c') = requests (trace waiting)
        ∧ length (requests (trace c')) = answers (waiting_events ++ settle rs).
Proof.
  exact (loop_drains "key" rgb (key rgb 7) waiting_events waiting
           [(true, ""); (false, "timeout")] waiting_steps eq_refl).
Defined.

(** A key press of the colour action and its answer. *)
Definition painted_events : list event := [KeyUp undefined; Answer 0 true ""].

Definition painted : config unit :=
  default (boot "key" ColorAction.red (key ColorAction.red tt))
    (fires painted_events (boot "key" ColorAction.red (key ColorAction.red tt))).

Lemma painted_steps :
  steps (boot "key" ColorAction.red (key ColorAction.red tt)) painted_events painted.
Proof. by apply steps_fires. Qed.

Lemma color_loop_keyUp_returns_witness :
  ∃ out, ColorAction.onKeyUp "key" undefined (now painted)
           = Returned tt (now painted) out
       ∧ (length (requests out) + length (alerts out) = 1)%nat.
Proof.
  exact (color_loop_keyUp_returns "key" ColorAction.red (key ColorAction.red tt)
           painted_events painted undefined installation_wf painted_steps
           ltac:(by apply (bool_decide_unpack _); vm_compute)).
Defined.

(** ** A new cache between a request and its answer *)

(** The discovery lists a new object for the light. *)
Definition renewed : cache :=
  Cache (<[4%positive := lamp]> (heap installation))
        {[ "hub" := BridgeCache "10.0.0.2" "001788fffe" "stream-deck"
                      {[ "l-1" := 4%positive; "l-2" := 2%positive ]}
                      {[ "g-7" := 3%positive ]} ]}.

(** A request is made, the discovery installs a cache with a new object for
    the light, and the bridge confirms the request: the callback writes the
    colour to the object it resolved, which the cache no longer lists; the
    object the cache lists keeps the old colour, and the cursor advances. *)
Example cycle_answer_after_refresh :
  ∃ c, fires [KeyUp undefined; Install renewed; Notify 0; Answer 0 true ""]
         (boot "key" rgb (key rgb 7)) = Some c
    ∧ obj_xy <$> heap (the_cache (now c)) !! 1%positive = Some (Some "#ff0000")
    ∧ (lights <$> data (the_cache (now c)) !! "hub") = Some {[ "l-1" := 4%positive; "l-2" := 2%positive ]}
    ∧ obj_xy <$> heap (the_cache (now c)) !! 4%positive = Some (Some "#000000")
    ∧ vars (now c) = 0 ∧ pending c = [].
Proof. eexists. split; [reflexivity | done]. Qed.

(** A key press, a key press without settings, a refusal of the bridge, a
    new cache with its notice, and a key press. *)
Definition mixed_events : list event :=
  [KeyUp undefined; KeyUp (given ColorAction.unset); Answer 0 false "busy";
   Install renewed; Notify 0; KeyUp undefined].

Definition mixed : config unit :=
  default (boot "key" ColorAction.red (key ColorAction.red tt))
    (fires mixed_events (boot "key" ColorAction.red (key ColorAction.red tt))).

Lemma mixed_steps :
  steps (boot "key" ColorAction.red (key ColorAction.red tt)) mixed_events mixed.
Proof. by apply steps_fires. Qed.

Lemma mixed_conventional : Forall conventional mixed_events.
Proof.
  repeat apply Forall_cons_2; try apply Forall_nil_2; try exact I.
  apply (bool_decide_unpack _). by vm_compute.
Qed.

Lemma color_loop_outcomes_witness :
  shown (trace mixed)
  = (length (filter is_press mixed_events) + length (filter is_refusal mixed_events))%nat.
Proof.
  exact (color_loop_outcomes "key" ColorAction.red (key ColorAction.red tt)
           mixed_events mixed installation_wf installation_named
           mixed_conventional mixed_steps).
Defined.

(** Two requests and two alerts: one for the missing bridge, one for the
    refusal. *)
Example mixed_outcomes :
  length (requests (trace mixed)) = 2%nat
  ∧ alerts (trace mixed) = [ShowAlert "key"; ShowAlert "key"].
Proof. split; reflexivity. Qed.

(** A request is made; before the answer the discovery installs the new
    cache, the host gives notice and the settings are replaced. *)
Definition flying_events : list event :=
  [KeyUp undefined; Install renewed; Notify 0; Configure kelvins].

Definition flying : config Z :=
  default (boot "key" rgb (key rgb 7)) (fires flying_events (boot "key" rgb (key rgb 7))).

Lemma flying_steps : steps (boot "key" rgb (key rgb 7)) flying_events flying.
Proof. by apply steps_fires. Qed.

Lemma loop_in_flight_witness :
  let k := OnXY 1%positive "#ff0000" "key" in
  (∃ e, e ∈ trace flying ∧ closure_of e = Some k ∧ coherent e)
  ∧ ∀ inSuccess inError, ∃ c',
      step flying (Answer 0 inSuccess inError) c'
      ∧ pending c' = delete 0%nat (pending flying) ∧ self (now c') = self (now flying)
      ∧ the_cache (now c')
        = if inSuccess then written k (the_cache (now flying))
          else the_cache (now flying).
Proof.
  exact (loop_in_flight "key" rgb (key rgb 7) flying_events flying 0
           (OnXY 1%positive "#ff0000" "key") flying_steps eq_refl).
Defined.

End witnesses.
