(* ===== verification/Variants.v ===== *)
(** * Variants: what the two actions share

    cycleAction.js is colorAction.js with a sequence in the place of the
    colour: the five checks, the choice between lights and groups, the test
    for [#] and the callbacks are the same lines.  This file compares the
    two under the event loop.  A cycle key whose sequence is one hex colour
    does what a colour key with that colour does: [alike] relates the
    configurations of the two keys (the same cache, instance, pending
    callbacks and effects so far), [common] are the events on which the
    two are compared (a key press with settings that hold a hex colour and
    that colour as the only entry of the sequence, an answer of the
    transport, a new cache, a change of settings), and
    [cycle_single_simulates] shows that every run of the colour key on such
    events is a run of the cycle key, step by step.

    The two differ where the files differ: in the message of the last
    check, in the conversion of a temperature (percent against Kelvin,
    [temperatures_differ]), in [null] settings, and in what [setDefaults]
    assigns; so the notice of a new cache is not among the common events. *)

From Stdlib Require Import ZArith Lia String.
From stdpp Require Import base tactics strings gmap list.
From S2P Require Import Prelude JsString JsNumber ColorCodec Cache Host Key.
From S2P Require Import ColorAction CycleAction EventLoop.

#[local] Open Scope Z_scope.

Section variants.
Context `{ColorSpace} {color_base : ActionBase unit} {cycle_base : ActionBase Z}.
Implicit Types (c : config unit) (st : settings) (e : event).

#[local] Abbreviation color_key := (ColorAction.color_key (base := color_base)).
#[local] Abbreviation cycle_key := (CycleAction.cycle_key (base := cycle_base)).

(** The settings hold a hex colour, and that colour as the only entry of
    the sequence. *)
Definition single (st : settings) : bool :=
  match color st, colors st with
  | Some col, Some [col'] => bool_decide (col' = col) && includes col "#"
  | _, _ => false
  end.

(** The events on which the two keys are compared, for a key whose own
    settings are [own]. *)
Definition common (own : settings) (e : event) : bool :=
  match e with
  | KeyUp (given st) => single st
  | KeyUp undefined => single own
  | KeyUp null => false
  | Answer _ _ _ | Install _ | Configure _ => true
  | Notify _ => false
  end.

(** The events are common, one after the other, in the run of the colour
    key from [c]. *)
Fixpoint common_run (evs : list event) (c : config unit) : bool :=
  match evs with
  | [] => true
  | e :: evs =>
      common (current (self (now c))) e
      && from_option (common_run evs) false (fire (a := color_key) e c)
  end.

(** A colour key and a cycle key that have done the same. *)
Record alike (c : config unit) (c' : config Z) : Prop := Alike {
  alike_cache : the_cache (now c') = the_cache (now c);
  alike_self : self (now c') = self (now c);
  alike_cursor : -1 ≤ vars (now c');
  alike_pending : pending c' = pending c;
  alike_trace : trace c' = trace c;
}.

(** ** One key press *)

Lemma single_inv st :
  single st = true →
  ∃ col, color st = Some col ∧ colors st = Some [col] ∧ includes col "#" = true.
Proof.
  unfold single. destruct (color st) as [col|]; [ | done].
  destruct (colors st) as [[|col' [|]]|]; try done.
  intros [->%bool_decide_eq_true ?]%andb_true_iff. eauto.
Qed.

(** The checks of the two actions fail and pass together. *)
Lemma validate_single (d : cache) st col :
  color st = Some col → colors st = Some [col] →
  validate colors d st
  = match validate color d st with
    | inl e => inl e
    | inr (b, l, _) => inr (b, l, [col])
    end.
Proof. intros Hcol Hcols. unfold validate. rewrite Hcol, Hcols. by repeat case_match. Qed.

Lemma colorIndex_single v : -1 ≤ v → CycleAction.colorIndex v 1 = 0.
Proof. intros. unfold CycleAction.colorIndex. case_bool_decide; simpl in *; lia. Qed.

(** A hex colour is asked for in the same way. *)
Lemma request_hex inContext b l col o x :
  includes col "#" = true →
  CycleAction.request inContext b l col o x = ColorAction.request inContext b l col o x.
Proof. intros Hhex. unfold CycleAction.request, ColorAction.request. by rewrite Hhex. Qed.

(** A key press of the cycle key on single settings, against the key
    press of the colour key. *)
Lemma single_press inContext inSettings (s : state unit) (s' : state Z) :
  the_cache s' = the_cache s → self s' = self s → -1 ≤ vars s' →
  inSettings ≠ null → single (effective inSettings s) = true →
  emitted (CycleAction.onKeyUp inContext inSettings s')
  = emitted (ColorAction.onKeyUp inContext inSettings s)
  ∧ thrown (CycleAction.onKeyUp inContext inSettings s')
    = thrown (ColorAction.onKeyUp inContext inSettings s).
Proof.
  intros Hc Hself Hv Hnull (col & Hcol & Hcols & Hhex)%single_inv.
  rewrite CycleAction.cycle_onKeyUp_run, ColorAction.color_onKeyUp_run.
  unfold CycleAction.onKeyUp_spec, CycleAction.press, ColorAction.onKeyUp_spec.
  assert (effective inSettings s' = effective inSettings s) as ->
    by (destruct inSettings; simpl; congruence).
  rewrite (validate_single _ _ col Hcol Hcols), Hc.
  destruct (validate color _ _) as [e|[[b l] col']] eqn:Hval.
  { destruct inSettings, e; try done;
      unfold validate in Hval; rewrite Hcol in Hval; by repeat case_match. }
  destruct (validate_inr _ _ _ _ _ _ Hval) as (_ & _ & _ & _ & _ & Hcol').
  assert (col' = col) as -> by congruence.
  destruct (_ ≫= _) as [[o x]|]; [ | by destruct inSettings].
  rewrite colorIndex_single by done. change (lookupZ [col] 0) with (Some col).
  destruct inSettings; try done; by rewrite request_hex.
Qed.

(** ** One step of the loop *)

Lemma alike_keyUp c (c' : config Z) inSettings :
  alike c c' → inSettings ≠ null → single (effective inSettings (now c)) = true →
  alike (land c (pending c)
           (keyUp (KeyAction := color_key) (context (self (now c))) inSettings (now c)))
        (land c' (pending c')
           (keyUp (KeyAction := cycle_key) (context (self (now c'))) inSettings (now c'))).
Proof.
  intros [Hc Hself Hv Hpend Htr] Hnull Hsingle.
  cbn [keyUp ColorAction.color_key CycleAction.cycle_key].
  destruct (single_press (context (self (now c))) inSettings _ _ Hc Hself Hv Hnull Hsingle)
    as [Hout _].
  destruct (CycleAction.cycle_onKeyUp_final (context (self (now c'))) inSettings (now c'))
    as (Hc' & Hself' & Hv').
  rewrite Hself in *. unfold land. split; cbn [now pending trace];
    rewrite ?ColorAction.color_onKeyUp_final, ?Hout; auto; congruence.
Qed.

Lemma alike_answer c (c' : config Z) k inSuccess inError i :
  alike c c' →
  alike (land c (delete i (pending c))
           (answer (KeyAction := color_key) k inSuccess inError (now c)))
        (land c' (delete i (pending c'))
           (answer (KeyAction := cycle_key) k inSuccess inError (now c'))).
Proof.
  intros [Hc Hself Hv Hpend Htr].
  cbn [answer ColorAction.color_key CycleAction.cycle_key]. destruct inSuccess.
  - rewrite ColorAction.color_complete_success, CycleAction.cycle_complete_success. unfold land.
    split; cbn [now pending trace final emitted the_cache self vars];
      [by rewrite Hc | done | lia | by rewrite Hpend | by rewrite Htr].
  - rewrite ColorAction.color_complete_failure, CycleAction.cycle_complete_failure. unfold land.
    split; cbn [now pending trace final emitted]; [done.. | by rewrite Hpend | by rewrite Htr].
Qed.

(** Every step of the colour key on a common event is a step of the cycle
    key, and leaves the two alike. *)
Lemma alike_step c (c' : config Z) e c1 :
  alike c c' → common (current (self (now c))) e = true →
  step (a := color_key) c e c1 →
  ∃ c1' : config Z, step (a := cycle_key) c' e c1' ∧ alike c1 c1'.
Proof.
  intros Hal He Hstep. pose proof Hal as [Hc Hself Hv Hpend Htr].
  destruct Hstep as [[| |st]|i k ok err Hi|fresh Hin|cb|st]; try done.
  - eexists. split; [constructor | by apply alike_keyUp].
  - eexists. split; [constructor | by apply alike_keyUp].
  - eexists. split; [apply step_answer; by rewrite Hpend | by apply alike_answer].
  - eexists. split; [apply step_install; by rewrite Hc | ].
    split; cbn [now pending trace the_cache self vars]; done.
  - eexists. split; [constructor | ].
    split; cbn [now pending trace configured the_cache self vars]; congruence.
Qed.

Lemma alike_steps evs c (c' : config Z) :
  alike c c' → common_run evs c = true →
  ∃ c1 (c1' : config Z), steps (a := color_key) c evs c1 ∧ steps (a := cycle_key) c' evs c1'
          ∧ alike c1 c1'.
Proof.
  revert c c'. induction evs as [|e evs IH]; intros c c' Hal Hrun.
  { exists c, c'. split_and!; [constructor.. | done]. }
  simpl in Hrun. apply andb_true_iff in Hrun as [He Hrun].
  destruct (fire e c) as [c1|] eqn:Hfire; [ | done]. apply step_fire in Hfire.
  destruct (alike_step _ _ _ _ Hal He Hfire) as (c1' & Hstep' & Hal1).
  destruct (IH _ _ Hal1 Hrun) as (c2 & c2' & Hsteps & Hsteps' & Hal2).
  exists c2, c2'. split_and!; [by econstructor.. | done].
Qed.

(** C22. A cycle key whose sequence is one hex colour does what a colour
    key with that colour does.  From configurations in which the two keys
    have the same cache, instance, pending callbacks and effects so far,
    and the cursor is not below -1, on every sequence of key presses with
    such settings, answers of the transport, new caches and changes of
    settings: the run of the colour key is a run of the cycle key, and in
    the end the two have made the same requests, logged and alerted the
    same, and have the same cache and the same callbacks pending. *)
Theorem cycle_single_simulates evs c (c' : config Z) :
  alike c c' → common_run evs c = true →
  ∃ c1 (c1' : config Z), steps (a := color_key) c evs c1 ∧ steps (a := cycle_key) c' evs c1'
          ∧ the_cache (now c1') = the_cache (now c1)
          ∧ pending c1' = pending c1 ∧ trace c1' = trace c1.
Proof.
  intros Hal Hrun. destruct (alike_steps evs c c' Hal Hrun) as (c1 & c1' & ? & ? & []).
  by exists c1, c1'.
Qed.

End variants.

(** ** The theorem at the concrete installation *)

Section witnesses.
#[local] Existing Instance hex_space.
#[local] Existing Instance plain_base.
Import Demo.

(** Red on the colour light, as the colour and as the only entry of the
    sequence. *)
Definition one : settings :=
  Settings (Some "hub") (Some "l-1") (Some "#ff0000") (Some ["#ff0000"]).

(** A colour key, and a cycle key whose cursor is past its sequence. *)
Definition color_start : config unit := Config (key one tt) [] [].
Definition cycle_start : config Z := Config (key one 7) [] [].

(** The key is pressed, the bridge confirms, the key is pressed with other
    settings, the bridge refuses, the settings are replaced, and the key is
    pressed twice. *)
Definition compared_events : list event :=
  [KeyUp undefined; Answer 0 true ""; KeyUp (given one); Answer 0 false "busy";
   Configure (Settings (Some "hub") (Some "g-7") (Some "#00ff00") (Some ["#00ff00"]));
   KeyUp undefined; KeyUp undefined].

Lemma start_alike : alike color_start cycle_start.
Proof. by split. Qed.

Lemma cycle_single_simulates_witness :
  ∃ c1 (c1' : config Z),
    steps (a := ColorAction.color_key) color_start compared_events c1
    ∧ steps (a := CycleAction.cycle_key) cycle_start compared_events c1'
    ∧ the_cache (now c1') = the_cache (now c1)
    ∧ pending c1' = pending c1 ∧ trace c1' = trace c1.
Proof.
  exact (cycle_single_simulates compared_events color_start cycle_start
           start_alike eq_refl).
Defined.

(** Where the two part: the same number is a percentage to the colour key
    and a Kelvin value to the cycle key. *)
Example temperatures_differ :
  let st := Settings (Some "hub") (Some "l-2") (Some "50") (Some ["50"]) in
  closures (emitted (ColorAction.onKeyUp "key" (given st) (key st tt)))
  = [OnTemperature 2%positive (percentToMired "50") "key"]
  ∧ closures (emitted (CycleAction.onKeyUp "key" (given st) (key st (-1))))
    = [OnTemperature 2%positive (kelvinToMired "50") "key"]
  ∧ to_Z (percentToMired "50") = Some 327 ∧ to_Z (kelvinToMired "50") = Some 650.
Proof. by vm_compute. Qed.

End witnesses.
