(* ===== verification/Orderly.v ===== *)
(** * Orderly: a colour key used in order

    The settings of a key are meant to match its device: a hex colour for a
    device with [xy], a number for one without.  [setDefaults] repairs the
    settings when the key is created and at every notice of a new cache,
    and [onKeyUp] sends what the settings say.  This file shows that the
    two together keep the promise when the key is used in order: pressed
    with its own settings, answered by the transport, told of the cache,
    on colours whose [#], if any, is in front.

    [kinds] is the capability of every object of the cache; a callback is
    [apt] when the field it writes is the field of the kind of its object.
    [Matching] is what the invariant asks of an action: a predicate [fit]
    on its states that the constructor establishes, that every handler
    keeps, that the notice of a cache establishes again, that depends on
    the cache by its tables and kinds only, and under which a key press
    hands out apt callbacks only.
    [calm] is the invariant of the loop, proved once for every action that
    is [Matching].  The colour action is ([color_matching]: the colour of
    valid settings suits the device they name), and so is the cycle action
    ([cycle_matching]: all colours do).  [in_order] are the sequences of
    events of a key used in order in which the discovery installs new
    caches: a new cache keeps the kind of every object of the old one and
    is followed at once by its notice, at which [setDefaults] matches the
    settings to the device the new cache lists.  Theorems: every request a
    key makes is of the kind of its device, and no device changes its kind
    ([color_orderly_typed], [cycle_orderly_typed]); with new caches, the
    settings are matched in the end and every request made is of the kind
    its device still has ([color_renewed_typed], [cycle_renewed_typed]). *)

From Stdlib Require Import ZArith Lia String.
From stdpp Require Import base tactics strings gmap list.
From S2P Require Import Prelude JsString JsNumber ColorCodec Cache Host Key.
From S2P Require Import ColorAction CycleAction Typing EventLoop.

Section kinds.
Context `{ColorSpace}.
Implicit Types (c : cache) (K : gmap loc bool).

(** Which objects of the cache have an [xy]. *)
Definition kinds (c : cache) : gmap loc bool := has_xy <$> heap c.

(** The callback writes the field of the kind of its object. *)
Definition apt (K : gmap loc bool) (k : closure) : Prop :=
  match k with
  | OnXY o _ _ => K !! o = Some true
  | OnTemperature o _ _ => K !! o = Some false
  end.

(** The events of a key used in order: pressed with its own settings,
    answered, told of the cache. *)
Definition orderly (e : event) : bool :=
  match e with
  | KeyUp undefined | Answer _ _ _ | Notify _ => true
  | _ => false
  end.

(** The events of a key used in order, new caches included: a new cache
    follows the naming convention, keeps the kind of every object of the
    old one, and is followed at once by its notice. *)
Inductive in_order : gmap loc bool → list event → Prop :=
  | in_order_nil K : in_order K []
  | in_order_cons K e evs :
      orderly e = true → in_order K evs → in_order K (e :: evs)
  | in_order_renew K fresh inCallback evs :
      cache_named fresh → K ⊆ kinds fresh → in_order (kinds fresh) evs →
      in_order K (Install fresh :: Notify inCallback :: evs).

Lemma orderly_in_order K evs : forallb orderly evs = true → in_order K evs.
Proof.
  induction evs as [|e evs IH]; simpl; [constructor | ].
  intros [He Hevs]%andb_true_iff. constructor; auto.
Qed.

Lemma kinds_lookup c o x : heap c !! o = Some x → kinds c !! o = Some (has_xy x).
Proof. intros Hx. unfold kinds. by rewrite lookup_fmap, Hx. Qed.

Lemma kinds_lookup_inv c c' o x :
  kinds c' = kinds c → heap c !! o = Some x →
  ∃ x', heap c' !! o = Some x' ∧ has_xy x' = has_xy x.
Proof.
  intros Hk Hx. apply (f_equal (.!! o)) in Hk. unfold kinds in Hk.
  rewrite !lookup_fmap, Hx in Hk. destruct (heap c' !! o) as [x'|]; simplify_eq/=.
  eauto.
Qed.

Lemma kinds_set_xy o xy c : kinds c !! o = Some true → kinds (set_xy o xy c) = kinds c.
Proof.
  intros Ho. apply map_eq. intros o'. unfold kinds in *.
  rewrite !lookup_fmap, heap_set_xy. case_decide; [subst | done].
  rewrite lookup_fmap in Ho. by destruct (heap c !! o').
Qed.

Lemma kinds_set_ct o t c : kinds (set_ct o t c) = kinds c.
Proof.
  apply map_eq. intros o'. unfold kinds.
  rewrite !lookup_fmap, heap_set_ct. case_decide; [subst | done].
  by destruct (heap c !! o').
Qed.

(** The cache after an apt callback has run with success. *)
Lemma kinds_written k c :
  apt (kinds c) k →
  kinds match k with
        | OnXY o xy _ => set_xy o xy c
        | OnTemperature o t _ => set_ct o t c
        end = kinds c.
Proof. destruct k; simpl; auto using kinds_set_xy, kinds_set_ct. Qed.

(** A callback that is apt stays apt when objects are added. *)
Lemma apt_weaken K K' k : K ⊆ K' → apt K k → apt K' k.
Proof. intros HK. destruct k; simpl; intros Ho; by eapply lookup_weaken. Qed.

Lemma validate_data {A} (field : settings → option A) c c' st :
  data c' = data c → validate field c' st = validate field c st.
Proof. unfold validate. by intros ->. Qed.

(** A callback for the colour [col] on the object [x] is apt when the
    colour suits the object and has its [#] in front or has none. *)
Lemma apt_request c o x col xy t ctx :
  heap c !! o = Some x → suits x col = true → plain col = true →
  apt (kinds c) (if includes col "#" then OnXY o xy ctx else OnTemperature o t ctx).
Proof.
  intros Hx%kinds_lookup Hs Hp. unfold suits, plain in *.
  destruct (includes col "#"); simpl; rewrite Hx;
    by destruct (is_hex col), (has_xy x).
Qed.

End kinds.

(** ** The invariant, for every action that keeps its settings matched *)

Section calm.
Context `{ColorSpace} {V : Type} {a : KeyAction V} {law : Lawful a}.
Implicit Types (s : state V) (K : gmap loc bool) (c : config V).

Class Matching (admissible : settings → Prop) (fit : state V → Prop) : Prop := {
  create_fit ctx st s0 :
    cache_wf (the_cache s0) → cache_named (the_cache s0) → admissible st →
    fit (final (create ctx st s0));
  keyUp_fit ctx s :
    cache_wf (the_cache s) → cache_named (the_cache s) → fit s →
    fit (final (keyUp ctx undefined s))
    ∧ Forall (apt (kinds (the_cache s))) (closures (emitted (keyUp ctx undefined s)));
  answer_fit k inSuccess inError s :
    apt (kinds (the_cache s)) k → fit s →
    fit (final (answer k inSuccess inError s))
    ∧ kinds (the_cache (final (answer k inSuccess inError s))) = kinds (the_cache s);
  refreshed_fit fresh inCallback s :
    cache_wf fresh → cache_named fresh → fit s →
    fit (final (refreshed inCallback (State fresh (self s) (vars s))));
  fit_stable s s' :
    data (the_cache s') = data (the_cache s) →
    kinds (the_cache s') = kinds (the_cache s) → self s' = self s → fit s → fit s';
}.

Context {admissible : settings → Prop} {fit : state V → Prop}
  {matching : Matching admissible fit}.

Record calm K c : Prop := Calm {
  calm_wf : cache_wf (the_cache (now c));
  calm_named : cache_named (the_cache (now c));
  calm_kinds : kinds (the_cache (now c)) = K;
  calm_fit : fit (now c);
  calm_pending : Forall (apt K) (pending c);
  calm_trace : Forall (apt K) (closures (trace c));
}.

Lemma calm_boot ctx st s0 :
  cache_wf (the_cache s0) → cache_named (the_cache s0) → admissible st →
  calm (kinds (the_cache s0)) (boot ctx st s0).
Proof.
  intros Hwf Hnamed Hst.
  destruct (create_sound ctx st s0) as (Hc & _ & _ & Hnone).
  pose proof (create_fit ctx st s0 Hwf Hnamed Hst).
  unfold boot, land. split; cbn [now pending trace app]; rewrite ?Hc, ?Hnone;
    try done; by constructor.
Qed.

Lemma calm_keyUp K c :
  calm K c →
  calm K (land c (pending c) (keyUp (context (self (now c))) undefined (now c))).
Proof.
  intros [Hwf Hnamed Hk Hfit Hpend Htr]. subst K.
  destruct (keyUp_sound (context (self (now c))) undefined (now c)) as (Hc & _).
  destruct (keyUp_fit (context (self (now c))) (now c) Hwf Hnamed Hfit) as [Hfit' Hapt].
  unfold land. split; cbn [now pending trace]; rewrite ?Hc, ?closures_app;
    try done; by apply Forall_app.
Qed.

Lemma calm_answer K c i k inSuccess inError :
  calm K c → pending c !! i = Some k →
  calm K (land c (delete i (pending c)) (answer k inSuccess inError (now c))).
Proof.
  intros [Hwf Hnamed Hk Hfit Hpend Htr] Hi. subst K.
  pose proof (Forall_lookup_1 _ _ _ _ Hpend Hi) as Hapt.
  destruct (answer_fit k inSuccess inError (now c) Hapt Hfit) as [Hfit' Hk].
  destruct (answer_sound k inSuccess inError (now c)) as (_ & Hd & Hdom & _ & Hnone).
  unfold land. split; cbn [now pending trace];
    rewrite ?Hk, ?closures_app, ?Hnone, ?(right_id_L [] (++)); try done.
  - eapply cache_wf_dom; [done | by rewrite Hdom | done].
  - by eapply cache_named_data.
  - by apply Forall_delete.
Qed.

(** The discovery installs the cache [fresh], which keeps the kind of
    every object of the old one, and the host tells the key. *)
Lemma calm_renew K c fresh inCallback :
  calm K c → cache_wf fresh → cache_named fresh → K ⊆ kinds fresh →
  calm (kinds fresh)
    (land c (pending c) (refreshed inCallback (State fresh (self (now c)) (vars (now c))))).
Proof.
  intros [_ _ _ Hfit Hpend Htr] Hwf Hnamed HK.
  destruct (refreshed_sound inCallback (State fresh (self (now c)) (vars (now c))))
    as (Hc & _ & _ & Hnone).
  pose proof (refreshed_fit fresh inCallback (now c) Hwf Hnamed Hfit).
  unfold land. split; cbn [now pending trace];
    rewrite ?Hc, ?closures_app, ?Hnone, ?(right_id_L [] (++)); try done;
    eapply Forall_impl; eauto using apt_weaken.
Qed.

Lemma calm_notify K c inCallback :
  calm K c → calm K (land c (pending c) (refreshed inCallback (now c))).
Proof.
  intros Hc. pose proof Hc as [Hwf Hnamed Hk _ _ _]. subst K.
  pose proof (calm_renew _ c _ inCallback Hc Hwf Hnamed (reflexivity _)) as Hc'.
  by rewrite state_eta in Hc'.
Qed.

Lemma calm_step K c c' e : calm K c → orderly e = true → step c e c' → calm K c'.
Proof.
  intros Hc He Hstep. revert He.
  destruct Hstep as [[| |st]|i k ok err Hi|fresh Hin|cb|st]; intros He; try done;
    eauto using calm_keyUp, calm_answer, calm_notify.
Qed.

Lemma calm_steps K c c' evs :
  calm K c → forallb orderly evs = true → steps c evs c' → calm K c'.
Proof.
  intros Hc Hevs Hsteps. induction Hsteps as [|c e c1 evs c2 Hstep _ IH]; [done | ].
  simpl in Hevs. apply andb_true_iff in Hevs as [He Hevs].
  eauto using calm_step.
Qed.

Lemma calm_in_order K c c' evs :
  calm K c → in_order K evs → steps c evs c' → ∃ K', K ⊆ K' ∧ calm K' c'.
Proof.
  intros Hc Hevs. revert c Hc.
  induction Hevs as [K|K e evs He _ IH|K fresh cb evs Hn HK _ IH]; intros c Hc Hsteps.
  - inversion Hsteps; subst. by exists K.
  - inversion Hsteps as [|? ? c1 ? ? Hstep Hrest]; subst. eauto using calm_step.
  - inversion Hsteps as [|? ? c1 ? ? Hstep Hrest]; subst.
    inversion Hstep as [| |? [Hwf _]| |]; subst.
    inversion Hrest as [|? ? c2 ? ? Hstep' Hrest']; subst.
    inversion Hstep'; subst.
    destruct (IH _ (calm_renew _ c _ cb Hc Hwf Hn HK) Hrest') as (K' & HK' & Hc').
    exists K'. split; [by etrans | done].
Qed.

(** A key of a matching action that is used in order, new caches
    included, has its settings matched in the end, has sent only requests
    of the kind its device has, and no object has changed its kind. *)
Lemma renewed_typed ctx st s0 evs c :
  cache_wf (the_cache s0) → cache_named (the_cache s0) → admissible st →
  in_order (kinds (the_cache s0)) evs → steps (boot ctx st s0) evs c →
  fit (now c) ∧ kinds (the_cache s0) ⊆ kinds (the_cache (now c))
  ∧ Forall (apt (kinds (the_cache (now c)))) (closures (trace c)).
Proof.
  intros Hwf Hnamed Hst Hevs Hsteps.
  destruct (calm_in_order _ _ _ _ (calm_boot ctx st s0 Hwf Hnamed Hst) Hevs Hsteps)
    as (K' & HK' & [_ _ <- Hfit _ Htr]).
  done.
Qed.

(** A key of a matching action that is used in order sends only requests
    of the kind of the device, and no device changes its kind. *)
Lemma orderly_typed ctx st s0 evs c :
  cache_wf (the_cache s0) → cache_named (the_cache s0) → admissible st →
  forallb orderly evs = true → steps (boot ctx st s0) evs c →
  kinds (the_cache (now c)) = kinds (the_cache s0)
  ∧ Forall (apt (kinds (the_cache s0))) (closures (trace c)).
Proof.
  intros Hwf Hnamed Hst Hevs Hsteps.
  by destruct (calm_steps _ _ _ _ (calm_boot ctx st s0 Hwf Hnamed Hst) Hevs Hsteps).
Qed.

End calm.

Arguments Matching {_ _} a admissible fit.

(** ** The colour action keeps its settings matched *)

Section color.
Context `{ColorSpace}.
#[local] Existing Instance plain_base.
Import ColorAction.
Implicit Types (s : state unit) (c : cache).

(** The colour, if there is one, has its [#] in front or has none. *)
Definition color_admissible (st : settings) : Prop :=
  ∀ col, color st = Some col → plain col = true.

(** The colour of valid settings suits the device they name. *)
Definition color_fit (s : state unit) : Prop :=
  color_admissible (current (self s))
  ∧ ∀ b l col,
      validate color (the_cache s) (current (self s)) = inr (b, l, col) →
      ∃ o x, (lights b ∪ groups b) !! l = Some o
           ∧ heap (the_cache s) !! o = Some x ∧ suits x col = true.

Lemma color_fit_ext s s' :
  data (the_cache s') = data (the_cache s) →
  kinds (the_cache s') = kinds (the_cache s) → self s' = self s →
  color_fit s → color_fit s'.
Proof.
  intros Hd Hk Hself [Ha Hm]. rewrite <- Hself in Ha, Hm. split; [done | ].
  intros b l col Hv. rewrite (validate_data _ _ _ _ Hd) in Hv.
  destruct (Hm b l col Hv) as (o & x & Ho & Hx & Hs).
  destruct (kinds_lookup_inv _ _ o x Hk Hx) as (x' & Hx' & Hxy).
  exists o, x'. unfold suits in *. by rewrite Hxy.
Qed.

(** [setDefaults] leaves the settings matched, whatever they were. *)
Lemma color_setDefaults_fit s :
  cache_wf (the_cache s) → cache_named (the_cache s) →
  color_admissible (current (self s)) → color_fit (final (setDefaults s)).
Proof.
  intros Hwf Hnamed Hplain. rewrite color_setDefaults_run. unfold setDefaults_spec.
  destruct (validate (λ _, Some tt) _ _) as [e|[[b l] []]] eqn:Hv.
  { split; [done | ]. intros b l col Hvc. simpl in Hvc.
    by rewrite (validate_with _ (λ _, Some tt) _ _ _ _ _ _ tt Hvc eq_refl eq_refl eq_refl)
      in Hv. }
  destruct (validate_inr _ _ _ _ _ _ Hv) as (bid & _ & Hb & _ & Hk & _).
  destruct (resolve_deref_agree _ _ _ _ Hwf Hnamed Hb Hk) as (o & x & Ho & Hx & _ & ->).
  destruct (default_color_suits x) as [Hs Hp].
  destruct (compatible _ x) eqn:Hc; cbn [final]; (split; [ | intros b' l' col Hvc]);
    [done | | by intros ? [= <-] | ]; simpl in Hvc;
    pose proof (validate_with _ (λ _, Some tt) _ _ (current (self s)) _ _ _ tt Hvc
                  eq_refl eq_refl eq_refl);
    destruct (validate_inr _ _ _ _ _ _ Hvc) as (_ & _ & _ & _ & _ & Hcol);
    assert (b' = b ∧ l' = l) as [-> ->] by (split; congruence); exists o, x.
  - by rewrite Hcol, color_compatible_suits in Hc.
  - by injection Hcol as <-.
Qed.

(** At matched settings, the callback of a key press is apt. *)
Lemma color_onKeyUp_apt inContext s :
  cache_wf (the_cache s) → cache_named (the_cache s) → color_fit s →
  Forall (apt (kinds (the_cache s)))
    (closures (emitted (onKeyUp inContext undefined s))).
Proof.
  intros Hwf Hnamed [Hplain Hm]. rewrite color_onKeyUp_run. unfold onKeyUp_spec.
  cbn [effective].
  destruct (validate color _ _) as [e|[[b l] col]] eqn:Hv; [by constructor | ].
  destruct (Hm b l col eq_refl) as (o & x & Ho & Hx & Hs).
  destruct (validate_inr _ _ _ _ _ _ Hv) as (bid & _ & Hb & _ & Hk & Hcol).
  destruct (resolve_deref_agree _ _ _ _ Hwf Hnamed Hb Hk) as (o' & x' & Ho' & Hx' & -> & _).
  simplify_eq. unfold request, closures. cbn [emitted omap].
  pose proof (apt_request _ _ _ col (hex2xy col) (percentToMired col) inContext
                Hx Hs (Hplain col Hcol)).
  destruct (includes col "#"); by repeat constructor.
Qed.

#[global] Instance color_matching : Matching color_key color_admissible color_fit.
Proof.
  split.
  - intros ctx st s0 Hwf Hnamed Hst. cbn [create color_key].
    rewrite color_constructor_plain. by apply color_setDefaults_fit.
  - intros ctx s Hwf Hnamed Hfit. cbn [keyUp color_key].
    rewrite color_onKeyUp_final. auto using color_onKeyUp_apt.
  - intros k [] err s Hk Hfit; cbn [answer color_key];
      [rewrite color_complete_success | by rewrite color_complete_failure].
    cbn [final the_cache]. split; [ | by apply kinds_written].
    eapply color_fit_ext; [ | by apply kinds_written | | done]; [ | done].
    simpl. destruct k; by autorewrite with hue.
  - intros fresh cb s Hwf Hnamed Hfit. cbn [refreshed color_key].
    unfold newCacheAvailable. cbn [actionNewCacheAvailable plain_base].
    rewrite final_then_emit. apply color_setDefaults_fit; [done.. | apply Hfit].
  - apply color_fit_ext.
Qed.

(** A colour key used in order -- created on a well-formed cache whose
    ids follow the naming convention, with a colour that has its [#] in
    front or has none, then pressed with its own settings, answered by the
    transport and told of the cache, in any order -- sends only requests
    of the kind of the device (a colour to a device with [xy], a temperature
    to one without), and no device of the cache changes its kind. *)
Theorem color_orderly_typed ctx st s0 evs (c : config unit) :
  cache_wf (the_cache s0) → cache_named (the_cache s0) → color_admissible st →
  forallb orderly evs = true → steps (boot ctx st s0) evs c →
  kinds (the_cache (now c)) = kinds (the_cache s0)
  ∧ Forall (apt (kinds (the_cache s0))) (closures (trace c)).
Proof. apply orderly_typed. Qed.

(** C20. A colour key with the plain base action ([plain_base], the base
    class as the specification describes it), used in order, new caches
    included -- created on a well-formed cache whose ids follow the naming convention, with a colour
    that has its [#] in front or has none; then pressed with its own
    settings, answered by the transport and told of the cache, in any
    order; every new cache well formed, named by the convention, keeping
    the kind of every object of the old one, and followed at once by its
    notice -- has in the end settings whose colour suits the device they
    name, has sent only requests of the kind its device has (a colour to a
    device with [xy], a temperature to one without), and no object of the
    first cache has changed its kind. *)
Theorem color_renewed_typed ctx st s0 evs (c : config unit) :
  cache_wf (the_cache s0) → cache_named (the_cache s0) → color_admissible st →
  in_order (kinds (the_cache s0)) evs → steps (boot ctx st s0) evs c →
  color_fit (now c) ∧ kinds (the_cache s0) ⊆ kinds (the_cache (now c))
  ∧ Forall (apt (kinds (the_cache (now c)))) (closures (trace c)).
Proof. apply renewed_typed. Qed.

End color.

(** ** The cycle action keeps its settings matched *)

Section cycle.
Context `{ColorSpace}.
#[local] Existing Instance plain_base.
Import CycleAction.
Implicit Types (s : state Z) (c : cache).

(** The colours have their [#] in front or have none, and are all of one
    kind. *)
Definition tame (cols : list string) : Prop :=
  Forall (λ col, plain col = true) cols
  ∧ ∀ col col', col ∈ cols → col' ∈ cols → is_hex col = is_hex col'.

Definition cycle_admissible (st : settings) : Prop :=
  ∀ cols, colors st = Some cols → tame cols.

(** The first colour of valid settings suits the device they name; the
    others are of its kind. *)
Definition cycle_fit (s : state Z) : Prop :=
  cycle_admissible (current (self s))
  ∧ ∀ b l cols,
      validate colors (the_cache s) (current (self s)) = inr (b, l, cols) →
      ∃ o x, (lights b ∪ groups b) !! l = Some o
           ∧ heap (the_cache s) !! o = Some x
           ∧ ∀ col, lookupZ cols 0 = Some col → suits x col = true.

Lemma tame_suits cols x col0 col :
  tame cols → lookupZ cols 0 = Some col0 → suits x col0 = true → col ∈ cols →
  suits x col = true ∧ plain col = true.
Proof.
  intros [Hp Hh] H0 Hs Hcol. split; [ | by apply (proj1 (Forall_forall _ _) Hp)].
  unfold suits in *. rewrite (Hh col col0 Hcol); [done | ].
  unfold lookupZ in H0. case_bool_decide; [ | done]. by eapply list_elem_of_lookup_2.
Qed.

Lemma suits_tame cols x :
  Forall (λ col, suits x col = true ∧ plain col = true) cols → tame cols.
Proof.
  intros Hall. split; [eapply Forall_impl; [done | by intros ? []] | ].
  intros col col' Hc Hc'. rewrite Forall_forall in Hall.
  destruct (Hall col Hc) as [Hs _], (Hall col' Hc') as [Hs' _]. unfold suits in *.
  by destruct (is_hex col), (is_hex col'), (has_xy x).
Qed.

Lemma cycle_fit_ext s s' :
  data (the_cache s') = data (the_cache s) →
  kinds (the_cache s') = kinds (the_cache s) → self s' = self s →
  cycle_fit s → cycle_fit s'.
Proof.
  intros Hd Hk Hself [Ha Hm]. rewrite <- Hself in Ha, Hm. split; [done | ].
  intros b l cols Hv. rewrite (validate_data _ _ _ _ Hd) in Hv.
  destruct (Hm b l cols Hv) as (o & x & Ho & Hx & Hs).
  destruct (kinds_lookup_inv _ _ o x Hk Hx) as (x' & Hx' & Hxy).
  exists o, x'. split_and!; [done.. | ]. intros col Hcol.
  specialize (Hs col Hcol). unfold suits in *. by rewrite Hxy.
Qed.

(** [setDefaults] leaves the settings matched, whatever they were. *)
Lemma cycle_setDefaults_fit s :
  cache_wf (the_cache s) → cache_named (the_cache s) →
  cycle_admissible (current (self s)) → cycle_fit (final (setDefaults s)).
Proof.
  intros Hwf Hnamed Htame. rewrite cycle_setDefaults_run. unfold setDefaults_spec.
  destruct (validate (λ _, Some tt) _ _) as [e|[[b l] []]] eqn:Hv.
  { split; [done | ]. intros b l cols Hvc. simpl in Hvc.
    by rewrite (validate_with _ (λ _, Some tt) _ _ _ _ _ _ tt Hvc eq_refl eq_refl eq_refl)
      in Hv. }
  destruct (validate_inr _ _ _ _ _ _ Hv) as (bid & _ & Hb & _ & Hk & _).
  destruct (resolve_deref_agree _ _ _ _ Hwf Hnamed Hb Hk) as (o & x & Ho & Hx & _ & ->).
  pose proof (default_colors_suit x) as Hdef.
  assert (∀ st', bridge st' = bridge (current (self s)) →
            light st' = light (current (self s)) →
            ∀ b' l' cols, validate colors (the_cache s) st' = inr (b', l', cols) →
              b' = b ∧ l' = l ∧ colors st' = Some cols) as Hsame.
  { intros st' Hb' Hl' b' l' cols Hvc.
    pose proof (validate_with _ (λ _, Some tt) _ _ (current (self s)) _ _ _ tt Hvc
                  (eq_sym Hb') (eq_sym Hl') eq_refl).
    destruct (validate_inr _ _ _ _ _ _ Hvc) as (_ & _ & _ & _ & _ & ?).
    split_and!; congruence. }
  destruct (colors (current (self s))) as [cols|] eqn:Hcols;
    [destruct (lookupZ cols 0) as [col0|] eqn:H0;
       [destruct (compatible col0 x) eqn:Hc | ] | ]; cbn [final].
  1, 3: split; [done | ]; intros b' l' cols' Hvc; simpl in Hvc;
    destruct (Hsame _ eq_refl eq_refl _ _ _ Hvc) as (-> & -> & ?);
    exists o, x; split_and!; [done.. | ]; intros col ?;
    rewrite <- cycle_compatible_suits; congruence.
  all: split; [intros ? [= <-]; by eapply suits_tame | ]; intros b' l' cols' Hvc;
    simpl in Hvc;
    destruct (Hsame (with_colors (current (self s)) (default_colors x))
                eq_refl eq_refl _ _ _ Hvc) as (-> & -> & [= <-]);
    exists o, x; split_and!; [done.. | ]; intros col Hcol;
    unfold lookupZ in Hcol; (case_bool_decide; [ | done]);
    by destruct (Forall_lookup_1 _ _ _ _ Hdef Hcol).
Qed.

(** At matched settings, the callback of a key press is apt. *)
Lemma cycle_onKeyUp_apt inContext s :
  cache_wf (the_cache s) → cache_named (the_cache s) → cycle_fit s →
  Forall (apt (kinds (the_cache s)))
    (closures (emitted (onKeyUp inContext undefined s))).
Proof.
  intros Hwf Hnamed [Htame Hm]. rewrite cycle_onKeyUp_run.
  unfold onKeyUp_spec, press. cbn [effective].
  destruct (validate colors _ _) as [e|[[b l] cols]] eqn:Hv; [by constructor | ].
  destruct (Hm b l cols eq_refl) as (o & x & Ho & Hx & Hs).
  destruct (validate_inr _ _ _ _ _ _ Hv) as (bid & _ & Hb & _ & Hk & Hcols).
  destruct (resolve_deref_agree _ _ _ _ Hwf Hnamed Hb Hk) as (o' & x' & Ho' & Hx' & -> & _).
  simplify_eq.
  destruct (lookupZ cols (colorIndex _ _)) as [col|] eqn:Hcol; [ | by constructor].
  assert (col ∈ cols) as Hin.
  { unfold lookupZ in Hcol. case_bool_decide; [ | done]. by eapply list_elem_of_lookup_2. }
  destruct cols as [|col0 cols]; [by apply elem_of_nil in Hin | ].
  destruct (tame_suits _ x col0 col (Htame _ Hcols) eq_refl (Hs col0 eq_refl) Hin).
  unfold request, closures. cbn [emitted omap].
  pose proof (apt_request _ _ _ col (hex2xy col) (kelvinToMired col) inContext
                Hx ltac:(done) ltac:(done)).
  destruct (includes col "#"); by repeat constructor.
Qed.

#[global] Instance cycle_matching : Matching cycle_key cycle_admissible cycle_fit.
Proof.
  split.
  - intros ctx st s0 Hwf Hnamed Hst. cbn [create cycle_key].
    rewrite cycle_constructor_plain. by apply cycle_setDefaults_fit.
  - intros ctx s Hwf Hnamed Hfit. cbn [keyUp cycle_key].
    destruct (cycle_onKeyUp_final ctx undefined s) as (Hc & Hself & _).
    split; [ | by apply cycle_onKeyUp_apt].
    eapply cycle_fit_ext; [by rewrite Hc.. | done | done].
  - intros k [] err s Hk Hfit; cbn [answer cycle_key];
      [rewrite cycle_complete_success | by rewrite cycle_complete_failure].
    cbn [final the_cache]. split; [ | by apply kinds_written].
    eapply cycle_fit_ext; [ | by apply kinds_written | | done]; [ | done].
    simpl. destruct k; by autorewrite with hue.
  - intros fresh cb s Hwf Hnamed Hfit. cbn [refreshed cycle_key].
    unfold newCacheAvailable. cbn [actionNewCacheAvailable plain_base].
    rewrite final_then_emit. apply cycle_setDefaults_fit; [done.. | apply Hfit].
  - apply cycle_fit_ext.
Qed.

(** A cycle key used in order -- created on a well-formed cache whose
    ids follow the naming convention, with colours that have their [#] in
    front or have none and are all of one kind, then pressed with its own
    settings, answered by the transport and told of the cache, in any
    order -- sends only requests of the kind of the device, and no device
    of the cache changes its kind. *)
Theorem cycle_orderly_typed ctx st s0 evs (c : config Z) :
  cache_wf (the_cache s0) → cache_named (the_cache s0) → cycle_admissible st →
  forallb orderly evs = true → steps (boot ctx st s0) evs c →
  kinds (the_cache (now c)) = kinds (the_cache s0)
  ∧ Forall (apt (kinds (the_cache s0))) (closures (trace c)).
Proof. apply orderly_typed. Qed.

(** C21. A cycle key with the plain base action ([plain_base], the base
    class as the specification describes it), used in order, new caches
    included -- created on a well-formed cache whose ids follow the naming convention, with colours
    that have their [#] in front or have none and are all of one kind; then
    pressed with its own settings, answered by the transport and told of
    the cache, in any order; every new cache well formed, named by the
    convention, keeping the kind of every object of the old one, and
    followed at once by its notice -- has in the end settings whose colours
    suit the device they name, has sent only requests of the kind its
    device has, and no object of the first cache has changed its kind. *)
Theorem cycle_renewed_typed ctx st s0 evs (c : config Z) :
  cache_wf (the_cache s0) → cache_named (the_cache s0) → cycle_admissible st →
  in_order (kinds (the_cache s0)) evs → steps (boot ctx st s0) evs c →
  cycle_fit (now c) ∧ kinds (the_cache s0) ⊆ kinds (the_cache (now c))
  ∧ Forall (apt (kinds (the_cache (now c)))) (closures (trace c)).
Proof. apply renewed_typed. Qed.

End cycle.

(** ** The theorems at the concrete installation *)

Section witnesses.
#[local] Existing Instance hex_space.
#[local] Existing Instance plain_base.
#[local] Existing Instance ColorAction.color_key.
#[local] Existing Instance CycleAction.cycle_key.
Import Demo.

(** A key is pressed, answered, told of the cache and pressed again. *)
Definition used_events : list event :=
  [KeyUp undefined; Answer 0 true ""; Notify 0; KeyUp undefined].

(** A colour key on the light without colour, with no colour configured. *)
Definition used : config unit :=
  default (boot "key" ColorAction.untuned (key ColorAction.untuned tt))
    (fires used_events (boot "key" ColorAction.untuned (key ColorAction.untuned tt))).

Lemma used_steps :
  steps (boot "key" ColorAction.untuned (key ColorAction.untuned tt)) used_events used.
Proof. by apply steps_fires. Qed.

Lemma color_orderly_typed_witness :
  kinds (the_cache (now used)) = kinds installation
  ∧ Forall (apt (kinds installation)) (closures (trace used)).
Proof.
  exact (color_orderly_typed "key" ColorAction.untuned (key ColorAction.untuned tt)
           used_events used installation_wf installation_named
           ltac:(discriminate) eq_refl used_steps).
Defined.

(** The key has made two requests, both for a temperature. *)
Example used_requests :
  closures (trace used)
  = [OnTemperature 2%positive (percentToMired "50") "key";
     OnTemperature 2%positive (percentToMired "50") "key"].
Proof. reflexivity. Qed.

(** A cycle key on the light without colour, with no colours configured. *)
Definition cycled : config Z :=
  default (boot "key" CycleAction.bare (key CycleAction.bare 0))
    (fires used_events (boot "key" CycleAction.bare (key CycleAction.bare 0))).

Lemma cycled_steps :
  steps (boot "key" CycleAction.bare (key CycleAction.bare 0)) used_events cycled.
Proof. by apply steps_fires. Qed.

Lemma cycle_orderly_typed_witness :
  kinds (the_cache (now cycled)) = kinds installation
  ∧ Forall (apt (kinds installation)) (closures (trace cycled)).
Proof.
  exact (cycle_orderly_typed "key" CycleAction.bare (key CycleAction.bare 0)
           used_events cycled installation_wf installation_named
           ltac:(discriminate) eq_refl cycled_steps).
Defined.

(** The key has asked for the first two of the default temperatures. *)
Example cycled_requests :
  closures (trace cycled)
  = [OnTemperature 2%positive (kelvinToMired "2230") "key";
     OnTemperature 2%positive (kelvinToMired "4250") "key"].
Proof. reflexivity. Qed.

(** ** A light is replaced by one with colour *)

(** The discovery finds a light with colour in the place of the light
    without, and lists a new object for it. *)
Definition upgraded : cache :=
  Cache (<[5%positive := LightCache "2" (Some "#000000") None]> (heap installation))
        {[ "hub" := BridgeCache "10.0.0.2" "001788fffe" "stream-deck"
                      {[ "l-1" := 1%positive; "l-2" := 5%positive ]}
                      {[ "g-7" := 3%positive ]} ]}.

(** A key is pressed, the new cache arrives with its notice, the bridge
    confirms the request, and the key is pressed again. *)
Definition renewed_events : list event :=
  [KeyUp undefined; Install upgraded; Notify 0; Answer 0 true ""; KeyUp undefined].

Lemma upgraded_named : cache_named upgraded.
Proof. apply (bool_decide_unpack _). vm_compute. exact I. Qed.

Lemma upgraded_kinds : kinds installation ⊆ kinds upgraded.
Proof. apply (bool_decide_unpack _). vm_compute. exact I. Qed.

Lemma renewed_in_order : in_order (kinds installation) renewed_events.
Proof.
  apply in_order_cons; [done | ].
  apply in_order_renew; [apply upgraded_named | apply upgraded_kinds | ].
  by repeat apply in_order_cons; [..| apply in_order_nil].
Qed.

Definition swapped : config unit :=
  default (boot "key" ColorAction.untuned (key ColorAction.untuned tt))
    (fires renewed_events (boot "key" ColorAction.untuned (key ColorAction.untuned tt))).

Lemma swapped_steps :
  steps (boot "key" ColorAction.untuned (key ColorAction.untuned tt)) renewed_events swapped.
Proof. by apply steps_fires. Qed.

Lemma color_renewed_typed_witness :
  color_fit (now swapped) ∧ kinds installation ⊆ kinds (the_cache (now swapped))
  ∧ Forall (apt (kinds (the_cache (now swapped)))) (closures (trace swapped)).
Proof.
  exact (color_renewed_typed "key" ColorAction.untuned (key ColorAction.untuned tt)
           renewed_events swapped installation_wf installation_named
           ltac:(discriminate) renewed_in_order swapped_steps).
Defined.

(** The key asked for a temperature while the light had none but that, and
    asks for a colour now; the settings were repaired at the notice. *)
Example swapped_requests :
  closures (trace swapped)
  = [OnTemperature 2%positive (percentToMired "50") "key";
     OnXY 5%positive "#ffffff" "key"]
  ∧ color (current (self (now swapped))) = Some "#ffffff".
Proof. split; reflexivity. Qed.

Definition turned : config Z :=
  default (boot "key" CycleAction.bare (key CycleAction.bare 0))
    (fires renewed_events (boot "key" CycleAction.bare (key CycleAction.bare 0))).

Lemma turned_steps :
  steps (boot "key" CycleAction.bare (key CycleAction.bare 0)) renewed_events turned.
Proof. by apply steps_fires. Qed.

Lemma cycle_renewed_typed_witness :
  cycle_fit (now turned) ∧ kinds installation ⊆ kinds (the_cache (now turned))
  ∧ Forall (apt (kinds (the_cache (now turned)))) (closures (trace turned)).
Proof.
  exact (cycle_renewed_typed "key" CycleAction.bare (key CycleAction.bare 0)
           renewed_events turned installation_wf installation_named
           ltac:(discriminate) renewed_in_order turned_steps).
Defined.

(** The notice replaces the temperatures by the three colours and leaves
    the cursor where the confirmed request has put it: the key asks for
    the second of the new colours first. *)
Example turned_requests :
  closures (trace turned)
  = [OnTemperature 2%positive (kelvinToMired "2230") "key";
     OnXY 5%positive "#00ff00" "key"]
  ∧ colors (current (self (now turned))) = Some ["#ff0000"; "#00ff00"; "#0000ff"].
Proof. split; reflexivity. Qed.

(** Out of order: a key pressed after the new cache and before its notice
    asks the light with colour for a temperature. *)
Example unnoticed_request :
  closures ∘ trace <$> fires [Install upgraded; KeyUp undefined]
                         (boot "key" ColorAction.untuned (key ColorAction.untuned tt))
  = Some [OnTemperature 5%positive (percentToMired "50") "key"]
  ∧ kinds upgraded !! 5%positive = Some true.
Proof. split; reflexivity. Qed.

End witnesses.
