(* ===== verification/Plugin.v ===== *)
(** * Plugin: several keys on one cache

    The plugin holds one cache and one action per key, by the context of
    the key; the actions of colorAction.js and cycleAction.js all read and
    write that one cache.  This file composes the two actions: a [plugin]
    is the shared cache, the table of keys, the callbacks the transport
    holds for all of them, and everything emitted so far.  The base
    action of either kind of key is any base that is [Modest].  An event
    ([happening]) concerns one key (a new key, a key press, an answer to
    one of its requests, the notice of a new cache, new settings) or the
    cache (the discovery installs a new one).  [happen] is what an event
    does, as a function; [occurs] is the same as a relation, one rule per
    kind of event; [reachable] are the plugins that come about.

    [view] projects a plugin on one of its keys: the state that key's
    handlers see and the callbacks that belong to it.  Theorems: whatever
    happens to the plugin, each key, seen by itself, runs under the loop of
    [EventLoop], where the writes of the other keys show as new caches
    ([plugin_refines_loop]); so every key has in the plugin what it has
    alone ([plugin_key_sound], [plugin_cycle_press]); an event of one key
    leaves the state of every other key as it is ([plugin_frame]); the
    requests of all keys are the requests answered and the requests under
    way ([plugin_accounted]), and when the transport answers them all the
    plugin comes to rest ([plugin_drains]). *)

From Stdlib Require Import ZArith Lia String.
From stdpp Require Import base tactics strings gmap list.
From S2P Require Import Prelude JsString JsNumber ColorCodec Cache Host Key.
From S2P Require Import ColorAction CycleAction EventLoop.

#[local] Open Scope Z_scope.

Section plugin.
Context `{ColorSpace} {color_base : ActionBase unit} {cycle_base : ActionBase Z}.

(** The two actions of the plugin. *)
Inductive variant := Color | Cycle.

#[global] Instance variant_eq_dec : EqDecision variant.
Proof. solve_decision. Defined.

(** What the closures of an action hold besides the instance: nothing for
    the colour action, [currentColor] for the cycle action. *)
Definition closure_vars (v : variant) : Type :=
  match v with Color => unit | Cycle => Z end.

Definition action (v : variant) : KeyAction (closure_vars v) :=
  match v with
  | Color => ColorAction.color_key
  | Cycle => CycleAction.cycle_key
  end.

Definition initial (v : variant) : closure_vars v :=
  match v with Color => tt | Cycle => 0 end.

(** A key of the plugin. *)
Record slot := Slot {
  kind : variant;
  inst : instance;
  closed : closure_vars kind;
}.

Record plugin := Plugin {
  shared : cache;
  actions : gmap string slot;
  under_way : list closure;
  journal : list effect;
}.

Inductive happening :=
  | Appear (ctx : string) (v : variant) (st : settings)
  | Press (ctx : string) (inSettings : arg settings)
  | Reply (i : nat) (inSuccess : bool) (inError : string)
  | Renew (fresh : cache)
  | Tell (ctx : string) (inCallback : nat)
  | Reconfigure (ctx : string) (st : settings).

(** The state the handlers of the key [k] run in. *)
Definition enter (p : plugin) (k : slot) : state (closure_vars (kind k)) :=
  State (shared p) (inst k) (closed k).

(** The plugin after a handler of the key [ctx] has run with outcome [o],
    the callbacks [rest] still under way from before. *)
Definition leave (p : plugin) (ctx : string) (v : variant) (rest : list closure)
    (o : outcome (state (closure_vars v)) effect exn unit) : plugin :=
  Plugin (the_cache (final o))
         (<[ctx := Slot v (self (final o)) (vars (final o))]> (actions p))
         (rest ++ closures (emitted o)) (journal p ++ emitted o).

Definition happen (e : happening) (p : plugin) : option plugin :=
  match e with
  | Appear ctx v st =>
      match actions p !! ctx with
      | Some _ => None
      | None =>
          Some (leave p ctx v (under_way p)
                  (create (KeyAction := action v) ctx st
                     (State (shared p) (Instance ctx st) (initial v))))
      end
  | Press ctx inSettings =>
      k ← actions p !! ctx;
      Some (leave p ctx (kind k) (under_way p)
              (keyUp (KeyAction := action (kind k))
                 (context (inst k)) inSettings (enter p k)))
  | Reply i inSuccess inError =>
      c ← under_way p !! i;
      k ← actions p !! closure_context c;
      Some (leave p (closure_context c) (kind k) (delete i (under_way p))
              (answer (KeyAction := action (kind k)) c inSuccess inError (enter p k)))
  | Renew fresh =>
      if decide (installs (shared p) fresh)
      then Some (Plugin fresh (actions p) (under_way p) (journal p))
      else None
  | Tell ctx inCallback =>
      k ← actions p !! ctx;
      Some (leave p ctx (kind k) (under_way p)
              (refreshed (KeyAction := action (kind k)) inCallback (enter p k)))
  | Reconfigure ctx st =>
      k ← actions p !! ctx;
      Some (Plugin (shared p)
              (<[ctx := Slot (kind k) (Instance (context (inst k)) st) (closed k)]>
                 (actions p))
              (under_way p) (journal p))
  end.

Fixpoint happens (evs : list happening) (p : plugin) : option plugin :=
  match evs with
  | [] => Some p
  | e :: evs => happen e p ≫= happens evs
  end.

(** The same as a relation, one rule per kind of event. *)
Inductive occurs (p : plugin) : happening → plugin → Prop :=
  | occurs_appear ctx v st :
      actions p !! ctx = None →
      occurs p (Appear ctx v st)
        (leave p ctx v (under_way p)
           (create (KeyAction := action v) ctx st
              (State (shared p) (Instance ctx st) (initial v))))
  | occurs_press ctx k inSettings :
      actions p !! ctx = Some k →
      occurs p (Press ctx inSettings)
        (leave p ctx (kind k) (under_way p)
           (keyUp (KeyAction := action (kind k))
              (context (inst k)) inSettings (enter p k)))
  | occurs_reply i c k inSuccess inError :
      under_way p !! i = Some c → actions p !! closure_context c = Some k →
      occurs p (Reply i inSuccess inError)
        (leave p (closure_context c) (kind k) (delete i (under_way p))
           (answer (KeyAction := action (kind k)) c inSuccess inError (enter p k)))
  | occurs_renew fresh :
      installs (shared p) fresh →
      occurs p (Renew fresh) (Plugin fresh (actions p) (under_way p) (journal p))
  | occurs_tell ctx k inCallback :
      actions p !! ctx = Some k →
      occurs p (Tell ctx inCallback)
        (leave p ctx (kind k) (under_way p)
           (refreshed (KeyAction := action (kind k)) inCallback (enter p k)))
  | occurs_reconfigure ctx k st :
      actions p !! ctx = Some k →
      occurs p (Reconfigure ctx st)
        (Plugin (shared p)
           (<[ctx := Slot (kind k) (Instance (context (inst k)) st) (closed k)]>
              (actions p))
           (under_way p) (journal p)).

(** The plugins that come about from the cache [c0] and no key. *)
Inductive reachable (c0 : cache) : plugin → Prop :=
  | reachable_start : reachable c0 (Plugin c0 ∅ [] [])
  | reachable_step p e p' :
      reachable c0 p → happen e p = Some p' → reachable c0 p'.

(** The callback belongs to the key [ctx]. *)
Definition mine (ctx : string) (c : closure) : Prop := closure_context c = ctx.

#[global] Instance mine_dec ctx c : Decision (mine ctx c).
Proof. unfold mine. apply _. Defined.

(** The key [ctx] of the plugin, seen by itself: what its handlers see and
    the callbacks that are its own. *)
Definition view (p : plugin) (ctx : string) (v : variant)
    (c : config (closure_vars v)) : Prop :=
  ∃ i x, actions p !! ctx = Some (Slot v i x) ∧ now c = State (shared p) i x
       ∧ pending c = filter (mine ctx) (under_way p).

(** Every key is filed under its context, and every callback under way
    belongs to a key. *)
Definition tidy (p : plugin) : Prop :=
  cache_wf (shared p)
  ∧ map_Forall (λ ctx k, context (inst k) = ctx) (actions p)
  ∧ Forall (λ c, is_Some (actions p !! closure_context c)) (under_way p).

(** The key an event concerns, if it concerns one. *)
Definition subject (p : plugin) (e : happening) : option string :=
  match e with
  | Appear ctx _ _ | Press ctx _ | Tell ctx _ | Reconfigure ctx _ => Some ctx
  | Reply i _ _ => closure_context <$> under_way p !! i
  | Renew _ => None
  end.

Definition is_reply (e : happening) : bool :=
  match e with Reply _ _ _ => true | _ => false end.

(** The number of answers among the events. *)
Definition replies (evs : list happening) : nat := length (filter is_reply evs).

(** The transport answers the oldest request with each of the outcomes
    [rs] in turn. *)
Definition settle_all (rs : list (bool * string)) : list happening :=
  (λ r, Reply 0 r.1 r.2) <$> rs.

(** ** The relation and the function *)

Lemma occurs_happen p e p' : occurs p e p' ↔ happen e p = Some p'.
Proof.
  split.
  - intros [ctx v st Hk|ctx k i Hk|i c k ok err Hi Hk|fresh Hin|ctx k cb Hk|ctx k st Hk];
      simpl; rewrite ?Hi; simpl; rewrite ?Hk; try done. by rewrite decide_True.
  - destruct e as [ctx v st|ctx i|i ok err|fresh|ctx cb|ctx st]; simpl;
      [destruct (actions p !! ctx) eqn:Hk
      |destruct (actions p !! ctx) eqn:Hk
      |destruct (under_way p !! i) as [c|] eqn:Hi; [simpl|done];
       destruct (actions p !! closure_context c) eqn:Hk
      |case_decide
      |destruct (actions p !! ctx) eqn:Hk
      |destruct (actions p !! ctx) eqn:Hk]; intros [= <-]; by econstructor.
Qed.

(** ** Lists of callbacks *)

Section callbacks.
Context {A : Type} (P : A → Prop) `{!∀ x, Decision (P x)}.
Implicit Types (l : list A) (i : nat).

Lemma filter_all l : Forall P l → filter P l = l.
Proof.
  induction 1 as [|x l Hx _ IH]; [done | ].
  by rewrite filter_cons, decide_True, IH.
Qed.

Lemma filter_none l : Forall (λ x, ¬ P x) l → filter P l = [].
Proof. induction 1 as [|x l Hx _ IH]; [done | ]. by rewrite filter_cons, decide_False. Qed.

Lemma filter_delete_out l i x :
  l !! i = Some x → ¬ P x → filter P (delete i l) = filter P l.
Proof.
  revert i. induction l as [|y l IH]; intros [|i] Hi Hx; simplify_eq/=.
  - by rewrite filter_cons, decide_False.
  - by rewrite !filter_cons, (IH i).
Qed.

Lemma filter_delete_in l i x :
  l !! i = Some x → P x →
  ∃ j, filter P l !! j = Some x ∧ filter P (delete i l) = delete j (filter P l).
Proof.
  revert i. induction l as [|y l IH]; intros [|i] Hi Hx; simplify_eq/=.
  - exists 0%nat. by rewrite filter_cons, decide_True.
  - destruct (IH i Hi Hx) as (j & Hj & Hdel). rewrite !filter_cons, Hdel.
    case_decide; [by exists (S j) | by exists j].
Qed.

End callbacks.

(** ** The invariant *)

Context `{!Modest color_base, !Modest cycle_base}.

Lemma action_lawful v : Lawful (action v).
Proof. destruct v; [apply ColorAction.color_lawful | apply CycleAction.cycle_lawful]. Qed.

#[local] Existing Instance action_lawful.

Lemma held_mine c ctx k : held c ctx k → mine ctx k.
Proof. by intros [_ ?]. Qed.

Lemma leave_tidy p ctx v rest o :
  cache_wf (the_cache (final o)) → context (self (final o)) = ctx →
  map_Forall (λ ctx k, context (inst k) = ctx) (actions p) →
  Forall (λ c, is_Some (actions p !! closure_context c)) rest →
  Forall (mine ctx) (closures (emitted o)) →
  tidy (leave p ctx v rest o).
Proof.
  intros Hwf Hctx Hkeys Hrest Hnew. split_and!; simpl; [done | | ].
  - by apply map_Forall_insert_2.
  - apply Forall_app. split.
    + eapply Forall_impl; [done | ]. intros c Hc. apply lookup_insert_is_Some'. auto.
    + eapply Forall_impl; [done | ]. intros c <-. apply lookup_insert_is_Some'. auto.
Qed.

Lemma happen_tidy e p p' : tidy p → happen e p = Some p' → tidy p'.
Proof.
  intros (Hwf & Hkeys & Hway)
    [ctx v st Hk|ctx k i Hk|i c k ok err Hi Hk|fresh [Hfresh _]|ctx k cb Hk|ctx k st Hk]
    %occurs_happen.
  - destruct (create_sound (a := action v) ctx st
                (State (shared p) (Instance ctx st) (initial v)))
      as (Hc & Hctx & _ & Hnone).
    apply leave_tidy; rewrite ?Hc, ?Hnone; auto.
  - destruct (keyUp_sound (a := action (kind k)) (context (inst k)) i (enter p k))
      as (Hc & Hself & _ & Hheld).
    pose proof (Hkeys _ _ Hk) as Hctx. simpl in Hctx.
    apply leave_tidy; rewrite ?Hc, ?Hself; auto.
    eapply Forall_impl; [done | ]. intros c Hc'. rewrite <- Hctx. by eapply held_mine.
  - destruct (answer_sound (a := action (kind k)) c ok err (enter p k))
      as (Hself & Hdata & Hdom & _ & Hnone).
    apply leave_tidy; rewrite ?Hself, ?Hnone; auto.
    + eapply cache_wf_dom; [done | by rewrite Hdom | done].
    + apply (Hkeys _ _ Hk).
    + by apply Forall_delete.
  - by split_and!.
  - destruct (refreshed_sound (a := action (kind k)) cb (enter p k))
      as (Hc & Hctx & _ & Hnone).
    apply leave_tidy; rewrite ?Hc, ?Hctx, ?Hnone; auto. apply (Hkeys _ _ Hk).
  - split_and!; simpl; [done | | ].
    + apply map_Forall_insert_2; [apply (Hkeys _ _ Hk) | done].
    + eapply Forall_impl; [done | ]. intros c Hc. apply lookup_insert_is_Some'. auto.
Qed.

Lemma reachable_tidy c0 p : cache_wf c0 → reachable c0 p → tidy p.
Proof.
  intros Hwf. induction 1 as [|p e p' _ IH He]; [ | by eapply happen_tidy].
  split_and!; simpl; [done | apply map_Forall_empty | constructor].
Qed.

(** ** Each key by itself *)

(** The key [ctx] after one of its own handlers. *)
Lemma leave_view_own p ctx v rest o c' :
  now c' = final o →
  pending c' = filter (mine ctx) rest ++ closures (emitted o) →
  Forall (mine ctx) (closures (emitted o)) →
  view (leave p ctx v rest o) ctx v c'.
Proof.
  intros Hnow Hpend Hmine. exists (self (final o)), (vars (final o)). simpl.
  by rewrite lookup_insert_eq, state_eta, filter_app, (filter_all _ _ Hmine).
Qed.

(** The key [ctx] after a handler of another key. *)
Lemma leave_view_other p ctx ctx' v v' i x rest o c' :
  ctx' ≠ ctx → actions p !! ctx = Some (Slot v i x) →
  now c' = State (the_cache (final o)) i x →
  pending c' = filter (mine ctx) rest →
  Forall (mine ctx') (closures (emitted o)) →
  view (leave p ctx' v' rest o) ctx v c'.
Proof.
  intros Hne Hk Hnow Hpend Hmine. exists i, x. simpl.
  rewrite lookup_insert_ne, filter_app, (filter_none _ (closures _)) by
    (done || (eapply Forall_impl; [done | ]; unfold mine; congruence)).
  by rewrite (right_id_L [] (++)).
Qed.

Lemma appear_view ctx' v' st p p' ctx v c :
  happen (Appear ctx' v' st) p = Some p' → view p ctx v c → view p' ctx v c.
Proof.
  intros He (i & x & Hk & Hnow & Hpend). simpl in He.
  destruct (actions p !! ctx') eqn:Hk'; simplify_eq.
  destruct (create_sound (a := action v') ctx' st
              (State (shared p) (Instance ctx' st) (initial v')))
    as (Hc & _ & _ & Hnone).
  eapply leave_view_other; rewrite ?Hc, ?Hnone; eauto. congruence.
Qed.

Lemma press_view ctx' inSettings p p' ctx v c :
  tidy p → happen (Press ctx' inSettings) p = Some p' → view p ctx v c →
  ∃ evs c', steps (a := action v) c evs c' ∧ view p' ctx v c'.
Proof.
  intros (_ & Hkeys & _) He (i & x & Hk & Hnow & Hpend). simpl in He.
  destruct (actions p !! ctx') as [k|] eqn:Hk'; simplify_eq/=.
  pose proof (Hkeys _ _ Hk') as Hctx. simpl in Hctx.
  destruct (keyUp_sound (a := action (kind k)) (context (inst k)) inSettings (enter p k))
    as (Hc & _ & _ & Hheld).
  assert (Forall (mine ctx')
            (closures (emitted (keyUp (KeyAction := action (kind k))
                                  (context (inst k)) inSettings (enter p k))))) as Hmine.
  { eapply Forall_impl; [done | ]. intros k' Hk''. rewrite <- Hctx. by eapply held_mine. }
  destruct (decide (ctx' = ctx)) as [->|Hne].
  - simplify_eq/=. eexists [KeyUp inSettings], _.
    split; [econstructor; constructor | ].
    apply leave_view_own; simpl; rewrite ?Hnow, ?Hpend; done.
  - exists [], c. split; [constructor | ].
    eapply leave_view_other; rewrite ?Hc; eauto.
Qed.

Lemma reply_view n inSuccess inError p p' ctx v c :
  tidy p → happen (Reply n inSuccess inError) p = Some p' → view p ctx v c →
  ∃ evs c', steps (a := action v) c evs c' ∧ view p' ctx v c'.
Proof.
  intros (Hwf & _ & _) He (i & x & Hk & Hnow & Hpend). simpl in He.
  destruct (under_way p !! n) as [cl|] eqn:Hn; simplify_eq/=.
  destruct (actions p !! closure_context cl) as [k|] eqn:Hk'; simplify_eq/=.
  destruct (answer_sound (a := action (kind k)) cl inSuccess inError (enter p k))
    as (_ & Hdata & Hdom & _ & Hnone).
  destruct (decide (closure_context cl = ctx)) as [Hctx|Hne].
  - destruct (filter_delete_in (mine ctx) _ _ _ Hn Hctx) as (j & Hj & Hdel).
    subst ctx. simplify_eq/=. unfold enter in *. simpl in *.
    eexists [Answer j inSuccess inError], _. split.
    + econstructor; [apply step_answer; by rewrite Hpend | constructor].
    + apply leave_view_own; simpl; rewrite ?Hnow, ?Hpend, ?Hdel, ?Hnone; done.
  - eexists [Install _], _. split.
    + econstructor; [apply step_install | constructor]. rewrite Hnow. split.
      * eapply cache_wf_dom; [exact Hdata | by rewrite Hdom | done].
      * by rewrite Hdom.
    + eapply leave_view_other; rewrite ?Hnone; simpl; rewrite ?Hnow; eauto.
      by rewrite Hpend, (filter_delete_out _ _ _ _ Hn).
Qed.

Lemma renew_view fresh p p' ctx v c :
  happen (Renew fresh) p = Some p' → view p ctx v c →
  ∃ evs c', steps (a := action v) c evs c' ∧ view p' ctx v c'.
Proof.
  intros He (i & x & Hk & Hnow & Hpend). simpl in He. case_decide as Hin; simplify_eq.
  eexists [Install fresh], _. split.
  - econstructor; [apply step_install; by rewrite Hnow | constructor].
  - exists i, x. simpl. by rewrite Hnow.
Qed.

Lemma tell_view ctx' inCallback p p' ctx v c :
  happen (Tell ctx' inCallback) p = Some p' → view p ctx v c →
  ∃ evs c', steps (a := action v) c evs c' ∧ view p' ctx v c'.
Proof.
  intros He (i & x & Hk & Hnow & Hpend). simpl in He.
  destruct (actions p !! ctx') as [k|] eqn:Hk'; simplify_eq/=.
  destruct (refreshed_sound (a := action (kind k)) inCallback (enter p k))
    as (Hc & _ & _ & Hnone).
  destruct (decide (ctx' = ctx)) as [->|Hne].
  - simplify_eq/=. unfold enter in *. simpl in *. eexists [Notify inCallback], _.
    split; [econstructor; constructor | ].
    apply leave_view_own; simpl; rewrite ?Hnow, ?Hpend, ?Hnone; done.
  - exists [], c. split; [constructor | ].
    eapply leave_view_other; rewrite ?Hc, ?Hnone; eauto.
Qed.

Lemma reconfigure_view ctx' st p p' ctx v c :
  happen (Reconfigure ctx' st) p = Some p' → view p ctx v c →
  ∃ evs c', steps (a := action v) c evs c' ∧ view p' ctx v c'.
Proof.
  intros He (i & x & Hk & Hnow & Hpend). simpl in He.
  destruct (actions p !! ctx') as [k|] eqn:Hk'; simplify_eq/=.
  destruct (decide (ctx' = ctx)) as [->|Hne].
  - simplify_eq/=. eexists [Configure st], _.
    split; [econstructor; constructor | ].
    eexists _, _. simpl. rewrite lookup_insert_eq, Hnow. done.
  - exists [], c. split; [constructor | ].
    exists i, x. simpl. by rewrite lookup_insert_ne.
Qed.

(** Whatever happens to the plugin, the key [ctx] sees events of its own
    loop: its own events as they are, an answer to another key as a new
    cache, and nothing of the rest. *)
Lemma happen_view e p p' ctx v c :
  tidy p → happen e p = Some p' → view p ctx v c →
  ∃ evs c', steps (a := action v) c evs c' ∧ view p' ctx v c'.
Proof.
  destruct e; eauto using press_view, reply_view, renew_view, tell_view,
    reconfigure_view.
  intros _ He Hv. exists [], c. split; [constructor | by eapply appear_view].
Qed.

(** A key is there from before with the same action, or it has just
    appeared. *)
Lemma happen_actions e p p' ctx k' :
  happen e p = Some p' → actions p' !! ctx = Some k' →
  (∃ i x, actions p !! ctx = Some (Slot (kind k') i x))
  ∨ (actions p !! ctx = None ∧ ∃ st, e = Appear ctx (kind k') st).
Proof.
  intros [ctx' v st Hk|ctx' k i Hk|i c k ok err Hi Hk|fresh _|ctx' k cb Hk|ctx' k st Hk]
    %occurs_happen Hk'; simpl in Hk';
    try (left; destruct k'; by eauto);
    apply lookup_insert_Some in Hk' as [[<- <-]|[_ Hk']]; simpl;
    try (left; destruct k; by eauto); try (left; destruct k'; by eauto).
  right. eauto.
Qed.

(** A new key starts as the constructor leaves it. *)
Lemma appear_born ctx v st p p' :
  tidy p → happen (Appear ctx v st) p = Some p' →
  view p' ctx v
    (boot (a := action v) ctx st (State (shared p) (Instance ctx st) (initial v))).
Proof.
  intros (_ & _ & Hway) He. simpl in He.
  destruct (actions p !! ctx) eqn:Hk; simplify_eq.
  destruct (create_sound (a := action v) ctx st
              (State (shared p) (Instance ctx st) (initial v)))
    as (_ & _ & _ & Hnone).
  apply leave_view_own; simpl; rewrite ?Hnone; [done | | done].
  rewrite filter_none; [done | ].
  eapply Forall_impl; [done | ]. intros c [k' Hc] <-. congruence.
Qed.

Lemma reachable_view c0 p ctx k :
  cache_wf c0 → reachable c0 p → actions p !! ctx = Some k →
  ∃ st s0 evs c,
    cache_wf (the_cache s0)
    ∧ steps (a := action (kind k)) (boot (a := action (kind k)) ctx st s0) evs c
    ∧ view p ctx (kind k) c.
Proof.
  intros Hwf Hr. revert k.
  induction Hr as [|p e p' Hr IH He]; intros k' Hk'; [done | ].
  pose proof (reachable_tidy _ _ Hwf Hr) as Htidy.
  destruct (happen_actions _ _ _ _ _ He Hk') as [(i & x & Hk)|(Hnone & st & ->)].
  - destruct (IH _ Hk) as (st & s0 & evs & c & Hs0 & Hsteps & Hview).
    destruct (happen_view _ _ _ _ _ _ Htidy He Hview) as (evs' & c' & Hsteps' & Hview').
    exists st, s0, (evs ++ evs'), c'. eauto using steps_app.
  - eexists st, _, [], _. split_and!; [ | constructor | by eapply appear_born].
    by destruct Htidy.
Qed.

(** What the key [ctx] has in every plugin that comes about. *)
Lemma reachable_sound c0 p ctx v i x :
  cache_wf c0 → reachable c0 p → actions p !! ctx = Some (Slot v i x) →
  cache_wf (shared p) ∧ context i = ctx ∧ good (KeyAction := action v) x
  ∧ Forall (held (shared p) ctx) (filter (mine ctx) (under_way p)).
Proof.
  intros Hwf Hr Hk.
  destruct (reachable_view _ _ _ _ Hwf Hr Hk)
    as (st & s0 & evs & c & Hs0 & Hsteps & i' & x' & Hk' & Hnow & Hpend).
  cbn [kind] in Hsteps, Hnow, Hpend.
  destruct (steps_sound (a := action v) ctx _ _ _
              (boot_sound (a := action v) ctx st s0 Hs0) Hsteps)
    as (Hwf' & Hctx & Hgood & Hheld).
  clear Hsteps. rewrite Hnow in Hwf', Hctx, Hgood, Hheld. rewrite Hpend in Hheld.
  by simplify_eq.
Qed.

(** ** What an event leaves as it is *)

Lemma happen_frame e p p' ctx :
  happen e p = Some p' → subject p e ≠ Some ctx →
  actions p' !! ctx = actions p !! ctx.
Proof.
  intros [ctx' v st Hk|ctx' k i Hk|i c k ok err Hi Hk|fresh _|ctx' k cb Hk|ctx' k st Hk]
    %occurs_happen Hctx; simpl in *; rewrite ?Hi in Hctx; try done;
    apply lookup_insert_ne; simpl in Hctx; congruence.
Qed.

(** Only an answer of the transport and a new cache change the cache, and
    an answer keeps the tables and the set of objects. *)
Lemma happen_cache e p p' :
  happen e p = Some p' →
  match e with
  | Renew fresh => shared p' = fresh
  | Reply _ _ _ =>
      data (shared p') = data (shared p)
      ∧ dom (heap (shared p')) = dom (heap (shared p))
  | _ => shared p' = shared p
  end.
Proof.
  intros [ctx v st Hk|ctx k i Hk|i c k ok err Hi Hk|fresh _|ctx k cb Hk|ctx k st Hk]
    %occurs_happen; simpl; try done.
  - apply (create_sound (a := action v)).
  - apply (keyUp_sound (a := action (kind k))).
  - destruct (answer_sound (a := action (kind k)) c ok err (enter p k))
      as (_ & ? & ? & _). done.
  - apply (refreshed_sound (a := action (kind k))).
Qed.

Lemma happens_reachable c0 evs p p' :
  reachable c0 p → happens evs p = Some p' → reachable c0 p'.
Proof.
  revert p. induction evs as [|e evs IH]; intros p Hr; simpl; [by intros [= <-] | ].
  destruct (happen e p) as [p1|] eqn:He; [ | done]. simpl.
  apply IH. by econstructor.
Qed.

(** ** Requests and answers *)

Lemma happen_balance e p p' :
  happen e p = Some p' →
  Z.of_nat (length (closures (journal p'))) - Z.of_nat (length (under_way p'))
  = Z.of_nat (length (closures (journal p))) - Z.of_nat (length (under_way p))
    + if is_reply e then 1 else 0.
Proof.
  intros [ctx v st Hk|ctx k i Hk|i c k ok err Hi Hk|fresh _|ctx k cb Hk|ctx k st Hk]
    %occurs_happen; simpl; rewrite ?closures_app, ?length_app; try lia.
  destruct (answer_sound (a := action (kind k)) c ok err (enter p k))
    as (_ & _ & _ & _ & ->).
  rewrite length_delete by eauto. apply lookup_lt_Some in Hi. simpl. lia.
Qed.

(** The requests all keys have made are the requests answered and the
    requests under way. *)
Lemma plugin_accounted c0 evs p :
  happens evs (Plugin c0 ∅ [] []) = Some p →
  length (requests (journal p)) = (length (under_way p) + replies evs)%nat.
Proof.
  assert (∀ p0, happens evs p0 = Some p →
            Z.of_nat (length (closures (journal p))) - Z.of_nat (length (under_way p))
            = Z.of_nat (length (closures (journal p0)))
              - Z.of_nat (length (under_way p0)) + Z.of_nat (replies evs)) as Hall.
  { unfold replies. induction evs as [|e evs IH]; intros p0; simpl.
    - intros [= <-]. lia.
    - destruct (happen e p0) as [p1|] eqn:He; [ | done]. simpl. intros Hp.
      rewrite (IH _ Hp), (happen_balance _ _ _ He), filter_cons.
      destruct e; simpl; lia. }
  intros Hp. specialize (Hall _ Hp). simpl in Hall.
  rewrite closures_requests in Hall. lia.
Qed.

(** When the transport answers every request under way, none is left and
    none has been added. *)
Lemma plugin_drains p rs :
  tidy p → length rs = length (under_way p) →
  ∃ p', happens (settle_all rs) p = Some p' ∧ under_way p' = []
      ∧ requests (journal p') = requests (journal p).
Proof.
  revert p. induction rs as [|[ok err] rs IH]; intros p Htidy Hlen; simpl in Hlen.
  { exists p. split_and!; [done | by apply length_zero_iff_nil | done]. }
  destruct (under_way p) as [|c cs] eqn:Hway; [done | ].
  pose proof Htidy as (Hwf & Hkeys & Hall). rewrite Hway in Hall.
  destruct (Forall_cons_1 _ _ _ Hall) as [[k Hk] _].
  pose proof (occurs_reply p 0 c k ok err ltac:(by rewrite Hway) Hk) as Hstep.
  apply occurs_happen in Hstep.
  change (happens (settle_all ((ok, err) :: rs)) p)
    with (happen (Reply 0 ok err) p ≫= happens (settle_all rs)).
  rewrite Hstep. simpl.
  destruct (answer_sound (a := action (kind k)) c ok err (enter p k))
    as (_ & _ & _ & _ & Hnone).
  edestruct IH as (p' & Hp' & Hnil & Hreq);
    [by eapply happen_tidy | | exists p'; split_and!; [done.. | ] ].
  - simpl. rewrite Hnone, Hway, length_app. simpl in *. lia.
  - rewrite Hreq. unfold requests. simpl. rewrite filter_app.
    fold (requests (emitted (answer (KeyAction := action (kind k)) c ok err (enter p k)))).
    by rewrite (requests_nil _ Hnone), (right_id_L [] (++)).
Qed.

(** ** The plugin and its keys *)

(** C14. Every key of a plugin runs under the event loop of a single key:
    from its constructor on, what has happened to the plugin is, seen from
    the key, a sequence of events of its own loop, in which the writes of
    the other keys to the shared cache are new caches. *)
Theorem plugin_refines_loop c0 p ctx k :
  cache_wf c0 → reachable c0 p → actions p !! ctx = Some k →
  ∃ st s0 evs c,
    cache_wf (the_cache s0)
    ∧ steps (a := action (kind k)) (boot (a := action (kind k)) ctx st s0) evs c
    ∧ view p ctx (kind k) c.
Proof. apply reachable_view. Qed.

(** C15. In every plugin that comes about, the shared cache is well formed,
    every key is filed under its own context, the cursor of a cycle key is
    not below -1, and every callback of a key that is under way holds an
    object of the shared store. *)
Theorem plugin_key_sound c0 p ctx v i x :
  cache_wf c0 → reachable c0 p → actions p !! ctx = Some (Slot v i x) →
  cache_wf (shared p) ∧ context i = ctx ∧ good (KeyAction := action v) x
  ∧ Forall (held (shared p) ctx) (filter (mine ctx) (under_way p)).
Proof. apply reachable_sound. Qed.

(** C25. An event leaves every key it does not concern as it is; only an
    answer of the transport and a new cache change the shared cache, and an
    answer keeps the tables of the cache and the set of its objects. *)
Theorem plugin_frame e p p' ctx :
  happen e p = Some p' → subject p e ≠ Some ctx →
  actions p' !! ctx = actions p !! ctx
  ∧ match e with
    | Renew fresh => shared p' = fresh
    | Reply _ _ _ =>
        data (shared p') = data (shared p)
        ∧ dom (heap (shared p')) = dom (heap (shared p))
    | _ => shared p' = shared p
    end.
Proof. intros He Hctx. split; [by eapply happen_frame | by apply happen_cache]. Qed.

(** C24. In every plugin that comes about, a press of a cycle key with valid
    settings and at least one colour, on a cache whose ids follow the
    naming convention, makes exactly one request, for one of the colours,
    whatever the other keys have done to the shared cache; the cache stays
    as it is. *)
Theorem plugin_cycle_press c0 p ctx i x inSettings b l cols :
  cache_wf c0 → reachable c0 p → actions p !! ctx = Some (Slot Cycle i x) →
  cache_named (shared p) → inSettings ≠ null →
  validate colors (shared p) (effective inSettings (State (shared p) i x))
    = inr (b, l, cols) →
  cols ≠ [] →
  ∃ col o y p',
    happen (Press ctx inSettings) p = Some p' ∧ col ∈ cols
    ∧ (lights b ∪ groups b) !! l = Some o ∧ heap (shared p) !! o = Some y
    ∧ journal p' = journal p ++ [CycleAction.request ctx b l col o y]
    ∧ length (under_way p') = S (length (under_way p))
    ∧ shared p' = shared p.
Proof.
  intros Hwf Hr Hk Hnamed Hnull Hv Hcols.
  destruct (reachable_sound _ _ _ _ _ _ Hwf Hr Hk) as (Hwf' & Hctx & Hgood & _).
  destruct (cycle_keyUp_in_range ctx (State (shared p) i x) inSettings b l cols
              Hwf' Hgood Hnamed Hnull Hv Hcols) as (col & o & y & s' & ? & ? & ? & Hrun).
  destruct (CycleAction.cycle_onKeyUp_final ctx inSettings (State (shared p) i x))
    as (Hc & _).
  assert (happen (Press ctx inSettings) p
          = Some (leave p ctx Cycle (under_way p)
                    (CycleAction.onKeyUp ctx inSettings (State (shared p) i x))))
    as -> by (simpl; rewrite Hk; simpl; by rewrite Hctx).
  rewrite Hrun in Hc |- *. exists col, o, y. eexists.
  split_and!; [done.. | | done]. unfold leave. cbn [under_way emitted].
  rewrite length_app, closures_requests, CycleAction.cycle_requests_request. simpl. lia.
Qed.

(** C26. When the bridge confirms a colour request of any key, the shared
    cache has the colour in the object of the request: every key reads it
    from then on, and no key but the one that asked has changed. *)
Theorem plugin_answer_shared c0 p n o xy ctx inError :
  cache_wf c0 → reachable c0 p → under_way p !! n = Some (OnXY o xy ctx) →
  ∃ p', happen (Reply n true inError) p = Some p'
      ∧ shared p' = set_xy o xy (shared p)
      ∧ ∀ ctx', ctx' ≠ ctx → actions p' !! ctx' = actions p !! ctx'.
Proof.
  intros Hwf Hr Hn. destruct (reachable_tidy _ _ Hwf Hr) as (_ & _ & Hway).
  destruct (Forall_lookup_1 _ _ _ _ Hway Hn) as [[[] i x] Hk]; simpl in Hk;
    eexists; simpl; rewrite Hn; simpl; rewrite Hk; simpl;
    (split_and!; [done | done | intros; by apply lookup_insert_ne]).
Qed.

End plugin.

(** ** The theorems at the concrete installation *)

Section witnesses.
#[local] Existing Instance hex_space.
#[local] Existing Instance plain_base.
Import Demo.

Definition start : plugin := Plugin installation ∅ [] [].

Definition green : settings :=
  Settings (Some "hub") (Some "l-2") (Some "#00ff00") None.

(** A colour key and a cycle key on the temperature light; the colour key
    is pressed with a hex colour, the cycle key with its own settings. *)
Definition shared_events : list happening :=
  [Appear "a" Color ColorAction.warm; Appear "b" Cycle CycleAction.kelvins;
   Press "a" (given green); Press "b" undefined].

Definition crowded : plugin := default start (happens shared_events start).

Lemma crowded_reachable : reachable installation crowded.
Proof. apply (happens_reachable _ shared_events start); [constructor | by vm_compute]. Qed.

Lemma plugin_refines_loop_witness :
  ∃ st s0 evs c,
    cache_wf (the_cache s0)
    ∧ steps (a := action Cycle) (boot (a := action Cycle) "b" st s0) evs c
    ∧ view crowded "b" Cycle c.
Proof.
  exact (plugin_refines_loop installation crowded "b"
           (Slot Cycle (Instance "b" CycleAction.kelvins) (-1))
           installation_wf crowded_reachable ltac:(by vm_compute)).
Defined.

Lemma plugin_key_sound_witness :
  cache_wf (shared crowded) ∧ "b" = "b" ∧ -1 ≤ -1
  ∧ Forall (held (shared crowded) "b") (filter (mine "b") (under_way crowded)).
Proof.
  exact (plugin_key_sound installation crowded "b" Cycle
           (Instance "b" CycleAction.kelvins) (-1)
           installation_wf crowded_reachable ltac:(by vm_compute)).
Defined.

Lemma plugin_frame_witness :
  let p' := default start (happen (Press "a" undefined) crowded) in
  actions p' !! "b" = actions crowded !! "b" ∧ shared p' = shared crowded.
Proof.
  exact (plugin_frame (Press "a" undefined) crowded
           (default start (happen (Press "a" undefined) crowded)) "b"
           ltac:(by vm_compute) ltac:(discriminate)).
Defined.

Lemma plugin_cycle_press_witness :
  ∃ col o y p',
    happen (Press "b" undefined) crowded = Some p'
    ∧ col ∈ ["2230"; "4250"; "6410"]
    ∧ (lights hub ∪ groups hub) !! "l-2" = Some o ∧ heap (shared crowded) !! o = Some y
    ∧ journal p' = journal crowded ++ [CycleAction.request "b" hub "l-2" col o y]
    ∧ length (under_way p') = S (length (under_way crowded))
    ∧ shared p' = shared crowded.
Proof.
  exact (plugin_cycle_press installation crowded "b"
           (Instance "b" CycleAction.kelvins) (-1) undefined hub "l-2" _
           installation_wf crowded_reachable ltac:(by vm_compute)
           ltac:(by apply (bool_decide_unpack _); vm_compute)
           ltac:(discriminate) ltac:(by vm_compute) ltac:(discriminate)).
Defined.

Lemma plugin_answer_shared_witness :
  ∃ p', happen (Reply 0 true "") crowded = Some p'
      ∧ shared p' = set_xy 2%positive "#00ff00" (shared crowded)
      ∧ ∀ ctx', ctx' ≠ "a" → actions p' !! ctx' = actions crowded !! ctx'.
Proof.
  exact (plugin_answer_shared installation crowded 0 2%positive "#00ff00" "a" ""
           installation_wf crowded_reachable ltac:(by vm_compute)).
Defined.

(** The colour key sends a hex colour to the temperature light and the
    bridge confirms: the light now has an [xy] in the shared cache, and at
    the next notice of a cache the cycle key on the same light replaces its
    temperatures by the three colours. *)
Example plugin_flip_crosses_keys :
  ∃ p k, happens (shared_events ++ [Reply 0 true ""; Tell "b" 0]) start = Some p
    ∧ actions p !! "b" = Some k
    ∧ colors (current (inst k)) = Some ["#ff0000"; "#00ff00"; "#0000ff"].
Proof. eexists _, _. split_and!; by vm_compute. Qed.

End witnesses.
