(* ===== verification/Harmony.v ===== *)
(** * Harmony: the keys of a plugin used in order

    The keys of a plugin write to one cache, so the settings of a key are
    matched to a device that other keys change.  This file shows that keys
    used in order do not disturb each other: [Orderly.Matching] is lifted
    from one key to the table of keys, each with the predicate of its own
    action ([fit_of]), and [harmonious] is the invariant of the plugin: the
    cache is well formed and named by the convention, no object has changed
    its kind, the settings of every key are matched, and every callback,
    under way or called, is apt.

    An event is [mannered] when it is a new key with admissible settings, a
    key press with the key's own settings, an answer of the transport, or
    the notice of the cache.  A [refresh] is a new cache followed by its
    notice to every key; between the two the invariant is [retuned]: the
    keys not yet told were matched to the old cache.  A run is [civil]
    when it is made of mannered events and of refreshes by caches that
    follow the naming convention and keep the kind of every object.
    Theorem [plugin_orderly_typed]: in every civil run, in any order and
    with any keys, every request of every key is of the kind its device
    has, the settings of every key are matched, and no object changes its
    kind.  The keys are those of [Plugin] with the plain base action. *)

From Stdlib Require Import ZArith Lia String.
From stdpp Require Import base tactics strings gmap list.
From S2P Require Import Prelude JsString JsNumber ColorCodec Cache Host Key.
From S2P Require Import ColorAction CycleAction Typing EventLoop Orderly Plugin.

Section harmony.
Context `{ColorSpace}.
#[local] Existing Instance plain_base.
Implicit Types (p : plugin) (K : gmap loc bool) (v : variant) (e : happening).

(** The settings a key of the variant may be created with. *)
Definition admissible_of (v : variant) : settings → Prop :=
  match v with Color => color_admissible | Cycle => cycle_admissible end.

(** The settings of a key of the variant are matched to its device. *)
Definition fit_of (v : variant) : state (closure_vars v) → Prop :=
  match v with Color => color_fit | Cycle => cycle_fit end.

(** The events of keys used in order. *)
Definition mannered (e : happening) : Prop :=
  match e with
  | Appear _ v st => admissible_of v st
  | Press _ undefined | Reply _ _ _ | Tell _ _ => True
  | _ => False
  end.

(** The notices of the cache to the keys [ctxs], one after the other. *)
Definition tells (inCallback : nat) (ctxs : list string) : list happening :=
  (λ ctx, Tell ctx inCallback) <$> ctxs.

(** The discovery installs [fresh] and the host tells every key. *)
Definition refresh (fresh : cache) (inCallback : nat) (p : plugin) : list happening :=
  Renew fresh :: tells inCallback (map_to_list (actions p)).*1.

(** The events from [p] on are those of keys used in order, or refreshes
    by caches that follow the naming convention and keep the kind of every
    object. *)
Inductive civil : plugin → list happening → Prop :=
  | civil_nil p : civil p []
  | civil_event p e p1 evs :
      mannered e → happen e p = Some p1 → civil p1 evs → civil p (e :: evs)
  | civil_refresh p fresh inCallback p1 evs :
      cache_named fresh → kinds (shared p) ⊆ kinds fresh →
      happens (refresh fresh inCallback p) p = Some p1 → civil p1 evs →
      civil p (refresh fresh inCallback p ++ evs).

(** The key was matched to some cache. *)
Definition tuned (k : slot) : Prop :=
  ∃ c : cache, fit_of (kind k) (State c (inst k) (closed k)).

Record harmonious K p : Prop := Harmonious {
  harmonious_wf : cache_wf (shared p);
  harmonious_named : cache_named (shared p);
  harmonious_kinds : kinds (shared p) = K;
  harmonious_fit : map_Forall (λ _ k, fit_of (kind k) (enter p k)) (actions p);
  harmonious_under_way : Forall (apt K) (under_way p);
  harmonious_journal : Forall (apt K) (closures (journal p));
}.

(** Between a new cache and the last of its notices: the keys [rest] are
    still to be told. *)
Record retuned K (rest : list string) p : Prop := Retuned {
  retuned_wf : cache_wf (shared p);
  retuned_named : cache_named (shared p);
  retuned_kinds : kinds (shared p) = K;
  retuned_keys : Forall (λ ctx, is_Some (actions p !! ctx)) rest;
  retuned_fit :
    map_Forall (λ ctx k, tuned k ∧ (ctx ∉ rest → fit_of (kind k) (enter p k)))
      (actions p);
  retuned_under_way : Forall (apt K) (under_way p);
  retuned_journal : Forall (apt K) (closures (journal p));
}.

#[local] Instance action_matching v : Matching (action v) (admissible_of v) (fit_of v).
Proof. destruct v; apply _. Qed.

#[local] Instance action_plain_lawful v : Lawful (action v).
Proof. apply action_lawful. Qed.

(** ** One handler of one key *)

(** The plugin after a handler of a key that keeps the tables, the objects
    and their kinds, leaves its own settings matched and hands out apt
    callbacks. *)
Lemma harmonious_leave K p ctx v rest o :
  harmonious K p →
  data (the_cache (final o)) = data (shared p) →
  dom (heap (shared p)) ⊆ dom (heap (the_cache (final o))) →
  kinds (the_cache (final o)) = K → fit_of v (final o) →
  Forall (apt K) rest → Forall (apt K) (closures (emitted o)) →
  harmonious K (leave p ctx v rest o).
Proof.
  intros [Hwf Hnamed Hk Hfit Hpend Htr] Hd Hdom Hk' Hfit' Hrest Hout.
  unfold leave. split; cbn [shared actions under_way journal];
    rewrite ?closures_app; try by apply Forall_app.
  - by eapply cache_wf_dom.
  - by eapply cache_named_data.
  - done.
  - apply map_Forall_insert_2; [unfold enter; cbn; by rewrite state_eta | ].
    eapply map_Forall_impl; [done | ]. intros ctx' k. cbn.
    apply (fit_stable (Matching := action_matching (kind k)));
      cbn [the_cache self enter shared]; congruence.
Qed.

(** A handler that leaves the cache as it is. *)
Lemma harmonious_still K p ctx v o :
  harmonious K p → the_cache (final o) = shared p → fit_of v (final o) →
  Forall (apt K) (closures (emitted o)) →
  harmonious K (leave p ctx v (under_way p) o).
Proof.
  intros Hp Hc Hfit Hout. pose proof Hp as [_ _ Hk _ Hpend _].
  apply harmonious_leave; rewrite ?Hc; done.
Qed.

(** ** One event *)

Lemma harmonious_appear K p ctx v st :
  harmonious K p → admissible_of v st →
  harmonious K (leave p ctx v (under_way p)
                  (create (KeyAction := action v) ctx st
                     (State (shared p) (Instance ctx st) (initial v)))).
Proof.
  intros Hp Hst. pose proof Hp as [Hwf Hnamed _ _ _ _].
  destruct (create_sound (a := action v) ctx st
              (State (shared p) (Instance ctx st) (initial v))) as (Hc & _ & _ & Hnone).
  apply harmonious_still; [done | done | by apply create_fit | by rewrite Hnone].
Qed.

Lemma harmonious_press K p ctx k :
  harmonious K p → actions p !! ctx = Some k →
  harmonious K (leave p ctx (kind k) (under_way p)
                  (keyUp (KeyAction := action (kind k)) (context (inst k)) undefined
                     (enter p k))).
Proof.
  intros Hp Hk. pose proof Hp as [Hwf Hnamed <- Hfit _ _].
  destruct (keyUp_sound (a := action (kind k)) (context (inst k)) undefined (enter p k))
    as (Hc & _).
  destruct (keyUp_fit (a := action (kind k)) (context (inst k)) (enter p k))
    as [Hfit' Hout]; [done.. | by apply (Hfit ctx k) | ].
  by apply harmonious_still.
Qed.

Lemma harmonious_reply K p i c k inSuccess inError :
  harmonious K p → under_way p !! i = Some c → actions p !! closure_context c = Some k →
  harmonious K (leave p (closure_context c) (kind k) (delete i (under_way p))
                  (answer (KeyAction := action (kind k)) c inSuccess inError (enter p k))).
Proof.
  intros Hp Hi Hk. pose proof Hp as [Hwf Hnamed <- Hfit Hpend _].
  pose proof (Forall_lookup_1 _ _ _ _ Hpend Hi) as Hapt.
  destruct (answer_sound (a := action (kind k)) c inSuccess inError (enter p k))
    as (_ & Hd & Hdom & _ & Hnone).
  destruct (answer_fit (a := action (kind k)) c inSuccess inError (enter p k))
    as [Hfit' Hk']; [done | by apply (Hfit (closure_context c) k) | ].
  apply harmonious_leave; rewrite ?Hnone; try done.
  - by rewrite Hdom.
  - by apply Forall_delete.
Qed.

Lemma harmonious_tell K p ctx k inCallback :
  harmonious K p → actions p !! ctx = Some k →
  harmonious K (leave p ctx (kind k) (under_way p)
                  (refreshed (KeyAction := action (kind k)) inCallback (enter p k))).
Proof.
  intros Hp Hk. pose proof Hp as [Hwf Hnamed _ Hfit _ _].
  destruct (refreshed_sound (a := action (kind k)) inCallback (enter p k))
    as (Hc & _ & _ & Hnone).
  apply harmonious_still; [done | done | | by rewrite Hnone].
  by apply (refreshed_fit (a := action (kind k)) (shared p) inCallback (enter p k)),
    (Hfit ctx k).
Qed.

Lemma harmonious_happen K p e p' :
  harmonious K p → mannered e → happen e p = Some p' → harmonious K p'.
Proof.
  intros Hp He Hstep%occurs_happen. revert He.
  destruct Hstep as [ctx v st _|ctx k [| |st] Hk|i c k ok err Hi Hk| |ctx k cb Hk| ];
    intros He; try done;
    eauto using harmonious_appear, harmonious_press, harmonious_reply, harmonious_tell.
Qed.

Lemma harmonious_happens K evs p p' :
  harmonious K p → Forall mannered evs → happens evs p = Some p' → harmonious K p'.
Proof.
  intros Hp Hevs. revert p Hp. induction Hevs as [|e evs He _ IH]; intros p Hp; simpl.
  { by intros [= <-]. }
  destruct (happen e p) as [p1|] eqn:Hstep; [ | done]. eauto using harmonious_happen.
Qed.

Lemma harmonious_start (c0 : cache) :
  cache_wf c0 → cache_named c0 → harmonious (kinds c0) (Plugin c0 ∅ [] []).
Proof.
  intros Hwf Hnamed. split; cbn [shared actions under_way journal]; done.
Qed.

(** ** A new cache and its notices *)

Lemma harmonious_renew K p fresh :
  harmonious K p → cache_wf fresh → cache_named fresh → K ⊆ kinds fresh →
  retuned (kinds fresh) (map_to_list (actions p)).*1
    (Plugin fresh (actions p) (under_way p) (journal p)).
Proof.
  intros [_ _ _ Hfit Hpend Htr] Hwf Hnamed HK.
  assert (∀ ctx k, actions p !! ctx = Some k → ctx ∈ (map_to_list (actions p)).*1) as Hin.
  { intros ctx k Hk. apply list_elem_of_fmap. exists (ctx, k).
    by rewrite elem_of_map_to_list. }
  split; cbn [shared actions under_way journal]; try done.
  - apply Forall_forall. intros ctx ([ctx' k] & -> & Hk%elem_of_map_to_list)%list_elem_of_fmap.
    by exists k.
  - intros ctx k Hk. split; [exists (shared p); by apply (Hfit ctx k) | ].
    intros []. by eapply Hin.
  - eapply Forall_impl; eauto using apt_weaken.
  - eapply Forall_impl; eauto using apt_weaken.
Qed.

Lemma retuned_tell K ctx rest inCallback p :
  retuned K (ctx :: rest) p →
  ∃ p', happen (Tell ctx inCallback) p = Some p' ∧ retuned K rest p'.
Proof.
  intros [Hwf Hnamed Hk [[k Hctx] Hkeys]%Forall_cons Hfit Hpend Htr].
  simpl. rewrite Hctx. eexists. split; [done | ].
  destruct (Hfit ctx k Hctx) as [[c0 Htuned] _].
  destruct (refreshed_sound (a := action (kind k)) inCallback (enter p k))
    as (Hc & _ & _ & Hnone).
  pose proof (refreshed_fit (a := action (kind k)) (shared p) inCallback _
                Hwf Hnamed Htuned) as Hfit'.
  unfold leave. split; cbn [shared actions under_way journal];
    rewrite ?closures_app, ?Hnone, ?(right_id_L [] (++)), ?Hc; try done.
  - eapply Forall_impl; [done | ]. intros ctx' Hsome.
    apply lookup_insert_is_Some'. by right.
  - intros ctx' k' [[<- <-]|[Hne Hk']]%lookup_insert_Some; cbn [kind inst closed enter].
    + cbn [self vars] in Hfit'. fold (enter p k) in Hfit'.
      rewrite <- (state_eta (final _)), Hc in Hfit'.
      split; [by exists (shared p) | done].
    + destruct (Hfit ctx' k' Hk') as [Ht Hf]. split; [done | ].
      intros Hrest. apply Hf. by intros [->|?]%elem_of_cons.
Qed.

Lemma retuned_tells K rest inCallback p :
  retuned K rest p →
  ∃ p', happens (tells inCallback rest) p = Some p' ∧ harmonious K p'.
Proof.
  revert p. induction rest as [|ctx rest IH]; intros p Hp.
  - exists p. split; [done | ]. destruct Hp as [? ? ? _ Hfit ? ?]. split; try done.
    intros ctx k Hk. apply (Hfit ctx k Hk), not_elem_of_nil.
  - destruct (retuned_tell _ _ _ inCallback _ Hp) as (p1 & Hstep & Hp1).
    change (happens (tells inCallback (ctx :: rest)) p)
      with (happen (Tell ctx inCallback) p ≫= happens (tells inCallback rest)).
    rewrite Hstep. by apply IH.
Qed.

(** After a new cache and the notice of it to every key, the settings of
    every key are matched to the devices the new cache lists. *)
Lemma harmonious_refresh K p fresh inCallback :
  harmonious K p → installs (shared p) fresh → cache_named fresh → K ⊆ kinds fresh →
  ∃ p', happens (refresh fresh inCallback p) p = Some p' ∧ harmonious (kinds fresh) p'.
Proof.
  intros Hp Hin Hnamed HK. unfold refresh. cbn [happens happen].
  rewrite decide_True by done. pose proof Hin as [Hwf _].
  apply (retuned_tells _ _ inCallback _ (harmonious_renew K p fresh Hp Hwf Hnamed HK)).
Qed.

Lemma happens_app evs1 evs2 p :
  happens (evs1 ++ evs2) p = happens evs1 p ≫= happens evs2.
Proof.
  revert p. induction evs1 as [|e evs1 IH]; intros p; [done | ].
  change (happens ((e :: evs1) ++ evs2) p)
    with (happen e p ≫= happens (evs1 ++ evs2)).
  change (happens (e :: evs1) p) with (happen e p ≫= happens evs1).
  destruct (happen e p); [apply IH | done].
Qed.

Lemma harmonious_civil K p evs :
  harmonious K p → civil p evs →
  ∃ K' p', happens evs p = Some p' ∧ K ⊆ K' ∧ harmonious K' p'.
Proof.
  intros Hp Hevs. revert K Hp.
  induction Hevs as [p|p e p1 evs He Hstep _ IH|p fresh cb p1 evs Hnamed Hsub Hrun _ IH];
    intros K Hp.
  - by exists K, p.
  - simpl. rewrite Hstep. eauto using harmonious_happen.
  - pose proof Hp as [_ _ <- _ _ _].
    assert (installs (shared p) fresh) as Hin
      by (unfold refresh in Hrun; simpl in Hrun; by case_decide).
    destruct (harmonious_refresh _ p fresh cb Hp Hin Hnamed Hsub) as (p' & Hrun' & Hp').
    rewrite happens_app, Hrun. assert (p' = p1) as -> by congruence.
    destruct (IH _ Hp') as (K' & p2 & Hrest & HK' & Hp2).
    exists K', p2. split_and!; [done | by etrans | done].
Qed.

Lemma civil_mannered p evs p' rest :
  Forall mannered evs → happens evs p = Some p' → civil p' rest → civil p (evs ++ rest).
Proof.
  intros Hevs. revert p. induction Hevs as [|e evs He _ IH]; intros p Hrun Hrest.
  { by injection Hrun as ->. }
  change (happens (e :: evs) p) with (happen e p ≫= happens evs) in Hrun.
  destruct (happen e p) as [p1|] eqn:Hstep; [ | done].
  apply (civil_event p e p1); eauto.
Qed.

(** C16. The keys of a plugin, used in order, do not disturb each other.
    With the plain base action ([plain_base], the base class as the
    specification describes it), from a well-formed cache whose ids follow the naming convention and no
    key, whatever keys of either action are created (with colours that
    have their [#] in front or have none, the colours of a cycle key all
    of one kind), pressed with their own settings, answered by the
    transport and told of the cache, in any order, and whenever the
    discovery installs a new cache that follows the convention and keeps
    the kind of every object, and the host tells every key: every request
    of every key is of the kind its device has, the settings of every key
    are matched to the device they name in the cache of the moment, and no
    object has changed its kind. *)
Theorem plugin_orderly_typed (c0 : cache) evs :
  cache_wf c0 → cache_named c0 → civil (Plugin c0 ∅ [] []) evs →
  ∃ p, happens evs (Plugin c0 ∅ [] []) = Some p
     ∧ kinds c0 ⊆ kinds (shared p)
     ∧ Forall (apt (kinds (shared p))) (closures (journal p))
     ∧ map_Forall (λ _ k, fit_of (kind k) (enter p k)) (actions p).
Proof.
  intros Hwf Hnamed Hevs.
  destruct (harmonious_civil _ _ _ (harmonious_start c0 Hwf Hnamed) Hevs)
    as (K' & p & Hrun & HK' & [_ _ <- Hfit _ Htr]).
  by exists p.
Qed.

End harmony.

(** ** The theorem at the concrete installation *)

Section witnesses.
#[local] Existing Instance hex_space.
#[local] Existing Instance plain_base.
Import Demo.

(** Two keys on the light without colour and one on the colour light are
    created and pressed, and the bridge confirms the first request. *)
Definition polite_events : list happening :=
  [Appear "a" Color ColorAction.warm; Appear "b" Cycle CycleAction.kelvins;
   Appear "c" Color ColorAction.red;
   Press "a" undefined; Press "b" undefined; Reply 0 true ""].

Definition polite : plugin := default start (happens polite_events start).

(** The discovery finds a light with colour in the place of the light
    without, and the host tells the three keys. *)
Definition noticed : plugin :=
  default start (happens (refresh upgraded 0 polite) polite).

(** The keys are pressed again, and the bridge refuses a request. *)
Definition later_events : list happening :=
  [Press "a" undefined; Press "b" undefined; Press "c" undefined; Reply 1 false "busy"].

Definition civil_events : list happening :=
  polite_events ++ refresh upgraded 0 polite ++ later_events.

Lemma polite_mannered : Forall mannered polite_events.
Proof.
  repeat apply Forall_cons_2; try apply Forall_nil_2; try exact I; simpl.
  - by intros col [= <-].
  - intros cols [= <-]. apply (suits_tame _ bulb). by repeat constructor.
  - by intros col [= <-].
Qed.

Lemma civil_events_civil : civil start civil_events.
Proof.
  unfold civil_events. rewrite <- (app_nil_r later_events).
  apply (civil_mannered start polite_events polite); [apply polite_mannered | by vm_compute | ].
  apply (civil_refresh polite upgraded 0 noticed);
    [apply upgraded_named | apply (bool_decide_unpack _); by vm_compute | by vm_compute | ].
  apply (civil_mannered noticed later_events
           (default start (happens later_events noticed)));
    [by repeat constructor | by vm_compute | constructor].
Qed.

Lemma plugin_orderly_typed_witness :
  ∃ p, happens civil_events start = Some p
     ∧ kinds installation ⊆ kinds (shared p)
     ∧ Forall (apt (kinds (shared p))) (closures (journal p))
     ∧ map_Forall (λ _ k, fit_of (kind k) (enter p k)) (actions p).
Proof.
  exact (plugin_orderly_typed installation civil_events
           installation_wf installation_named civil_events_civil).
Defined.

(** The requests of the three keys, oldest first: temperatures for the
    light without colour, colours after it has been replaced; the second
    key keeps its cursor and asks for its first colour, its first request
    not being confirmed. *)
Example civil_requests :
  closures ∘ journal <$> happens civil_events start
  = Some [OnTemperature 2%positive (percentToMired "50") "a";
          OnTemperature 2%positive (kelvinToMired "2230") "b";
          OnXY 5%positive "#ffffff" "a";
          OnXY 5%positive "#ff0000" "b";
          OnXY 1%positive "#ff0000" "c"].
Proof. by vm_compute. Qed.

End witnesses.
